(** * A lexical product search engine (TF-IDF + fuzzy title matching)

    Shallow embedding of [utils.py] and [search.py], together with the
    parts of the Python runtime they rest on ([str], [dict], [Counter],
    [sorted], [difflib.SequenceMatcher], [float] arithmetic).

    Conventions.
    - A Python [str] is a [string]; its characters are the code points
      U+0000..U+00FF, on which [str.lower], [unicodedata.normalize("NFD")]
      and the regular expression class [\s] are tabulated below.
    - A Python [dict] is an association list with pairwise distinct keys,
      kept in insertion order (the order [items()] iterates in).
    - Python's [float] is an instance of the class [Num]: the binary64
      numbers of the kernel ([float]) and the real numbers ([R]) are the two
      instances.  Definitions are written once, for any instance.
    - An exception is a value of [exn]; code that can raise returns a
      [result]. *)

From Stdlib Require Import Bool Arith ZArith List String Ascii Lia.
From Stdlib Require Import Sorted Permutation.
From Stdlib Require Import Reals Lra Psatz.
From Stdlib Require Floats.
Import ListNotations.

(* ================================================================== *)
(** * Python values *)
(* ================================================================== *)

(** ** Exceptions *)

Inductive exn : Type :=
| ValueError (msg : string)
| AttributeError
| KeyError (key : string)
| IndexError
| ZeroDivisionError
| FileNotFoundError
| FuelExhausted.   (* a loop of the model ran out of fuel; never raised, see
                      [get_matching_blocks_terminates] *)

Inductive result (A : Type) : Type :=
| Ok (a : A)
| Raise (e : exn).

Arguments Ok {A} a.
Arguments Raise {A} e.

Definition bind {A B : Type} (m : result A) (k : A -> result B) : result B :=
  match m with
  | Ok a => k a
  | Raise e => Raise e
  end.

Declare Scope py_scope.
Delimit Scope py_scope with py.
Notation "x <- m ;; k" := (bind m (fun x => k))
  (at level 61, m at next level, right associativity) : py_scope.

(** ** Numbers: the operations of Python's [float] the program uses *)

Class Num (F : Type) : Type := {
  of_int : Z -> F;            (* float(n) for an int n *)
  div_int : Z -> Z -> F;      (* n / m on ints: the correctly rounded quotient;
                                 also the value of a decimal literal *)
  fadd : F -> F -> F;
  fsub : F -> F -> F;
  fmul : F -> F -> F;
  fdiv : F -> F -> F;         (* x / y for y != 0 *)
  fneg : F -> F;
  fsqrt : F -> F;             (* math.sqrt on x >= 0 *)
  feqb : F -> F -> bool;      (* x == y *)
  fltb : F -> F -> bool;      (* x < y *)
  fleb : F -> F -> bool       (* x <= y *)
}.

(** [math.log] and [round(x, ndigits)] *)
Class PyMath (F : Type) `{Num F} : Type := {
  flog : F -> F;
  fround : F -> nat -> F
}.

Section PyFloat.
Context {F : Type} `{Num F}.

Definition zero : F := of_int 0.

(** [x / y] raises ZeroDivisionError when [y == 0]. *)
Definition py_div (x y : F) : result F :=
  if feqb y zero then Raise ZeroDivisionError else Ok (fdiv x y).

(** [math.sqrt(x)] raises ValueError when [x < 0]. *)
Definition math_sqrt (x : F) : result F :=
  if fltb x zero then Raise (ValueError "math domain error") else Ok (fsqrt x).

(** [sum(xs)]: left to right, from the int 0.  (CPython 3.12 and later
    also carry a compensation term for the rounding errors of the partial
    sums; it changes no sum that is exact.) *)
Definition py_sum (xs : list F) : F := fold_left fadd xs zero.
End PyFloat.

(** [math.log(x)] raises ValueError when [x <= 0]. *)
Definition math_log {F : Type} `{PyMath F} (x : F) : result F :=
  if fleb x zero then Raise (ValueError "math domain error") else Ok (flog x).

(** *** Instance: binary64 *)

Definition sf_of_int (z : Z) : SpecFloat.spec_float :=
  match z with
  | Z0 => SpecFloat.S754_zero false
  | Zpos p => SpecFloat.S754_finite false p 0
  | Zneg p => SpecFloat.S754_finite true p 0
  end.

Definition float_of_int (z : Z) : PrimFloat.float :=
  match z with
  | Z0 => PrimFloat.zero
  | _ => FloatOps.SF2Prim (SpecFloat.binary_normalize FloatOps.prec FloatOps.emax z 0 false)
  end.

Definition float_div_int (n m : Z) : PrimFloat.float :=
  FloatOps.SF2Prim (SpecFloat.SFdiv FloatOps.prec FloatOps.emax (sf_of_int n) (sf_of_int m)).

#[export] Instance FloatNum : Num PrimFloat.float := {|
  of_int := float_of_int;
  div_int := float_div_int;
  fadd := PrimFloat.add;
  fsub := PrimFloat.sub;
  fmul := PrimFloat.mul;
  fdiv := PrimFloat.div;
  fneg := PrimFloat.opp;
  fsqrt := PrimFloat.sqrt;
  feqb := PrimFloat.eqb;
  fltb := PrimFloat.ltb;
  fleb := PrimFloat.leb
|}.

(** *** Instance: the real numbers (arithmetic without rounding) *)

Definition Reqb (x y : R) : bool := if Req_dec_T x y then true else false.
Definition Rltb (x y : R) : bool := if Rlt_dec x y then true else false.
Definition Rleb (x y : R) : bool := if Rle_dec x y then true else false.

(** [round(x, n)]: the nearest multiple of 10^-n, ties to the even one. *)
Definition Rround (x : R) (n : nat) : R :=
  let y := (x * 10 ^ n)%R in
  let f := Int_part y in
  let r := frac_part y in
  let m := if Rlt_dec r (1 / 2) then f
           else if Rlt_dec (1 / 2) r then (f + 1)%Z
           else if Z.even f then f else (f + 1)%Z in
  (IZR m / 10 ^ n)%R.

#[export] Instance RNum : Num R := {|
  of_int := IZR;
  div_int := fun n m => (IZR n / IZR m)%R;
  fadd := Rplus;
  fsub := Rminus;
  fmul := Rmult;
  fdiv := Rdiv;
  fneg := Ropp;
  fsqrt := sqrt;
  feqb := Reqb;
  fltb := Rltb;
  fleb := Rleb
|}.

#[export] Instance RMath : PyMath R := {|
  flog := ln;
  fround := Rround
|}.

(** ** Dictionaries *)

Section Dict.
Variables (K V : Type) (keq : K -> K -> bool).

Definition dict : Type := list (K * V).

(** [d.get(k)] *)
Fixpoint dict_get (d : dict) (k : K) : option V :=
  match d with
  | [] => None
  | (k', v) :: d' => if keq k k' then Some v else dict_get d' k
  end.

(** [d.get(k, default)] *)
Definition dict_get_or (d : dict) (k : K) (default : V) : V :=
  match dict_get d k with
  | Some v => v
  | None => default
  end.

(** [k in d] *)
Definition dict_mem (d : dict) (k : K) : bool :=
  match dict_get d k with
  | Some _ => true
  | None => false
  end.

(** [d[k] = v]: a known key keeps its place, a new one goes last. *)
Fixpoint dict_set (d : dict) (k : K) (v : V) : dict :=
  match d with
  | [] => [(k, v)]
  | (k', v') :: d' =>
      if keq k k' then (k, v) :: d' else (k', v') :: dict_set d' k v
  end.

Definition dict_keys (d : dict) : list K := map fst d.
Definition dict_values (d : dict) : list V := map snd d.
End Dict.

Arguments dict_get {K V} keq d k.
Arguments dict_get_or {K V} keq d k default.
Arguments dict_mem {K V} keq d k.
Arguments dict_set {K V} keq d k v.
Arguments dict_keys {K V} d.
Arguments dict_values {K V} d.

(** Dictionaries keyed by strings. *)
Definition sget {V : Type} (d : dict string V) (k : string) : option V :=
  dict_get String.eqb d k.
Definition sget_or {V : Type} (d : dict string V) (k : string) (default : V) : V :=
  dict_get_or String.eqb d k default.
Definition smem {V : Type} (d : dict string V) (k : string) : bool :=
  dict_mem String.eqb d k.
Definition sset {V : Type} (d : dict string V) (k : string) (v : V) : dict string V :=
  dict_set String.eqb d k v.

(** ** Strings *)

Open Scope string_scope.
Open Scope list_scope.

Definition code (c : ascii) : N := N_of_ascii c.

Definition in_range (lo hi : N) (c : ascii) : bool :=
  (N.leb lo (code c) && N.leb (code c) hi)%bool.

(** [str.isspace] (and [\s] of [re]) on U+0000..U+00FF. *)
Definition is_space (c : ascii) : bool :=
  (in_range 9 13 c || in_range 28 32 c || N.eqb (code c) 133 || N.eqb (code c) 160)%bool.

Definition is_digit (c : ascii) : bool := in_range 48 57 c.
Definition is_lower_az (c : ascii) : bool := in_range 97 122 c.

Fixpoint str_filter (p : ascii -> bool) (s : string) : string :=
  match s with
  | EmptyString => EmptyString
  | String c s' => if p c then String c (str_filter p s') else str_filter p s'
  end.

Fixpoint str_map (f : ascii -> ascii) (s : string) : string :=
  match s with
  | EmptyString => EmptyString
  | String c s' => String (f c) (str_map f s')
  end.

(** [c in s] for a one-character [c] *)
Fixpoint str_contains (c : ascii) (s : string) : bool :=
  match s with
  | EmptyString => false
  | String c' s' => (Ascii.eqb c' c || str_contains c s')%bool
  end.

(** [s.count(c)] for a one-character [c] *)
Fixpoint str_count (c : ascii) (s : string) : nat :=
  match s with
  | EmptyString => 0
  | String c' s' => (if Ascii.eqb c' c then 1 else 0) + str_count c s'
  end.

(** [s.replace(c, new)] for a one-character [c] *)
Fixpoint str_replace (c : ascii) (new : string) (s : string) : string :=
  match s with
  | EmptyString => EmptyString
  | String c' s' =>
      if Ascii.eqb c' c then new ++ str_replace c new s'
      else String c' (str_replace c new s')
  end.

(** [s.split(c)] for a one-character separator: empty fields are kept. *)
Fixpoint str_split_on (c : ascii) (s : string) : list string :=
  match s with
  | EmptyString => [EmptyString]
  | String c' s' =>
      if Ascii.eqb c' c then EmptyString :: str_split_on c s'
      else match str_split_on c s' with
           | w :: ws => String c' w :: ws
           | [] => [String c' EmptyString]
           end
  end.

Fixpoint lstrip (s : string) : string :=
  match s with
  | EmptyString => EmptyString
  | String c s' => if is_space c then lstrip s' else s
  end.

Fixpoint rstrip (s : string) : string :=
  match s with
  | EmptyString => EmptyString
  | String c s' =>
      match rstrip s' with
      | EmptyString => if is_space c then EmptyString else String c EmptyString
      | r => String c r
      end
  end.

(** [s.strip()] *)
Definition strip (s : string) : string := rstrip (lstrip s).

(** [s.split()]: fields separated by runs of white space, none empty. *)
Fixpoint str_split (s : string) : list string :=
  match s with
  | EmptyString => []
  | String c s' =>
      if is_space c then str_split s'
      else match s' with
           | EmptyString => [String c EmptyString]
           | String c' _ =>
               if is_space c' then String c EmptyString :: str_split s'
               else match str_split s' with
                    | w :: ws => String c w :: ws
                    | [] => [String c EmptyString]
                    end
           end
  end.

(** [sep.join(parts)] *)
Fixpoint str_join (sep : string) (parts : list string) : string :=
  match parts with
  | [] => EmptyString
  | [p] => p
  | p :: ps => p ++ sep ++ str_join sep ps
  end.

(** Truth value of a string, and of an optional one. *)
Definition truthy (s : string) : bool := negb (String.eqb s "").
Definition truthy_opt (s : option string) : bool :=
  match s with
  | Some s => truthy s
  | None => false
  end.

(** [x in l] for a list (or a set) of strings *)
Definition str_in (x : string) (l : list string) : bool :=
  existsb (String.eqb x) l.

(** [set(l)]: the distinct elements.  The iteration order of a Python set is
    unspecified; the first occurrences are kept in order here, and every use
    below is one that does not depend on the order. *)
Fixpoint py_set (l : list string) : list string :=
  match l with
  | [] => []
  | x :: l' => x :: filter (fun y => negb (String.eqb y x)) (py_set l')
  end.

(** [sorted(l)] on strings: code-point order. *)
Fixpoint insert_sorted (x : string) (l : list string) : list string :=
  match l with
  | [] => [x]
  | y :: l' => if String.leb x y then x :: l else y :: insert_sorted x l'
  end.

Fixpoint sorted (l : list string) : list string :=
  match l with
  | [] => []
  | x :: l' => insert_sorted x (sorted l')
  end.

(** [Counter(tokens)]: occurrences, keys in order of first occurrence. *)
Fixpoint Counter_add (counts : dict string nat) (tokens : list string) : dict string nat :=
  match tokens with
  | [] => counts
  | t :: ts => Counter_add (sset counts t (S (sget_or counts t 0))) ts
  end.

Definition Counter (tokens : list string) : dict string nat := Counter_add [] tokens.

(** [len(l) or 1] *)
Definition len_or_1 {A : Type} (l : list A) : nat :=
  match List.length l with
  | O => 1
  | n => n
  end.

(* ================================================================== *)
(** * utils.py *)
(* ================================================================== *)

Definition STOPWORDS_FR_EN : list string :=
  [ "a"; "an"; "and"; "au"; "aux"; "avec"; "ce"; "ces"; "dans"; "de"; "des";
    "du"; "elle"; "en"; "et"; "for"; "il"; "ils"; "in"; "is"; "la"; "le";
    "les"; "mais"; "of"; "on"; "or"; "ou"; "par"; "pas"; "pour"; "que";
    "qui"; "sur"; "the"; "to"; "un"; "une"; "with" ].

Definition SYNONYMS : dict string string :=
  [ ("basket", "chaussure"); ("baskets", "chaussure");
    ("sneaker", "chaussure"); ("sneakers", "chaussure");
    ("tel", "telephone"); ("mobile", "telephone"); ("smartphone", "telephone");
    ("ordi", "ordinateur"); ("laptop", "ordinateur"); ("notebook", "ordinateur");
    ("cadeaux", "cadeau"); ("anniv", "anniversaire");
    ("runing", "running"); ("chaussur", "chaussure") ].

Definition COLUMN_CANDIDATES : dict string (list string) :=
  [ ("title", ["title"; "name"; "product_name"; "nom"; "titre"; "product"]);
    ("description", ["description"; "desc"; "details"; "content"]);
    ("price", ["price"; "selling_price"; "prix"; "amount"; "cost"]);
    ("rating", ["rating"; "average_rating"; "note"; "stars"]);
    ("image_url", ["image_url"; "image"; "images"; "thumbnail"; "photo"]);
    ("category", ["category"; "categorie"; "sub_category"; "type"; "department"]);
    ("brand", ["brand"; "marque"; "maker"]);
    ("url", ["url"; "product_url"; "link"; "href"]) ].

(** [str.lower] on U+0000..U+00FF: A-Z and the capital letters U+00C0..U+00DE
    (the multiplication sign U+00D7 apart) move up by 32. *)
Definition lower_char (c : ascii) : ascii :=
  if (in_range 65 90 c || (in_range 192 222 c && negb (N.eqb (code c) 215)))%bool
  then ascii_of_N (code c + 32) else c.

Definition lower (s : string) : string := str_map lower_char s.

(** The canonical decomposition of a character of U+0000..U+00FF is the
    character itself or a basic Latin letter followed by combining marks
    (category Mn); [nfd_base] is what is left of it once the marks are
    dropped. *)
Definition nfd_base (c : ascii) : ascii :=
  let n := code c in
  if in_range 192 197 c then "A"%char
  else if N.eqb n 199 then "C"%char
  else if in_range 200 203 c then "E"%char
  else if in_range 204 207 c then "I"%char
  else if N.eqb n 209 then "N"%char
  else if in_range 210 214 c then "O"%char
  else if in_range 217 220 c then "U"%char
  else if N.eqb n 221 then "Y"%char
  else if in_range 224 229 c then "a"%char
  else if N.eqb n 231 then "c"%char
  else if in_range 232 235 c then "e"%char
  else if in_range 236 239 c then "i"%char
  else if N.eqb n 241 then "n"%char
  else if in_range 242 246 c then "o"%char
  else if in_range 249 252 c then "u"%char
  else if (N.eqb n 253 || N.eqb n 255)%bool then "y"%char
  else c.

Definition strip_accents (text : string) : string := str_map nfd_base text.

(** [re.sub(r"[^a-z0-9\s]", " ", s)] *)
Definition sub_noise (s : string) : string :=
  str_map (fun c => if (is_lower_az c || is_digit c || is_space c)%bool then c else " "%char) s.

(** [re.sub(r"\s+", " ", s)] *)
Fixpoint sub_spaces (s : string) : string :=
  match s with
  | EmptyString => EmptyString
  | String c s' =>
      if is_space c then
        match s' with
        | EmptyString => String " " EmptyString
        | String c' _ =>
            if is_space c' then sub_spaces s' else String " " (sub_spaces s')
        end
      else String c (sub_spaces s')
  end.

Definition normalize_text (text : option string) (keep_spaces : bool) : string :=
  match text with
  | None => ""
  | Some text =>
      if negb (truthy text) then ""
      else
        let cleaned := strip_accents (lower text) in
        let cleaned := sub_noise cleaned in
        let cleaned := strip (sub_spaces cleaned) in
        if keep_spaces then cleaned
        else str_replace " " "" cleaned
  end.

Definition tokenize (text : option string) : list string :=
  let normalized := normalize_text text true in
  if negb (truthy normalized) then []
  else
    fold_left
      (fun tokens token =>
         let mapped := sget_or SYNONYMS token token in
         if (negb (str_in mapped STOPWORDS_FR_EN) && (1 <? String.length mapped)%nat)%bool
         then tokens ++ [mapped]
         else tokens)
      (str_split normalized) [].

(** The value of a string of decimal digits; [None] when another character
    occurs in it. *)
Fixpoint digits_value (s : string) (acc : Z) : option Z :=
  match s with
  | EmptyString => Some acc
  | String c s' =>
      if is_digit c then digits_value s' (10 * acc + Z.of_N (code c - 48))%Z
      else None
  end.

Section ParseNumeric.
Context {F : Type} `{Num F}.

(** [float(s)] for a string over the characters [0-9], [.] and [-], the
    only ones [parse_numeric] leaves: an optional minus sign, then digits
    with at most one point among them and at least one digit.  [None] is a
    ValueError. *)
Definition py_float (s : string) : option F :=
  let '(negative, body) :=
    match s with
    | String "-" r => (true, r)
    | _ => (false, s)
    end in
  let signed (x : F) := if negative then fneg x else x in
  match str_split_on "." body with
  | [ip] =>
      match ip, digits_value ip 0 with
      | String _ _, Some n => Some (signed (of_int n))
      | _, _ => None
      end
  | [ip; fp] =>
      match (ip ++ fp)%string, digits_value (ip ++ fp) 0 with
      | String _ _, Some n => Some (signed (div_int n (10 ^ Z.of_nat (String.length fp))))
      | _, _ => None
      end
  | _ => None
  end.

(** [re.sub(r"[^0-9.\-]", "", s)] *)
Definition sub_non_numeric (s : string) : string :=
  str_filter (fun c => (is_digit c || Ascii.eqb c "." || Ascii.eqb c "-")%bool) s.

Definition parse_numeric (value : option string) : option F :=
  match value with
  | None => None
  | Some value =>
      let raw := strip value in
      if negb (truthy raw) then None
      else
        let cleaned := str_replace " " "" raw in
        let cleaned := str_replace "%" "" cleaned in
        let cleaned :=
          if (str_contains "," cleaned && negb (str_contains "." cleaned))%bool then
            if ((str_count "," cleaned =? 1)%nat
                && (String.length (nth 1 (str_split_on "," cleaned) "") <=? 2)%nat)%bool
            then str_replace "," "." cleaned
            else str_replace "," "" cleaned
          else cleaned in
        let cleaned := sub_non_numeric cleaned in
        if (negb (truthy cleaned) || String.eqb cleaned "-" || String.eqb cleaned ".")%bool
        then None
        else py_float cleaned
  end.
End ParseNumeric.

Definition detect_columns (headers : list string) (override : dict string string)
  : dict string (option string) :=
  let available := map strip (filter truthy headers) in
  let normalized_to_original :=
    fold_left (fun d h => sset d (normalize_text (Some h) false) h) available [] in
  let mapping : dict string (option string) :=
    map (fun kc => (fst kc, None)) COLUMN_CANDIDATES in
  let mapping :=
    fold_left
      (fun mapping (item : string * string) =>
         let (canonical, chosen) := item in
         if str_in chosen available then sset mapping canonical (Some chosen)
         else mapping)
      override mapping in
  fold_left
    (fun mapping (item : string * list string) =>
       let (canonical, candidates) := item in
       if truthy_opt (sget_or mapping canonical None) then mapping
       else
         match find (fun candidate => smem normalized_to_original (normalize_text (Some candidate) false))
                    candidates with
         | Some candidate =>
             sset mapping canonical
                  (sget normalized_to_original (normalize_text (Some candidate) false))
         | None => mapping
         end)
    COLUMN_CANDIDATES mapping.

(* ================================================================== *)
(** * difflib.SequenceMatcher(None, a, b), with autojunk left on *)
(* ================================================================== *)

(** A matching block [(i, j, k)]: [a[i:i+k] == b[j:j+k]]. *)
Definition block : Type := (nat * nat * nat)%type.

Definition block_size (x : block) : nat := snd x.

Section SequenceMatcher.
Context {A : Type} (eqA : A -> A -> bool).
Variables (a b : list A).

(** The indices of [x] in [l], counted from [i], in increasing order. *)
Fixpoint positions_from (x : A) (l : list A) (i : nat) : list nat :=
  match l with
  | [] => []
  | y :: l' =>
      if eqA y x then i :: positions_from x l' (S i)
      else positions_from x l' (S i)
  end.

(** [__chain_b]: an element of [b] is popular when [b] has 200 elements or
    more and the element fills more than 1% of it, plus one. *)
Definition popular (x : A) : bool :=
  ((200 <=? List.length b)
   && (List.length b / 100 + 1 <? List.length (positions_from x b 0)))%nat%bool.

(** [b2j.get(x, nothing)]: there is no junk ([isjunk] is None), and the
    popular elements have been deleted from [b2j]. *)
Definition b2j_get (x : A) : list nat :=
  if popular x then [] else positions_from x b 0.

(** [a[i] == b[j]] *)
Definition eq_at (i j : nat) : bool :=
  match nth_error a i, nth_error b j with
  | Some x, Some y => eqA x y
  | _, _ => false
  end.

(** The inner loop of [find_longest_match], over the indices [js] of [a[i]]
    in [b]. *)
Fixpoint scan_row (blo bhi i : nat) (j2len : dict nat nat) (js : list nat)
         (newj2len : dict nat nat) (best : block) : dict nat nat * block :=
  match js with
  | [] => (newj2len, best)
  | j :: js' =>
      if (j <? blo)%nat then scan_row blo bhi i j2len js' newj2len best
      else if (bhi <=? j)%nat then (newj2len, best)
      else
        let k := S (match j with
                    | O => 0
                    | S j' => dict_get_or Nat.eqb j2len j' 0
                    end) in
        let newj2len := dict_set Nat.eqb newj2len j k in
        let best :=
          if (block_size best <? k)%nat then (i + 1 - k, j + 1 - k, k) else best in
        scan_row blo bhi i j2len js' newj2len best
  end.

(** The outer loop, [for i in range(alo, ahi)]. *)
Definition scan_rows (alo ahi blo bhi : nat) : dict nat nat * block :=
  fold_left
    (fun (st : dict nat nat * block) i =>
       scan_row blo bhi i (fst st)
                (match nth_error a i with
                 | Some x => b2j_get x
                 | None => []
                 end)
                [] (snd st))
    (seq alo (ahi - alo)) ([], (alo, blo, 0)).

(** [while besti > alo and bestj > blo and a[besti-1] == b[bestj-1]] *)
Fixpoint extend_left (alo blo besti bestj bestsize : nat) {struct besti} : block :=
  match besti, bestj with
  | S i', S j' =>
      if ((alo <? besti)%nat && (blo <? bestj)%nat && eq_at i' j')%bool
      then extend_left alo blo i' j' (S bestsize)
      else (besti, bestj, bestsize)
  | _, _ => (besti, bestj, bestsize)
  end.

(** [while besti+bestsize < ahi and bestj+bestsize < bhi and
    a[besti+bestsize] == b[bestj+bestsize]]; [room] is [ahi - (besti +
    bestsize)], the number of rounds after which the first test fails. *)
Fixpoint extend_right (ahi bhi besti bestj : nat) (room : nat) (bestsize : nat) : nat :=
  match room with
  | O => bestsize
  | S room' =>
      if ((besti + bestsize <? ahi)%nat && (bestj + bestsize <? bhi)%nat
          && eq_at (besti + bestsize) (bestj + bestsize))%bool
      then extend_right ahi bhi besti bestj room' (S bestsize)
      else bestsize
  end.

(** The two loops that extend the block over junk do nothing: no element
    is junk. *)
Definition find_longest_match (alo ahi blo bhi : nat) : block :=
  let '(besti, bestj, bestsize) := snd (scan_rows alo ahi blo bhi) in
  let '(besti, bestj, bestsize) := extend_left alo blo besti bestj bestsize in
  (besti, bestj,
   extend_right ahi bhi besti bestj (ahi - (besti + bestsize)) bestsize).

(** The loop of [get_matching_blocks].  [queue] is used as a stack: its
    last element is the head of the list here. *)
Fixpoint matching_loop (fuel : nat) (queue : list (nat * nat * nat * nat))
         (matching_blocks : list block) : result (list block) :=
  match queue with
  | [] => Ok matching_blocks
  | (alo, ahi, blo, bhi) :: queue =>
      match fuel with
      | O => Raise FuelExhausted
      | S fuel' =>
          let '(i, j, k) := find_longest_match alo ahi blo bhi in
          if (k =? 0)%nat then matching_loop fuel' queue matching_blocks
          else
            let queue :=
              if ((alo <? i) && (blo <? j))%nat%bool
              then (alo, i, blo, j) :: queue else queue in
            let queue :=
              if ((i + k <? ahi) && (j + k <? bhi))%nat%bool
              then (i + k, ahi, j + k, bhi) :: queue else queue in
            matching_loop fuel' queue (matching_blocks ++ [(i, j, k)])
      end
  end.

(** Order on triples, as [list.sort] compares tuples. *)
Definition block_leb (x y : block) : bool :=
  let '(i1, j1, k1) := x in
  let '(i2, j2, k2) := y in
  ((i1 <? i2) || ((i1 =? i2) && ((j1 <? j2) || ((j1 =? j2) && (k1 <=? k2)))))%nat%bool.

Fixpoint insert_block (x : block) (l : list block) : list block :=
  match l with
  | [] => [x]
  | y :: l' => if block_leb x y then x :: l else y :: insert_block x l'
  end.

Fixpoint sort_blocks (l : list block) : list block :=
  match l with
  | [] => []
  | x :: l' => insert_block x (sort_blocks l')
  end.

(** One round of the loop that merges adjacent blocks. *)
Definition collapse_step (st : block * list block) (x : block) : block * list block :=
  let '((i1, j1, k1), non_adjacent) := st in
  let '(i2, j2, k2) := x in
  if ((i1 + k1 =? i2) && (j1 + k1 =? j2))%nat%bool
  then ((i1, j1, k1 + k2), non_adjacent)
  else ((i2, j2, k2),
        if (k1 =? 0)%nat then non_adjacent else non_adjacent ++ [(i1, j1, k1)]).

Definition get_matching_blocks : result (list block) :=
  let la := List.length a in
  let lb := List.length b in
  (matching_blocks <- matching_loop (2 * la + 1) [(0, la, 0, lb)] [] ;;
   let '((i1, j1, k1), non_adjacent) :=
     fold_left collapse_step (sort_blocks matching_blocks) ((0, 0, 0), []) in
   let non_adjacent :=
     if (k1 =? 0)%nat then non_adjacent else non_adjacent ++ [(i1, j1, k1)] in
   Ok (non_adjacent ++ [(la, lb, 0)]))%py.

Context {F : Type} `{Num F}.

Definition _calculate_ratio (matches length : nat) : F :=
  if negb (length =? 0)%nat
  then fdiv (fmul (of_int 2) (of_int (Z.of_nat matches))) (of_int (Z.of_nat length))
  else of_int 1.

Definition ratio : result F :=
  (blocks <- get_matching_blocks ;;
   let matches := list_sum (map block_size blocks) in
   Ok (_calculate_ratio matches (List.length a + List.length b)))%py.
End SequenceMatcher.

(** [SequenceMatcher(None, q, t).ratio()] on two strings. *)
Definition SequenceMatcher_ratio {F : Type} `{Num F} (q t : string) : result F :=
  ratio Ascii.eqb (list_ascii_of_string q) (list_ascii_of_string t).

(* ================================================================== *)
(** * search.py *)
(* ================================================================== *)

(** A product is a dict with ten fixed keys; the field [p_x] is the value
    under the key ["x"]. *)
Record Product (F : Type) : Type := {
  p_id : nat;
  p_title : string;
  p_description : string;
  p_category : string;
  p_brand : string;
  p_price : option F;
  p_rating : option F;
  p_image_url : string;
  p_url : string;
  p_searchable_text : string
}.

Arguments p_id {F} _.
Arguments p_title {F} _.
Arguments p_description {F} _.
Arguments p_category {F} _.
Arguments p_brand {F} _.
Arguments p_price {F} _.
Arguments p_rating {F} _.
Arguments p_image_url {F} _.
Arguments p_url {F} _.
Arguments p_searchable_text {F} _.

Record SearchResult (F : Type) : Type := {
  product : Product F;
  score : F;
  tfidf_score : F;
  fuzzy_score : F;
  category_bonus : F;
  matched_tokens : list string
}.

Arguments product {F} _.
Arguments score {F} _.
Arguments tfidf_score {F} _.
Arguments fuzzy_score {F} _.
Arguments category_bonus {F} _.
Arguments matched_tokens {F} _.

(** The fields of a [ProductSearchEngine] object. *)
Record ProductSearchEngine (F : Type) : Type := {
  csv_path : string;
  column_override : dict string string;
  products : list (Product F);
  doc_vectors : list (dict string F);
  doc_norms : list F;
  idf : dict string F;
  categories : list string;
  last_index_build_ms : F
}.

Arguments csv_path {F} _.
Arguments column_override {F} _.
Arguments products {F} _.
Arguments doc_vectors {F} _.
Arguments doc_norms {F} _.
Arguments idf {F} _.
Arguments categories {F} _.
Arguments last_index_build_ms {F} _.

(** What [csv.DictReader] gives: the header ([None] for an empty file) and
    the rows, each a dict from column name to cell; a cell is [None] where
    the line is shorter than the header. *)
Definition csv_row : Type := dict string (option string).

Record DictReader : Type := {
  fieldnames : option (list string);
  reader_rows : list csv_row
}.

(** One entry of [diagnostics["top_scores"]]. *)
Record TopScore (F : Type) : Type := {
  ts_title : string;
  ts_final : F;
  ts_tfidf : F;
  ts_fuzzy : F;
  ts_bonus : F
}.

(** The diagnostics dict; [top_scores] is present under [debug] only. *)
Record Diagnostics (F : Type) : Type := {
  query_tokens : list string;
  index_build_ms : F;
  query_time_ms : F;
  total_products : nat;
  top_scores : option (list (TopScore F))
}.

Arguments query_tokens {F} _.
Arguments index_build_ms {F} _.
Arguments query_time_ms {F} _.
Arguments total_products {F} _.
Arguments top_scores {F} _.

Definition e_grave : string := String "232"%char "".
Definition e_acute : string := String "233"%char "".
Definition e_circ : string := String "234"%char "".

Definition msg_no_headers : string :=
  ("Le fichier CSV ne contient pas d'en-t" ++ e_circ ++ "tes de colonnes.")%string.
Definition msg_no_title : string :=
  ("Impossible de d" ++ e_acute ++ "tecter une colonne titre. "
   ++ "Configurez COLUMN_MAP_JSON, ex: {'title': 'product_name'}.")%string.
Definition msg_no_product : string :=
  ("Aucun produit valide trouv" ++ e_acute ++ " dans le CSV.")%string.

(** ** Methods that assign to [self]: state and exceptions *)

Section Methods.
Context {F : Type} `{PyMath F}.

Definition method (A : Type) : Type :=
  ProductSearchEngine F -> result A * ProductSearchEngine F.

Definition ret {A : Type} (x : A) : method A := fun self => (Ok x, self).

Definition raise {A : Type} (e : exn) : method A := fun self => (Raise e, self).

Definition lift {A : Type} (r : result A) : method A := fun self => (r, self).

Definition mbind {A B : Type} (m : method A) (k : A -> method B) : method B :=
  fun self =>
    match m self with
    | (Ok x, self') => k x self'
    | (Raise e, self') => (Raise e, self')
    end.

Definition read {A : Type} (field : ProductSearchEngine F -> A) : method A :=
  fun self => (Ok (field self), self).

Definition set_products (v : list (Product F)) : method unit :=
  fun self =>
    (Ok tt, {| csv_path := csv_path self; column_override := column_override self;
               products := v; doc_vectors := doc_vectors self;
               doc_norms := doc_norms self; idf := idf self;
               categories := categories self;
               last_index_build_ms := last_index_build_ms self |}).

Definition set_doc_vectors (v : list (dict string F)) : method unit :=
  fun self =>
    (Ok tt, {| csv_path := csv_path self; column_override := column_override self;
               products := products self; doc_vectors := v;
               doc_norms := doc_norms self; idf := idf self;
               categories := categories self;
               last_index_build_ms := last_index_build_ms self |}).

Definition set_doc_norms (v : list F) : method unit :=
  fun self =>
    (Ok tt, {| csv_path := csv_path self; column_override := column_override self;
               products := products self; doc_vectors := doc_vectors self;
               doc_norms := v; idf := idf self;
               categories := categories self;
               last_index_build_ms := last_index_build_ms self |}).

Definition set_idf (v : dict string F) : method unit :=
  fun self =>
    (Ok tt, {| csv_path := csv_path self; column_override := column_override self;
               products := products self; doc_vectors := doc_vectors self;
               doc_norms := doc_norms self; idf := v;
               categories := categories self;
               last_index_build_ms := last_index_build_ms self |}).

Definition set_categories (v : list string) : method unit :=
  fun self =>
    (Ok tt, {| csv_path := csv_path self; column_override := column_override self;
               products := products self; doc_vectors := doc_vectors self;
               doc_norms := doc_norms self; idf := idf self;
               categories := v;
               last_index_build_ms := last_index_build_ms self |}).

Definition set_last_index_build_ms (v : F) : method unit :=
  fun self =>
    (Ok tt, {| csv_path := csv_path self; column_override := column_override self;
               products := products self; doc_vectors := doc_vectors self;
               doc_norms := doc_norms self; idf := idf self;
               categories := categories self;
               last_index_build_ms := v |}).
End Methods.

Declare Scope method_scope.
Delimit Scope method_scope with method.
Notation "x <- m ;; k" := (mbind m (fun x => k))
  (at level 61, m at next level, right associativity) : method_scope.
Notation "m ;; k" := (mbind m (fun _ => k))
  (at level 61, right associativity) : method_scope.

(** [for x in xs: body x] in a method *)
Fixpoint for_each {F A : Type} (xs : list A) (body : A -> @method F unit) : @method F unit :=
  match xs with
  | [] => ret tt
  | x :: xs' => (body x ;; for_each xs' body)%method
  end.

(** [{k: f(k, v) for k, v in d.items()}] where [f] can raise; [acc] is the
    dict built so far. *)
Fixpoint dict_comprehension {V W : Type} (f : string -> V -> result W)
         (d : dict string V) (acc : dict string W) : result (dict string W) :=
  match d with
  | [] => Ok acc
  | (k, v) :: d' => (w <- f k v ;; dict_comprehension f d' (sset acc k w))%py
  end.

(** [seq[i]] *)
Definition subscript {A : Type} (l : list A) (i : nat) : result A :=
  match nth_error l i with
  | Some x => Ok x
  | None => Raise IndexError
  end.

(** [d[k]] *)
Definition dict_subscript {V : Type} (d : dict string V) (k : string) : result V :=
  match sget d k with
  | Some v => Ok v
  | None => Raise (KeyError k)
  end.

(** [l[:n]] for an int [n], negative ones counted from the end *)
Definition slice_to {A : Type} (l : list A) (n : Z) : list A :=
  if (0 <=? n)%Z then firstn (Z.to_nat n) l
  else firstn (List.length l - Z.to_nat (- n)) l.

Section Engine.
Context {F : Type} `{PyMath F}.

(** *** load_data: the body of the loop over the rows *)

(** [(row.get(columns[key], "") if columns[key] else "").strip()] *)
Definition text_cell (columns : dict string (option string)) (row : csv_row)
           (key : string) : result string :=
  (column <- dict_subscript columns key ;;
   match column with
   | Some c =>
       if truthy c then
         match sget row c with
         | Some (Some cell) => Ok (strip cell)
         | Some None => Raise AttributeError     (* None.strip() *)
         | None => Ok (strip "")
         end
       else Ok (strip "")
   | None => Ok (strip "")
   end)%py.

(** [parse_numeric(row.get(columns[key]) if columns[key] else None)] *)
Definition numeric_cell (columns : dict string (option string)) (row : csv_row)
           (key : string) : result (option F) :=
  (column <- dict_subscript columns key ;;
   match column with
   | Some c =>
       if truthy c then
         match sget row c with
         | Some cell => Ok (parse_numeric cell)
         | None => Ok (parse_numeric None)
         end
       else Ok (parse_numeric None)
   | None => Ok (parse_numeric None)
   end)%py.

(** The local variables of the loop: [products], [category_set] and
    [tokenized_docs]. *)
Definition load_acc : Type :=
  (list (Product F) * list string * list (list string))%type.

(** [for idx, row in enumerate(reader)], from the row of index [idx] on. *)
Fixpoint read_rows (columns : dict string (option string)) (idx : nat)
         (rows : list csv_row) (acc : load_acc) : result load_acc :=
  match rows with
  | [] => Ok acc
  | row :: rows' =>
      let '(products, category_set, tokenized_docs) := acc in
      (title <- text_cell columns row "title" ;;
       if negb (truthy title) then read_rows columns (S idx) rows' acc
       else
         description <- text_cell columns row "description" ;;
         category <- text_cell columns row "category" ;;
         brand <- text_cell columns row "brand" ;;
         image_url <- text_cell columns row "image_url" ;;
         url <- text_cell columns row "url" ;;
         price <- numeric_cell columns row "price" ;;
         rating <- numeric_cell columns row "rating" ;;
         let text_parts := [title; description; category; brand] in
         let merged_tokens := tokenize (Some (str_join " " (filter truthy text_parts))) in
         let searchable_text := str_join " " merged_tokens in
         let product :=
           {| p_id := idx; p_title := title; p_description := description;
              p_category := category; p_brand := brand; p_price := price;
              p_rating := rating; p_image_url := image_url; p_url := url;
              p_searchable_text := searchable_text |} in
         let products := products ++ [product] in
         let tokenized_docs := tokenized_docs ++ [merged_tokens] in
         let category_set :=
           if (truthy category && negb (str_in category category_set))%bool
           then category_set ++ [category] else category_set in
         read_rows columns (S idx) rows' (products, category_set, tokenized_docs))%py
  end.

(** *** _build_tfidf *)

Definition doc_freq_of (tokenized_docs : list (list string)) : dict string nat :=
  fold_left
    (fun doc_freq tokens =>
       fold_left
         (fun doc_freq token => sset doc_freq token (sget_or doc_freq token 0 + 1))
         (py_set tokens) doc_freq)
    tokenized_docs [].

Definition idf_value (doc_count freq : nat) : result F :=
  (l <- math_log (div_int (1 + Z.of_nat doc_count) (1 + Z.of_nat freq)) ;;
   Ok (fadd l (of_int 1)))%py.

Definition tf_vector (idf : dict string F) (tokens : list string) : dict string F :=
  let counts := Counter tokens in
  let total := len_or_1 tokens in
  fold_left
    (fun vector (item : string * nat) =>
       let (token, count) := item in
       let tf := div_int (Z.of_nat count) (Z.of_nat total) in
       sset vector token (fmul tf (sget_or idf token zero)))
    counts [].

Definition norm_of (vector : dict string F) : result F :=
  math_sqrt (py_sum (map (fun value => fmul value value) (dict_values vector))).

Definition _build_tfidf (tokenized_docs : list (list string)) : method unit :=
  let doc_count := List.length tokenized_docs in
  let doc_freq := doc_freq_of tokenized_docs in
  (new_idf <- lift (dict_comprehension (fun _ freq => idf_value doc_count freq) doc_freq []) ;;
   set_idf new_idf ;;
   set_doc_vectors [] ;;
   set_doc_norms [] ;;
   for_each tokenized_docs
     (fun tokens =>
        self_idf <- read idf ;;
        let vector := tf_vector self_idf tokens in
        norm <- lift (norm_of vector) ;;
        vectors <- read doc_vectors ;;
        set_doc_vectors (vectors ++ [vector]) ;;
        norms <- read doc_norms ;;
        set_doc_norms (norms ++ [norm])))%method.

(** *** load_data

    [file] is what opening [self.csv_path] gives ([None]: the file cannot
    be opened), [clock] the two readings of [time.perf_counter()].  The
    reader holds the header and the rows as [csv.DictReader] yields them:
    the other errors of [open] (a directory, a permission), of the UTF-8
    decoder and of the [csv] module, which end the call before or while the
    rows are read, are not modelled; like the errors below they are raised
    before the first assignment to [self]. *)
Definition load_data (file : option DictReader) (clock : F * F) : method unit :=
  let start := fst clock in
  match file with
  | None => raise FileNotFoundError
  | Some reader =>
      match fieldnames reader with
      | None | Some [] => raise (ValueError msg_no_headers)
      | Some names =>
          (override <- read column_override ;;
           let columns := detect_columns names override in
           if negb (truthy_opt (sget_or columns "title" None))
           then raise (ValueError msg_no_title)
           else
             acc <- lift (read_rows columns 0 (reader_rows reader) ([], [], [])) ;;
             let '(products, category_set, tokenized_docs) := acc in
             match products with
             | [] => raise (ValueError msg_no_product)
             | _ =>
                 set_products products ;;
                 _build_tfidf tokenized_docs ;;
                 set_categories (sorted category_set) ;;
                 set_last_index_build_ms
                   (fmul (fsub (snd clock) start) (of_int 1000))
             end)%method
      end
  end.

(** *** _query_vector *)
Definition _query_vector (self : ProductSearchEngine F) (query_tokens : list string)
  : result (dict string F * F) :=
  let counts := Counter query_tokens in
  let total := len_or_1 query_tokens in
  let vector :=
    fold_left
      (fun vector (item : string * nat) =>
         let (token, count) := item in
         if smem (idf self) token
         then sset vector token
                   (fmul (div_int (Z.of_nat count) (Z.of_nat total))
                         (sget_or (idf self) token zero))
         else vector)
      counts [] in
  (norm <- norm_of vector ;; Ok (vector, norm))%py.

(** *** search: the filters *)

(** [bound is not None and (value is None or value < bound)] *)
Definition below (bound value : option F) : bool :=
  match bound, value with
  | None, _ => false
  | Some _, None => true
  | Some m, Some v => fltb v m
  end.

(** [bound is not None and (value is None or value > bound)] *)
Definition above (bound value : option F) : bool :=
  match bound, value with
  | None, _ => false
  | Some _, None => true
  | Some m, Some v => fltb m v
  end.

(** [category and product.get("category") != category] *)
Definition other_category (category : option string) (product : Product F) : bool :=
  match category with
  | Some c => (truthy c && negb (String.eqb (p_category product) c))%bool
  | None => false
  end.

(** A product that reaches none of the four [continue]s. *)
Definition passes_filters (min_price max_price : option F) (category : option string)
           (min_rating : option F) (product : Product F) : bool :=
  (negb (below min_price (p_price product))
   && negb (above max_price (p_price product))
   && negb (other_category category product)
   && negb (below min_rating (p_rating product)))%bool.
End Engine.

Section Scoring.
Context {F : Type} `{Num F}.

(** *** _cosine_similarity *)
Definition _cosine_similarity (qvec : dict string F) (qnorm : F)
           (dvec : dict string F) (dnorm : F) : result F :=
  if (feqb qnorm zero || feqb dnorm zero)%bool then Ok zero
  else
    let dot :=
      py_sum (map (fun item : string * F =>
                     let (token, weight) := item in
                     fmul weight (sget_or dvec token zero))
                  qvec) in
    py_div dot (fmul qnorm dnorm).

(** *** _fuzzy_score *)
Definition _fuzzy_score (query_tokens : list string) (title : string) : result F :=
  let title_tokens := tokenize (Some title) in
  match title_tokens with
  | [] => Ok zero
  | _ =>
      let q := str_join " " (sorted (py_set query_tokens)) in
      let t := str_join " " (sorted (py_set title_tokens)) in
      SequenceMatcher_ratio q t
  end.

(** [token_set.intersection(set(tokens))] is not empty *)
Definition intersects (token_set tokens : list string) : bool :=
  existsb (fun token => str_in token tokens) token_set.

(** [results.sort(key=lambda item: item.score, reverse=True)]: the sort is
    stable, so results of equal score keep their order. *)
Fixpoint insert_by_score (x : SearchResult F) (l : list (SearchResult F))
  : list (SearchResult F) :=
  match l with
  | [] => [x]
  | y :: l' => if fltb (score x) (score y) then y :: insert_by_score x l' else x :: l
  end.

Fixpoint sort_by_score (l : list (SearchResult F)) : list (SearchResult F) :=
  match l with
  | [] => []
  | x :: l' => insert_by_score x (sort_by_score l')
  end.
End Scoring.

Section Search.
Context {F : Type} `{PyMath F}.

(** *** search: the body of the loop over the products *)

(** The bonus of a product: 0.12 when a query token is a token of its
    category, plus 0.08 when one is a token of its brand. *)
Definition bonus_of (query_tokens : list string) (product : Product F) : F :=
  let token_set := py_set query_tokens in
  let category_bonus := zero in
  let category_bonus :=
    if (truthy (p_category product)
        && intersects token_set (py_set (tokenize (Some (p_category product)))))%bool
    then fadd category_bonus (div_int 12 100) else category_bonus in
  if (truthy (p_brand product)
      && intersects token_set (py_set (tokenize (Some (p_brand product)))))%bool
  then fadd category_bonus (div_int 8 100) else category_bonus.

(** One round of [for idx, product in enumerate(self.products)] past the
    filters; [None] is the [continue] on a score that is not positive. *)
Definition score_product (self : ProductSearchEngine F) (query_tokens : list string)
           (qvec : dict string F) (qnorm : F) (idx : nat) (product : Product F)
  : result (option (SearchResult F)) :=
  (dvec <- subscript (doc_vectors self) idx ;;
   dnorm <- subscript (doc_norms self) idx ;;
   tfidf_score <- _cosine_similarity qvec qnorm dvec dnorm ;;
   fuzzy_score <- _fuzzy_score query_tokens (p_title product) ;;
   let token_set := py_set query_tokens in
   let matched_tokens :=
     sorted (filter (fun token => str_in token (str_split (p_searchable_text product)))
                    token_set) in
   let category_bonus := bonus_of query_tokens product in
   let final_score :=
     fadd (fadd (fmul (div_int 72 100) tfidf_score) (fmul (div_int 22 100) fuzzy_score))
          category_bonus in
   if fleb final_score zero then Ok None
   else Ok (Some {| product := product; score := final_score;
                    tfidf_score := tfidf_score; fuzzy_score := fuzzy_score;
                    category_bonus := category_bonus;
                    matched_tokens := matched_tokens |}))%py.

(** The loop, from the product of index [idx] on; [results] is the list
    built so far. *)
Fixpoint search_loop (self : ProductSearchEngine F) (query_tokens : list string)
         (qvec : dict string F) (qnorm : F)
         (min_price max_price : option F) (category : option string)
         (min_rating : option F)
         (idx : nat) (rest : list (Product F)) (results : list (SearchResult F))
  : result (list (SearchResult F)) :=
  match rest with
  | [] => Ok results
  | product :: rest' =>
      if negb (passes_filters min_price max_price category min_rating product)
      then search_loop self query_tokens qvec qnorm min_price max_price category
                       min_rating (S idx) rest' results
      else
        (r <- score_product self query_tokens qvec qnorm idx product ;;
         search_loop self query_tokens qvec qnorm min_price max_price category
                     min_rating (S idx) rest'
                     (match r with
                      | Some r => results ++ [r]
                      | None => results
                      end))%py
  end.

Definition top_score_of (r : SearchResult F) : TopScore F :=
  {| ts_title := p_title (product r);
     ts_final := fround (score r) 4;
     ts_tfidf := fround (tfidf_score r) 4;
     ts_fuzzy := fround (fuzzy_score r) 4;
     ts_bonus := fround (category_bonus r) 4 |}.

(** *** search

    [clock] holds the two readings of [time.perf_counter()], taken only
    when the query has tokens. *)
Definition search (self : ProductSearchEngine F) (query : string)
           (min_price max_price : option F) (category : option string)
           (min_rating : option F) (debug : bool) (limit : Z) (clock : F * F)
  : result (list (SearchResult F) * Diagnostics F) :=
  let query_tokens := tokenize (Some query) in
  let diagnostics :=
    {| query_tokens := query_tokens;
       index_build_ms := fround (last_index_build_ms self) 2;
       query_time_ms := zero;
       total_products := List.length (products self);
       top_scores := None |} in
  match query_tokens with
  | [] => Ok ([], diagnostics)
  | _ =>
      let start := fst clock in
      (qv <- _query_vector self query_tokens ;;
       let (qvec, qnorm) := qv : dict string F * F in
       results <- search_loop self query_tokens qvec qnorm min_price max_price
                              category min_rating 0 (products self) [] ;;
       let results := sort_by_score results in
       let trimmed := slice_to results limit in
       let query_time := fround (fmul (fsub (snd clock) start) (of_int 1000)) 2 in
       Ok (trimmed,
           {| query_tokens := query_tokens;
              index_build_ms := index_build_ms diagnostics;
              query_time_ms := query_time;
              total_products := total_products diagnostics;
              top_scores :=
                if debug then Some (map top_score_of (firstn 5 trimmed)) else None |}))%py
  end.
End Search.

(** [ProductSearchEngine.__init__]: the fields before the first load. *)
Definition new_engine {F : Type} `{Num F} (csv_path : string)
           (column_override : dict string string) : ProductSearchEngine F :=
  {| csv_path := csv_path; column_override := column_override;
     products := []; doc_vectors := []; doc_norms := []; idf := [];
     categories := []; last_index_build_ms := zero |}.

(* ================================================================== *)
(** * Definitions the properties are stated with *)
(* ================================================================== *)

(** ** The index, over the reals *)

(** The sum of a list of reals, and [sum] on it. *)
Definition Rsum (xs : list R) : R := fold_right Rplus 0%R xs.

Definition idf_of (doc_count freq : nat) : R :=
  (ln (IZR (1 + Z.of_nat doc_count) / IZR (1 + Z.of_nat freq)) + 1)%R.

Definition idf_table (tokenized_docs : list (list string)) : dict string R :=
  fold_left
    (fun acc (kv : string * nat) =>
       sset acc (fst kv) (idf_of (List.length tokenized_docs) (snd kv)))
    (doc_freq_of tokenized_docs) [].

Definition R_norm (vector : dict string R) : R :=
  sqrt (Rsum (map (fun x => x * x)%R (dict_values vector))).

(** [self] with the three fields of the index replaced. *)
Definition with_index (self : ProductSearchEngine R) (i : dict string R)
           (dv : list (dict string R)) (dn : list R) : ProductSearchEngine R :=
  {| csv_path := csv_path self; column_override := column_override self;
     products := products self; doc_vectors := dv; doc_norms := dn; idf := i;
     categories := categories self;
     last_index_build_ms := last_index_build_ms self |}.

Definition built_index (self : ProductSearchEngine R) (docs : list (list string))
  : ProductSearchEngine R :=
  with_index self (idf_table docs)
    (map (tf_vector (idf_table docs)) docs)
    (map (fun d => R_norm (tf_vector (idf_table docs) d)) docs).

(** The state a successful load leaves. *)
Definition loaded_state (self : ProductSearchEngine R) (new_products : list (Product R))
           (category_set : list string) (docs : list (list string)) (clock : R * R)
  : ProductSearchEngine R :=
  {| csv_path := csv_path self; column_override := column_override self;
     products := new_products;
     doc_vectors := map (tf_vector (idf_table docs)) docs;
     doc_norms := map (fun d => R_norm (tf_vector (idf_table docs) d)) docs;
     idf := idf_table docs;
     categories := sorted category_set;
     last_index_build_ms := ((snd clock - fst clock) * 1000)%R |}.

(** ** load_data *)

(** The columns [load_data] works with. *)
Definition columns_of {F : Type} (reader : DictReader) (self : ProductSearchEngine F)
  : dict string (option string) :=
  detect_columns (match fieldnames reader with Some names => names | None => [] end)
                 (column_override self).

Definition has_headers (reader : DictReader) : bool :=
  match fieldnames reader with
  | None | Some [] => false
  | Some _ => true
  end.

Definition has_title_column {F : Type} (reader : DictReader) (self : ProductSearchEngine F)
  : bool :=
  truthy_opt (sget_or (columns_of reader self) "title" None).

(** The indices, counted from [idx], of the rows whose trimmed title is not
    empty: the rows that are kept. *)
Fixpoint kept_indices (columns : dict string (option string)) (idx : nat)
         (rows : list csv_row) : list nat :=
  match rows with
  | [] => []
  | row :: rows' =>
      match text_cell columns row "title" with
      | Ok title =>
          if truthy title then idx :: kept_indices columns (S idx) rows'
          else kept_indices columns (S idx) rows'
      | Raise _ => kept_indices columns (S idx) rows'
      end
  end.

(** A catalogue whose first row has an empty title. *)
Definition sparse_reader : DictReader :=
  {| fieldnames := Some ["title"];
     reader_rows := [ [("title", Some "")]; [("title", Some "Mug")] ] |}.

Definition mug : Product R :=
  {| p_id := 1; p_title := "Mug"; p_description := ""; p_category := "";
     p_brand := ""; p_price := None; p_rating := None; p_image_url := "";
     p_url := ""; p_searchable_text := "mug" |}.


(** A loaded engine, then three sources that fail, one for each cause. *)
Definition loaded_mug : ProductSearchEngine R :=
  loaded_state (new_engine "products.csv" []) [mug] [] [["mug"]] (0%R, 0%R).


(** ** SequenceMatcher: the scan of [find_longest_match] and the worklist *)

Section MatcherSpec.
Context {A : Type} (eqA : A -> A -> bool).
Variables (a b : list A).

(** The indices the inner loop visits in the row [i]. *)
Definition row_indices (i : nat) : list nat :=
  match nth_error a i with
  | Some x => b2j_get eqA b x
  | None => []
  end.

Definition in_window (blo bhi j : nat) : bool := ((blo <=? j) && (j <? bhi))%nat%bool.

Definition visited (blo bhi i : nat) : list nat :=
  filter (in_window blo bhi) (row_indices i).

(** The cell [(i, j)] is one the scan of the window visits: [a[i] == b[j]],
    the element is not popular, and [i] and [j] are in the window. *)
Definition cell (alo blo bhi i j : nat) : bool :=
  ((alo <=? i)%nat && existsb (Nat.eqb j) (visited blo bhi i))%bool.

(** The value [newj2len[j]] of the row [i]: the length of the run of cells
    that ends in [(i, j)]. *)
Fixpoint clen (alo blo bhi i j : nat) {struct i} : nat :=
  if cell alo blo bhi i j
  then S (match i, j with
          | S i', S j' => clen alo blo bhi i' j'
          | _, _ => 0
          end)
  else 0.

(** How the scan updates the best block on a cell with run length [k]. *)
Definition upd (i : nat) (best : block) (j k : nat) : block :=
  if (block_size best <? k)%nat then (i + 1 - k, j + 1 - k, k) else best.

(** The best block after the rows [rows], without the dictionaries. *)
Definition scan_best (alo blo bhi : nat) (rows : list nat) (best : block) : block :=
  fold_left
    (fun best i =>
       fold_left (fun best j => upd i best j (clen alo blo bhi i j))
                 (visited blo bhi i) best)
    rows best.

Definition block_in (alo ahi blo bhi : nat) (x : block) : Prop :=
  alo <= fst (fst x) /\ fst (fst x) + block_size x <= ahi
  /\ blo <= snd (fst x) /\ snd (fst x) + block_size x <= bhi.

Definition blocks_size (blocks : list block) : nat := list_sum (map block_size blocks).

Definition window_ok (w : nat * nat * nat * nat) : Prop :=
  let '(alo, ahi, blo, bhi) := w in alo <= ahi /\ blo <= bhi.

Definition width_a (w : nat * nat * nat * nat) : nat :=
  let '(alo, ahi, _, _) := w in ahi - alo.

Definition width_b (w : nat * nat * nat * nat) : nat :=
  let '(_, _, blo, bhi) := w in bhi - blo.

(** The rounds the loop still needs for a queue, at most. *)
Definition rounds (queue : list (nat * nat * nat * nat)) : nat :=
  list_sum (map (fun w => 2 * width_a w + 1) queue).

Definition total_a (queue : list (nat * nat * nat * nat)) : nat :=
  list_sum (map width_a queue).

Definition total_b (queue : list (nat * nat * nat * nat)) : nat :=
  list_sum (map width_b queue).

(** The best block is on the diagonal, and no shorter than the run of any
    cell the scan has visited: the cells of the rows before [i], and
    those of the row [i] before the column [lo]. *)
Definition diag_best (best : block) (i lo : nat) : Prop :=
  fst (fst best) = snd (fst best)
  /\ forall i' j', i' < i \/ (i' = i /\ j' < lo) ->
                   clen 0 0 (List.length b) i' j' <= block_size best.

End MatcherSpec.

(** ** Vectors and their dot product *)

(** A vector whose weights are not negative. *)
Definition nonneg (vector : dict string R) : Prop :=
  Forall (fun item : string * R => (0 <= snd item)%R) vector.

(** [vector] without the key [k]. *)
Definition without (k : string) (vector : dict string R) : dict string R :=
  filter (fun item => negb (String.eqb (fst item) k)) vector.

Definition squares (xs : list R) : list R := map (fun x => (x * x)%R) xs.

(** The dot product of [_cosine_similarity]. *)
Definition dot (qvec dvec : dict string R) : R :=
  Rsum (map (fun item : string * R => (snd item * sget_or dvec (fst item) 0)%R) qvec).

(** The same vector three times 1.0, in binary64. *)
Definition three_ones : dict string PrimFloat.float :=
  [("a", of_int 1); ("b", of_int 1); ("c", of_int 1)].

Definition vec_ab : dict string R := [("a", 1%R); ("b", 2%R)].
Definition vec_b : dict string R := [("b", 3%R)].

(** ** Document frequencies *)

(** The number of documents that contain [t]. *)
Definition df (t : string) (tokenized_docs : list (list string)) : nat :=
  List.length (filter (str_in t) tokenized_docs).

(** One document more in the table of document frequencies. *)
Definition count_doc (doc_freq : dict string nat) (tokens : list string) : dict string nat :=
  fold_left (fun doc_freq token => sset doc_freq token (sget_or doc_freq token 0 + 1))
            tokens doc_freq.

Definition doc_freq_from (doc_freq : dict string nat) (tokenized_docs : list (list string))
  : dict string nat :=
  fold_left (fun doc_freq tokens => count_doc doc_freq (py_set tokens))
            tokenized_docs doc_freq.

(** ** search *)

(** The two lists of the index are as long as the list of products. *)
Definition index_wf {F : Type} (self : ProductSearchEngine F) : Prop :=
  List.length (doc_vectors self) = List.length (products self)
  /\ List.length (doc_norms self) = List.length (products self).

(** The query vector, over the reals. *)
Definition query_vector_of (self : ProductSearchEngine R) (query_tokens : list string)
  : dict string R :=
  fold_left
    (fun vector (item : string * nat) =>
       let (token, count) := item in
       if smem (idf self) token
       then sset vector token
                 (fmul (div_int (Z.of_nat count) (Z.of_nat (len_or_1 query_tokens)))
                       (sget_or (idf self) token zero))
       else vector)
    (Counter query_tokens) [].

Section SearchSpec.
Variables (self : ProductSearchEngine R) (query_tokens : list string)
          (qvec : dict string R) (qnorm : R).

(** A result is the one the loop body gives for the product of index
    [idx]: its four scores are those of the specification, and the final
    score is positive. *)
Definition scored (idx : nat) (r : SearchResult R) : Prop :=
  exists dvec dnorm,
    nth_error (doc_vectors self) idx = Some dvec
    /\ nth_error (doc_norms self) idx = Some dnorm
    /\ _cosine_similarity qvec qnorm dvec dnorm = Ok (tfidf_score r)
    /\ _fuzzy_score query_tokens (p_title (product r)) = Ok (fuzzy_score r)
    /\ category_bonus r = bonus_of query_tokens (product r)
    /\ score r = (72 / 100 * tfidf_score r + 22 / 100 * fuzzy_score r + category_bonus r)%R
    /\ (0 < score r)%R.

Variables (min_price max_price : option R) (category : option string)
          (min_rating : option R).

(** What the loop adds to [results]: the results of the products that pass
    the filters and have a positive score, in the order of the products. *)
Fixpoint hits (idx : nat) (rest : list (Product R)) : list (SearchResult R) :=
  match rest with
  | [] => []
  | p :: rest' =>
      (if passes_filters min_price max_price category min_rating p
       then match score_product self query_tokens qvec qnorm idx p with
            | Ok (Some r) => [r]
            | _ => []
            end
       else [])
      ++ hits (S idx) rest'
  end.

End SearchSpec.




(** ** parse_numeric *)

(** The string [parse_numeric] examines for commas: [raw] without the white
    space around it, its spaces and its percent signs. *)
Definition cleaned_of (raw : string) : string :=
  str_replace "%" "" (str_replace " " "" (strip raw)).

(** The end of [parse_numeric]: what is left of [cleaned] once the
    characters other than digits, point and minus are removed, as a
    float. *)
Definition numeric_tail {F : Type} `{Num F} (cleaned : string) : option F :=
  let cleaned := sub_non_numeric cleaned in
  if (negb (truthy cleaned) || String.eqb cleaned "-" || String.eqb cleaned ".")%bool
  then None
  else py_float cleaned.

(** The policy in the words of the specification: the comma is a decimal
    separator when there is one comma, with at most two digits after it. *)
Definition spec_comma_is_decimal (cleaned : string) : bool :=
  ((str_count "," cleaned =? 1)%nat
   && (String.length (str_filter is_digit (nth 1 (str_split_on "," cleaned) ""))
       <=? 2)%nat)%bool.

(** ** Text in normal form *)

(** A letter a-z or a digit: what [normalize_text] keeps besides spaces. *)
Definition is_alnum (c : ascii) : bool := (is_lower_az c || is_digit c)%bool.

(** Every character of [s] satisfies [p]. *)
Fixpoint str_forall (p : ascii -> bool) (s : string) : bool :=
  match s with
  | EmptyString => true
  | String c s' => (p c && str_forall p s')%bool
  end.

(** Letters a-z, digits and spaces U+0020, no two spaces in a row. *)
Fixpoint tidy (s : string) : bool :=
  match s with
  | EmptyString => true
  | String c s' =>
      ((if Ascii.eqb c " "
        then match s' with
             | String c' _ => negb (Ascii.eqb c' " ")
             | EmptyString => true
             end
        else is_alnum c)
       && tidy s')%bool
  end.

(** The first character is not white space; the last one is not. *)
Definition head_ok (s : string) : bool :=
  match s with
  | EmptyString => true
  | String c _ => negb (is_space c)
  end.

Fixpoint last_ok (s : string) : bool :=
  match s with
  | EmptyString => true
  | String c EmptyString => negb (is_space c)
  | String _ s' => last_ok s'
  end.

(** Words of letters and digits, one space between two of them, none
    around them. *)
Definition clean (s : string) : bool := (tidy s && head_ok s && last_ok s)%bool.

(** A word: letters and digits, at least one. *)
Definition is_word (s : string) : bool :=
  (negb (String.eqb s "") && str_forall is_alnum s)%bool.

(** The two steps of the loop of [tokenize] on a token. *)
Definition synonym_of (token : string) : string := sget_or SYNONYMS token token.

Definition kept_token (mapped : string) : bool :=
  (negb (str_in mapped STOPWORDS_FR_EN) && (1 <? String.length mapped)%nat)%bool.

(** ** Numbers in text *)

(** [float(s)] once the sign is read: the digits around at most one point. *)
Definition float_of_body {F : Type} `{Num F} (negative : bool) (body : string) : option F :=
  let signed (x : F) := if negative then fneg x else x in
  match str_split_on "." body with
  | [ip] =>
      match ip, digits_value ip 0 with
      | String _ _, Some n => Some (signed (of_int n))
      | _, _ => None
      end
  | [ip; fp] =>
      match (ip ++ fp)%string, digits_value (ip ++ fp) 0 with
      | String _ _, Some n => Some (signed (div_int n (10 ^ Z.of_nat (String.length fp))))
      | _, _ => None
      end
  | _ => None
  end.

(** No decimal digit occurs in the value. *)
Definition no_digit (s : string) : bool := str_forall (fun c => negb (is_digit c)) s.

(** A character [parse_numeric] keeps when it removes the noise. *)
Definition is_numeric_char (c : ascii) : bool :=
  (is_digit c || Ascii.eqb c "." || Ascii.eqb c "-")%bool.

(** ** detect_columns *)

(** The headers [detect_columns] chooses from: [h.strip() for h in headers if h]. *)
Definition available_headers (headers : list string) : list string :=
  map strip (filter truthy headers).

(** [columns.get(canonical)] is truthy: the column is resolved. *)
Definition resolved (columns : dict string (option string)) (canonical : string) : bool :=
  truthy_opt (sget_or columns canonical None).

(** The two loops of [detect_columns], a round each. *)
Definition override_step (available : list string) (mapping : dict string (option string))
           (item : string * string) : dict string (option string) :=
  let (canonical, chosen) := item in
  if str_in chosen available then sset mapping canonical (Some chosen) else mapping.

Definition candidates_step (normalized_to_original : dict string string)
           (mapping : dict string (option string)) (item : string * list string)
  : dict string (option string) :=
  let (canonical, candidates) := item in
  if truthy_opt (sget_or mapping canonical None) then mapping
  else
    match find (fun candidate =>
                  smem normalized_to_original (normalize_text (Some candidate) false))
               candidates with
    | Some candidate =>
        sset mapping canonical
             (sget normalized_to_original (normalize_text (Some candidate) false))
    | None => mapping
    end.

(** [{normalize_text(h, keep_spaces=False): h for h in available}] *)
Definition normalized_headers (available : list string) : dict string string :=
  fold_left (fun d h => sset d (normalize_text (Some h) false) h) available [].

(** Every column of the mapping is one of [available]. *)
Definition columns_among (available : list string) (mapping : dict string (option string))
  : Prop :=
  Forall (fun kv : string * option string =>
            match snd kv with
            | Some h => In h available
            | None => True
            end) mapping.

(** ** load_data and the constructor *)

(** [ProductSearchEngine(csv_path, column_override)]: the fields are set,
    then the file is loaded.  The object exists only if the load returns. *)
Definition __init__ {F : Type} `{PyMath F} (path : string)
           (override : option (dict string string))
           (file : option DictReader) (clock : F * F)
  : result unit * ProductSearchEngine F :=
  load_data file clock
    (new_engine path (match override with Some d => d | None => [] end)).

(** The errors a load ends with once the file is open and its rows are
    read: the three ValueErrors of [load_data], and the AttributeError of
    [None.strip()]. *)
Definition load_error (e : exn) : bool :=
  match e with
  | AttributeError => true
  | ValueError msg => str_in msg [msg_no_headers; msg_no_title; msg_no_product]
  | _ => false
  end.

(** The columns whose cells are stripped, and the two that are parsed. *)
Definition text_keys : list string :=
  ["title"; "description"; "category"; "brand"; "image_url"; "url"].

(** The line of [row] is too short for the column detected for [key]: the
    reader has put None there. *)
Definition missing_cell (columns : dict string (option string)) (row : csv_row)
           (key : string) : bool :=
  match sget columns key with
  | Some (Some c) =>
      (truthy c && match sget row c with
                   | Some None => true
                   | _ => false
                   end)%bool
  | _ => false
  end.

(** The row has a title that is not blank: it is not skipped. *)
Definition titled (columns : dict string (option string)) (row : csv_row) : bool :=
  match text_cell columns row "title" with
  | Ok title => truthy title
  | Raise _ => false
  end.

(** The tokens of a product: those of its title, description, category and
    brand, the empty ones left out. *)
Definition doc_tokens {F : Type} (p : Product F) : list string :=
  tokenize (Some (str_join " " (filter truthy [p_title p; p_description p;
                                               p_category p; p_brand p]))).

(** What [load_data] stores in a product. *)
Definition product_ok {F : Type} (p : Product F) : Prop :=
  p_title p <> ""
  /\ Forall (fun field => strip field = field)
            [p_title p; p_description p; p_category p; p_brand p;
             p_image_url p; p_url p]
  /\ p_searchable_text p = str_join " " (doc_tokens p).

(** A catalogue of three products; its second line is blank and its last
    line stops after the title. *)
Definition shop_reader : DictReader :=
  {| fieldnames := Some ["Title"; "Category"; "Brand"; "Price"];
     reader_rows :=
       [ [("Title", Some "Mug Cadeau"); ("Category", Some "Maison");
          ("Brand", Some "GiftCo"); ("Price", Some "n/a")];
         [("Title", Some " "); ("Category", Some "Maison");
          ("Brand", Some ""); ("Price", Some "")];
         [("Title", Some "Chaise de bureau"); ("Category", Some "Mobilier");
          ("Brand", Some ""); ("Price", None)];
         [("Title", Some "Tasse"); ("Category", Some "Maison");
          ("Brand", Some "GiftCo"); ("Price", None)] ] |}.

(** The same catalogue with a last line that stops after the title. *)
Definition short_reader : DictReader :=
  {| fieldnames := Some ["Title"; "Category"];
     reader_rows :=
       [ [("Title", Some "Mug"); ("Category", Some "Maison")];
         [("Title", Some "Tasse"); ("Category", None)] ] |}.

(** What the loop of [load_data] keeps true of its three variables: the
    products are as [load_data] makes them, [tokenized_docs] holds their
    tokens, and [category_set] their categories that are not empty, once
    each. *)
Definition acc_ok {F : Type} (acc : list (Product F) * list string * list (list string))
  : Prop :=
  let '(ps, cs, ds) := acc in
  Forall product_ok ps
  /\ ds = map doc_tokens ps
  /\ NoDup cs
  /\ (forall c, In c cs <-> c <> "" /\ exists p, In p ps /\ p_category p = c).

(** ** Vectors *)

(** How often [t] occurs in [tokens]. *)
Definition occurrences (t : string) (tokens : list string) : nat :=
  count_occ string_dec tokens t.

(** ** search, once more *)

(** The results of the loop of [search] for a query, in the order of the
    products, and sorted by score. *)
Definition all_hits (self : ProductSearchEngine R) (query : string)
           (min_price max_price : option R) (category : option string)
           (min_rating : option R) : list (SearchResult R) :=
  hits self (tokenize (Some query))
       (query_vector_of self (tokenize (Some query)))
       (R_norm (query_vector_of self (tokenize (Some query))))
       min_price max_price category min_rating 0 (products self).

Definition ranked (self : ProductSearchEngine R) (query : string)
           (min_price max_price : option R) (category : option string)
           (min_rating : option R) : list (SearchResult R) :=
  sort_by_score (all_hits self query min_price max_price category min_rating).


(** An index whose IDF values and weights are not negative, and whose
    norms are the norms of its vectors. *)
Definition index_sound (self : ProductSearchEngine R) : Prop :=
  index_wf self
  /\ (forall t, (0 <= sget_or (idf self) t 0)%R)
  /\ Forall nonneg (doc_vectors self)
  /\ doc_norms self = map R_norm (doc_vectors self).

(** The four scores of a result are within their bounds. *)
Definition scores_bounded (r : SearchResult R) : Prop :=
  (0 <= tfidf_score r <= 1)%R
  /\ (0 <= fuzzy_score r <= 1)%R
  /\ (0 <= category_bonus r <= 20 / 100)%R
  /\ (0 < score r <= 114 / 100)%R.

(** The matched tokens of a result are the query tokens that occur in the
    searchable text of its product, once each, in order. *)
Definition matched_ok (query : string) (r : SearchResult R) : Prop :=
  StronglySorted (fun a b => String.leb a b = true) (matched_tokens r)
  /\ NoDup (matched_tokens r)
  /\ forall t, In t (matched_tokens r)
               <-> In t (tokenize (Some query))
                   /\ In t (str_split (p_searchable_text (product r))).

(** The TF-IDF score of a result is 0 unless a token of the query is a
    token of its product. *)
Definition tfidf_needs_token (query : string) (r : SearchResult R) : Prop :=
  tfidf_score r = 0%R
  \/ exists t, In t (tokenize (Some query)) /\ In t (doc_tokens (product r)).

(** ** Two catalogues with prices *)

(** Two pens of the category Papeterie, at 10 and at 20. *)
Definition pens_reader : DictReader :=
  {| fieldnames := Some ["title"; "category"; "price"];
     reader_rows :=
       [ [("title", Some "Stylo bleu"); ("category", Some "Papeterie");
          ("price", Some "10")];
         [("title", Some "Stylo rouge"); ("category", Some "Papeterie");
          ("price", Some "20")] ] |}.

Definition blue_pen : Product R :=
  {| p_id := 0; p_title := "Stylo bleu"; p_description := "";
     p_category := "Papeterie"; p_brand := ""; p_price := Some 10%R;
     p_rating := None; p_image_url := ""; p_url := "";
     p_searchable_text := "stylo bleu papeterie" |}.

Definition red_pen : Product R :=
  {| p_id := 1; p_title := "Stylo rouge"; p_description := "";
     p_category := "Papeterie"; p_brand := ""; p_price := Some 20%R;
     p_rating := None; p_image_url := ""; p_url := "";
     p_searchable_text := "stylo rouge papeterie" |}.

(** The engine that loading [pens_reader] leaves. *)
Definition pens : ProductSearchEngine R :=
  loaded_state (new_engine "pens.csv" []) [blue_pen; red_pen] ["Papeterie"]
    [["stylo"; "bleu"; "papeterie"]; ["stylo"; "rouge"; "papeterie"]] (0%R, 0%R).



(** ** Tactics *)

(** Unfolds the operations of [Num] and [PyMath] at the reals. *)
Ltac rnum :=
  unfold zero in *;
  cbn [of_int div_int fadd fsub fmul fdiv fneg fsqrt feqb fltb fleb flog fround
       RNum RMath] in *.

(* ================================================================== *)
(** * Properties *)
(* ================================================================== *)

(** ** The tests of the repository on [utils.py] *)

Example test_normalize_text_removes_accents_and_punctuation :
  normalize_text
    (Some ("T" ++ e_acute ++ "l" ++ e_acute ++ "phone, "
           ++ String "201"%char "TUDIANT !")%string) true
  = "telephone etudiant".
Proof. vm_compute. reflexivity. Qed.

Example test_tokenize_applies_synonyms_and_stopwords :
  tokenize (Some "basket pour tel et runing") = ["chaussure"; "telephone"; "running"].
Proof. vm_compute. reflexivity. Qed.

Example sorted_is_by_code_point :
  sorted ["b"; "a"; "B"; "10"; "9"; "ab"] = ["10"; "9"; "B"; "a"; "ab"; "b"].
Proof. vm_compute. reflexivity. Qed.

(** ** Real arithmetic *)

Lemma Reqb_true (x y : R) : Reqb x y = true <-> x = y.
Proof. unfold Reqb. destruct (Req_dec_T x y); split; congruence. Qed.

Lemma Reqb_false (x y : R) : Reqb x y = false <-> x <> y.
Proof. unfold Reqb. destruct (Req_dec_T x y); split; congruence. Qed.


Lemma Rltb_false (x y : R) : Rltb x y = false <-> (y <= x)%R.
Proof.
  unfold Rltb. destruct (Rlt_dec x y); split; intros; try congruence; lra.
Qed.

Lemma Rleb_true (x y : R) : Rleb x y = true <-> (x <= y)%R.
Proof. unfold Rleb. destruct (Rle_dec x y); split; intros; try congruence; tauto. Qed.

Lemma Rleb_false (x y : R) : Rleb x y = false <-> (y < x)%R.
Proof.
  unfold Rleb. destruct (Rle_dec x y); split; intros; try congruence; lra.
Qed.

Lemma fold_left_Rplus (xs : list R) (a : R) :
  fold_left Rplus xs a = (a + Rsum xs)%R.
Proof.
  revert a. induction xs as [|x xs IH]; intros a; simpl.
  - lra.
  - rewrite IH. lra.
Qed.

Lemma py_sum_Rsum (xs : list R) : py_sum xs = Rsum xs.
Proof. unfold py_sum. rnum. rewrite fold_left_Rplus. lra. Qed.

Lemma Rsum_app (xs ys : list R) : Rsum (xs ++ ys) = (Rsum xs + Rsum ys)%R.
Proof. induction xs as [|x xs IH]; simpl; lra. Qed.

Lemma Rsum_squares_nonneg (xs : list R) : (0 <= Rsum (map (fun x => x * x) xs))%R.
Proof. induction xs as [|x xs IH]; simpl; nra. Qed.

Lemma Rsum_nonneg (xs : list R) :
  Forall (fun x => 0 <= x)%R xs -> (0 <= Rsum xs)%R.
Proof. induction 1; simpl; lra. Qed.

(** ** The index that [_build_tfidf] builds, over the reals *)

Lemma pos_ratio (n m : nat) :
  (0 < IZR (1 + Z.of_nat n) / IZR (1 + Z.of_nat m))%R.
Proof.
  apply Rdiv_lt_0_compat; apply IZR_lt; lia.
Qed.

Lemma idf_value_ok (doc_count freq : nat) :
  idf_value (F:=R) doc_count freq = Ok (idf_of doc_count freq).
Proof.
  unfold idf_value, math_log. rnum.
  assert (Hle : Rleb (IZR (1 + Z.of_nat doc_count) / IZR (1 + Z.of_nat freq)) 0 = false).
  { apply Rleb_false. apply pos_ratio. }
  rewrite Hle. reflexivity.
Qed.

Lemma dict_comprehension_ok {V W : Type} (f : string -> V -> result W)
      (g : string -> V -> W) (d : dict string V) (acc : dict string W) :
  (forall k v, f k v = Ok (g k v)) ->
  dict_comprehension f d acc
  = Ok (fold_left (fun acc (kv : string * V) => sset acc (fst kv) (g (fst kv) (snd kv))) d acc).
Proof.
  intros Hf. revert acc. induction d as [|[k v] d IH]; intros acc; simpl.
  - reflexivity.
  - rewrite Hf. simpl. apply IH.
Qed.

Lemma norm_of_ok (vector : dict string R) : norm_of vector = Ok (R_norm vector).
Proof.
  unfold norm_of, math_sqrt, R_norm. rewrite py_sum_Rsum. rnum.
  assert (Hlt : Rltb (Rsum (map (fun value => (value * value)%R) (dict_values vector))) 0 = false).
  { apply Rltb_false. apply Rsum_squares_nonneg. }
  rewrite Hlt. reflexivity.
Qed.

Lemma for_each_docs_ok (docs : list (list string)) (self : ProductSearchEngine R) :
  for_each docs
    (fun tokens =>
       (self_idf <- read idf ;;
        let vector := tf_vector self_idf tokens in
        norm <- lift (norm_of vector) ;;
        vectors <- read doc_vectors ;;
        set_doc_vectors (vectors ++ [vector]) ;;
        norms <- read doc_norms ;;
        set_doc_norms (norms ++ [norm]))%method) self
  = (Ok tt,
     with_index self (idf self)
       (doc_vectors self ++ map (tf_vector (idf self)) docs)
       (doc_norms self ++ map (fun d => R_norm (tf_vector (idf self) d)) docs)).
Proof.
  revert self. induction docs as [|d docs IH]; intros self.
  - simpl. unfold ret, with_index. rewrite !app_nil_r. destruct self; reflexivity.
  - simpl. unfold mbind at 1. unfold mbind at 1. unfold read at 1.
    unfold mbind at 1. unfold lift at 1. rewrite norm_of_ok.
    unfold mbind at 1. unfold read at 1.
    unfold mbind at 1. unfold set_doc_vectors at 1.
    unfold mbind at 1. unfold read at 1. cbn [doc_norms].
    unfold set_doc_norms at 1. cbn [csv_path column_override products doc_vectors doc_norms idf categories last_index_build_ms].
    rewrite IH. unfold with_index. cbn [csv_path column_override products doc_vectors doc_norms idf categories last_index_build_ms].
    rewrite <- !app_assoc. reflexivity.
Qed.

Lemma _build_tfidf_ok (docs : list (list string)) (self : ProductSearchEngine R) :
  _build_tfidf docs self = (Ok tt, built_index self docs).
Proof.
  unfold _build_tfidf.
  unfold mbind at 1. unfold lift at 1.
  rewrite (dict_comprehension_ok _ (fun _ freq => idf_of (List.length docs) freq))
    by (intros; apply idf_value_ok).
  unfold mbind at 1. unfold set_idf at 1.
  unfold mbind at 1. unfold set_doc_vectors at 1.
  unfold mbind at 1. unfold set_doc_norms at 1.
  cbn [csv_path column_override products doc_vectors doc_norms idf categories
       last_index_build_ms].
  rewrite for_each_docs_ok.
  unfold built_index, with_index, idf_table.
  cbn [csv_path column_override products doc_vectors doc_norms idf categories
       last_index_build_ms app].
  reflexivity.
Qed.

(** [load_data], path by path. *)
Lemma load_data_cases (reader : DictReader) (clock : R * R) (self : ProductSearchEngine R) :
  load_data (Some reader) clock self =
  if negb (has_headers reader) then (Raise (ValueError msg_no_headers), self)
  else if negb (has_title_column reader self) then (Raise (ValueError msg_no_title), self)
  else match read_rows (F:=R) (columns_of reader self) 0 (reader_rows reader) ([], [], []) with
       | Raise e => (Raise e, self)
       | Ok ([], _, _) => (Raise (ValueError msg_no_product), self)
       | Ok (new_products, category_set, docs) =>
           (Ok tt, loaded_state self new_products category_set docs clock)
       end.
Proof.
  unfold load_data, has_headers, has_title_column, columns_of.
  destruct (fieldnames reader) as [[|n names]|]; cbn [negb]; try reflexivity.
  unfold mbind at 1. unfold read at 1.
  destruct (truthy_opt (sget_or (detect_columns (n :: names) (column_override self)) "title" None));
    cbn [negb]; [|reflexivity].
  unfold mbind at 1. unfold lift at 1.
  destruct (read_rows (detect_columns (n :: names) (column_override self)) 0
                      (reader_rows reader) ([], [], [])) as [[[ps cs] ds]|e]; [|reflexivity].
  destruct ps as [|p ps]; [reflexivity|].
  unfold mbind at 1. unfold set_products at 1.
  unfold mbind at 1. rewrite _build_tfidf_ok.
  unfold mbind at 1. unfold set_categories at 1.
  unfold set_last_index_build_ms, built_index, with_index, loaded_state.
  cbn [csv_path column_override products doc_vectors doc_norms idf categories
       last_index_build_ms].
  rnum. reflexivity.
Qed.

(** ** The ids that [load_data] gives *)

Lemma bind_Ok {A B : Type} (m : result A) (k : A -> result B) (b : B) :
  bind m k = Ok b -> exists a, m = Ok a /\ k a = Ok b.
Proof. destruct m as [a|e]; simpl; intros Hb; [eauto | discriminate]. Qed.

Lemma read_rows_ids {F : Type} `{PyMath F} (columns : dict string (option string))
      (rows : list csv_row) :
  forall (idx : nat) (acc acc' : load_acc (F:=F)),
    read_rows columns idx rows acc = Ok acc' ->
    map p_id (fst (fst acc'))
    = map p_id (fst (fst acc)) ++ kept_indices columns idx rows.
Proof.
  induction rows as [|row rows IH]; intros idx [[ps cs] ds] acc' Hrun.
  - simpl in Hrun. inversion Hrun; subst. simpl. now rewrite app_nil_r.
  - cbn [read_rows] in Hrun. cbn [kept_indices].
    apply bind_Ok in Hrun. destruct Hrun as [title [Htitle Hrun]].
    rewrite Htitle.
    destruct (truthy title); cbn [negb] in Hrun.
    + repeat (apply bind_Ok in Hrun; destruct Hrun as [? [_ Hrun]]).
      apply IH in Hrun. rewrite Hrun. cbn [fst].
      rewrite map_app. cbn [map p_id]. now rewrite <- app_assoc.
    + apply IH in Hrun. exact Hrun.
Qed.

Lemma kept_indices_lower (columns : dict string (option string)) (rows : list csv_row) :
  forall idx, Forall (fun i => idx <= i) (kept_indices columns idx rows).
Proof.
  induction rows as [|row rows IH]; intros idx; cbn [kept_indices].
  - constructor.
  - assert (Hrest : Forall (fun i => idx <= i) (kept_indices columns (S idx) rows)).
    { eapply Forall_impl; [|apply IH]. cbv beta. intros; lia. }
    destruct (text_cell columns row "title") as [title|e]; [|exact Hrest].
    destruct (truthy title); [constructor; [lia|exact Hrest] | exact Hrest].
Qed.

Lemma kept_indices_increasing (columns : dict string (option string)) (rows : list csv_row) :
  forall idx, StronglySorted lt (kept_indices columns idx rows).
Proof.
  induction rows as [|row rows IH]; intros idx; cbn [kept_indices].
  - constructor.
  - destruct (text_cell columns row "title") as [title|e]; [|apply IH].
    destruct (truthy title); [|apply IH].
    constructor; [apply IH|].
    eapply Forall_impl; [|apply kept_indices_lower]. cbv beta. intros; lia.
Qed.

Lemma kept_indices_nth (columns : dict string (option string)) (rows : list csv_row) :
  forall idx i id, nth_error (kept_indices columns idx rows) i = Some id -> idx + i <= id.
Proof.
  induction rows as [|row rows IH]; intros idx i id; cbn [kept_indices].
  - destruct i; discriminate.
  - assert (Hrest : nth_error (kept_indices columns (S idx) rows) i = Some id -> idx + i <= id).
    { intros Hn. apply IH in Hn. lia. }
    destruct (text_cell columns row "title") as [title|e]; [|exact Hrest].
    destruct (truthy title); [|exact Hrest].
    destruct i as [|i]; cbn [nth_error].
    + intros Hn; inversion Hn; lia.
    + intros Hn. apply IH in Hn. lia.
Qed.

Lemma kept_indices_all (columns : dict string (option string)) (rows : list csv_row) :
  (forall row, In row rows ->
               exists title, text_cell columns row "title" = Ok title /\ truthy title = true) ->
  forall idx, kept_indices columns idx rows = seq idx (List.length rows).
Proof.
  induction rows as [|row rows IH]; intros Hall idx; cbn [kept_indices].
  - reflexivity.
  - destruct (Hall row (or_introl eq_refl)) as [title [Ht Hne]].
    rewrite Ht, Hne. cbn [List.length seq]. f_equal.
    apply IH. intros r Hr. apply Hall. now right.
Qed.

Lemma load_data_success (reader : DictReader) (clock : R * R)
      (self self' : ProductSearchEngine R) :
  load_data (Some reader) clock self = (Ok tt, self') ->
  exists new_products category_set docs,
    read_rows (F:=R) (columns_of reader self) 0 (reader_rows reader) ([], [], [])
    = Ok (new_products, category_set, docs)
    /\ new_products <> []
    /\ self' = loaded_state self new_products category_set docs clock.
Proof.
  rewrite load_data_cases.
  destruct (negb (has_headers reader)); [discriminate|].
  destruct (negb (has_title_column reader self)); [discriminate|].
  destruct (read_rows (columns_of reader self) 0 (reader_rows reader) ([], [], []))
    as [[[ps cs] ds]|e]; [|discriminate].
  destruct ps as [|p ps]; [discriminate|].
  intros Hrun. inversion Hrun; subst.
  exists (p :: ps), cs, ds. repeat split. discriminate.
Qed.

Lemma sparse_reader_loads (clock : R * R) :
  load_data (Some sparse_reader) clock (new_engine "products.csv" [])
  = (Ok tt, loaded_state (new_engine "products.csv" []) [mug] [] [["mug"]] clock).
Proof.
  rewrite load_data_cases.
  assert (Hh : has_headers sparse_reader = true) by reflexivity.
  assert (Ht : has_title_column sparse_reader (new_engine (F:=R) "products.csv" []) = true)
    by (vm_compute; reflexivity).
  assert (Hr : read_rows (F:=R)
                 (columns_of sparse_reader (new_engine (F:=R) "products.csv" []))
                 0 (reader_rows sparse_reader) ([], [], [])
               = Ok ([mug], [], [["mug"]]))
    by (vm_compute; reflexivity).
  rewrite Hh, Ht, Hr. reflexivity.
Qed.

(** C1, as stated, fails: the claim says that the i-th kept product has id
    i.  The catalogue [sparse_reader] loads, its only product is the row of
    index 1 (the row of index 0 has an empty title and is skipped), and the
    id of that product is 1, not 0. *)
Lemma dense_ids_counterexample :
  ~ (forall (reader : DictReader) (clock : R * R) (self self' : ProductSearchEngine R),
        load_data (Some reader) clock self = (Ok tt, self') ->
        forall i p, nth_error (products self') i = Some p -> p_id p = i).
Proof.
  intros Hdense.
  specialize (Hdense sparse_reader (0%R, 0%R) (new_engine "products.csv" []) _
                     (sparse_reader_loads (0%R, 0%R)) 0 mug eq_refl).
  discriminate Hdense.
Qed.

(** C1, amended: after a successful load the id of a kept product is the
    0-based index of its row among all the rows of the source, the skipped
    ones counted.  Hence the ids of the kept products increase strictly in
    source order, the i-th of them is at least i, and the ids are 0, 1, 2, ...
    when no row is skipped. *)
Theorem load_data_ids (reader : DictReader) (clock : R * R)
        (self self' : ProductSearchEngine R) :
  load_data (Some reader) clock self = (Ok tt, self') ->
  map p_id (products self')
  = kept_indices (columns_of reader self) 0 (reader_rows reader)
  /\ StronglySorted lt (map p_id (products self'))
  /\ (forall i p, nth_error (products self') i = Some p -> i <= p_id p)
  /\ ((forall row, In row (reader_rows reader) ->
         exists title, text_cell (columns_of reader self) row "title" = Ok title
                       /\ truthy title = true) ->
      map p_id (products self') = seq 0 (List.length (reader_rows reader))).
Proof.
  intros Hrun.
  destruct (load_data_success _ _ _ _ Hrun) as [ps [cs [ds [Hrows [_ Hself]]]]].
  apply read_rows_ids in Hrows. cbn [fst map app] in Hrows.
  assert (Hids : map p_id (products self')
                 = kept_indices (columns_of reader self) 0 (reader_rows reader)).
  { subst self'. exact Hrows. }
  rewrite Hids. repeat split.
  - apply kept_indices_increasing.
  - intros i p Hp.
    assert (Hn : nth_error (map p_id (products self')) i = Some (p_id p))
      by (rewrite nth_error_map, Hp; reflexivity).
    rewrite Hids in Hn. apply kept_indices_nth in Hn. lia.
  - intros Hall. now apply kept_indices_all.
Qed.

Lemma load_data_ids_witness :
  map p_id (products (loaded_state (new_engine "products.csv" []) [mug] [] [["mug"]]
                                   (0%R, 0%R)))
  = kept_indices (columns_of sparse_reader (new_engine (F:=R) "products.csv" []))
                 0 (reader_rows sparse_reader).
Proof.
  exact (proj1 (load_data_ids sparse_reader (0%R, 0%R) (new_engine "products.csv" []) _
                              (sparse_reader_loads (0%R, 0%R)))).
Defined.

(** ** Failure of a load *)




(** ** Lists *)

Lemma filter_none {X : Type} (f : X -> bool) (l : list X) :
  (forall x, In x l -> f x = false) -> filter f l = [].
Proof.
  induction l as [|x l IH]; intros Hf; simpl; [reflexivity|].
  rewrite (Hf x (or_introl eq_refl)). apply IH. intros y Hy. apply Hf. now right.
Qed.

(** ** Dictionaries *)

Section DictFacts.
Context {K V : Type} (keq : K -> K -> bool).
Hypothesis keq_spec : forall x y, keq x y = true <-> x = y.

Lemma keq_refl (x : K) : keq x x = true.
Proof. now apply keq_spec. Qed.

Lemma keq_neq {x y : K} : x <> y -> keq x y = false.
Proof.
  intros Hne. destruct (keq x y) eqn:E; [|reflexivity].
  apply keq_spec in E. contradiction.
Qed.

Lemma dict_get_set_same (d : dict K V) (k : K) (v : V) :
  dict_get keq (dict_set keq d k v) k = Some v.
Proof.
  induction d as [|[k' v'] d IH]; simpl.
  - now rewrite keq_refl.
  - destruct (keq k k') eqn:E; simpl.
    + now rewrite keq_refl.
    + now rewrite E.
Qed.

Lemma dict_get_set_other (d : dict K V) (k k' : K) (v : V) :
  k' <> k -> dict_get keq (dict_set keq d k v) k' = dict_get keq d k'.
Proof.
  intros Hne. induction d as [|[k0 v0] d IH]; simpl.
  - now rewrite (keq_neq Hne).
  - destruct (keq k k0) eqn:E; simpl.
    + apply keq_spec in E. subst k0. now rewrite (keq_neq Hne).
    + destruct (keq k' k0); [reflexivity | exact IH].
Qed.

Lemma dict_get_or_set_same (d : dict K V) (k : K) (v default : V) :
  dict_get_or keq (dict_set keq d k v) k default = v.
Proof. unfold dict_get_or. now rewrite dict_get_set_same. Qed.

Lemma dict_get_or_set_other (d : dict K V) (k k' : K) (v default : V) :
  k' <> k ->
  dict_get_or keq (dict_set keq d k v) k' default = dict_get_or keq d k' default.
Proof. intros Hne. unfold dict_get_or. now rewrite dict_get_set_other. Qed.

Lemma dict_get_In (d : dict K V) (k : K) (v : V) :
  dict_get keq d k = Some v -> In (k, v) d.
Proof.
  induction d as [|[k' v'] d IH]; simpl; [discriminate|].
  destruct (keq k k') eqn:E.
  - apply keq_spec in E. subst k'. intros Hv; inversion Hv; now left.
  - intros Hv. right. now apply IH.
Qed.

Lemma dict_get_None (d : dict K V) (k : K) :
  dict_get keq d k = None <-> ~ In k (dict_keys d).
Proof.
  induction d as [|[k' v'] d IH]; simpl.
  - tauto.
  - destruct (keq k k') eqn:E.
    + apply keq_spec in E. subst k'. split; [discriminate | tauto].
    + rewrite IH. split.
      * intros Hn [Heq|Hin]; [subst k'; now rewrite keq_refl in E | tauto].
      * tauto.
Qed.

Lemma dict_get_NoDup (d : dict K V) (k : K) (v : V) :
  NoDup (dict_keys d) -> In (k, v) d -> dict_get keq d k = Some v.
Proof.
  induction d as [|[k' v'] d IH]; simpl; [tauto|].
  intros Hnd [Heq|Hin].
  - inversion Heq; subst. now rewrite keq_refl.
  - inversion Hnd as [|? ? Hnotin Hnd']; subst.
    destruct (keq k k') eqn:E.
    + apply keq_spec in E. subst k'. exfalso. apply Hnotin.
      unfold dict_keys. apply in_map_iff. now exists (k, v).
    + now apply IH.
Qed.

Lemma dict_set_keys (d : dict K V) (k : K) (v : V) :
  dict_keys (dict_set keq d k v)
  = if existsb (keq k) (dict_keys d) then dict_keys d else dict_keys d ++ [k].
Proof.
  induction d as [|[k' v'] d IH]; simpl; [reflexivity|].
  destruct (keq k k') eqn:E; simpl.
  - apply keq_spec in E. now subst.
  - rewrite IH. now destruct (existsb (keq k) (dict_keys d)).
Qed.

Lemma existsb_keq_In (k : K) (l : list K) : existsb (keq k) l = true <-> In k l.
Proof.
  rewrite existsb_exists. split.
  - intros [x [Hin Hx]]. apply keq_spec in Hx. now subst.
  - intros Hin. exists k. split; [exact Hin | apply keq_refl].
Qed.

Lemma dict_set_NoDup (d : dict K V) (k : K) (v : V) :
  NoDup (dict_keys d) -> NoDup (dict_keys (dict_set keq d k v)).
Proof.
  intros Hnd. rewrite dict_set_keys.
  destruct (existsb (keq k) (dict_keys d)) eqn:E; [exact Hnd|].
  apply NoDup_app; [exact Hnd | repeat constructor; simpl; tauto |].
  intros x Hx [Hk|[]]. subst x.
  apply existsb_keq_In in Hx. congruence.
Qed.
End DictFacts.

Lemma Nat_eqb_spec (x y : nat) : Nat.eqb x y = true <-> x = y.
Proof. apply Nat.eqb_eq. Qed.

Lemma String_eqb_spec (x y : string) : String.eqb x y = true <-> x = y.
Proof. apply String.eqb_eq. Qed.

Lemma Ascii_eqb_spec (x y : ascii) : Ascii.eqb x y = true <-> x = y.
Proof. apply Ascii.eqb_eq. Qed.

(** ** SequenceMatcher: what the scan of [find_longest_match] computes *)

Section DiffFacts.
Context {A : Type} (eqA : A -> A -> bool).
Hypothesis eqA_spec : forall x y, eqA x y = true <-> x = y.
Variables (a b : list A).

Lemma positions_from_In (x : A) (l : list A) :
  forall i j, In j (positions_from eqA x l i) <-> i <= j /\ nth_error l (j - i) = Some x.
Proof.
  induction l as [|y l IH]; intros i j; simpl.
  - split; [tauto|]. intros [_ Hn]. destruct (j - i); discriminate.
  - destruct (eqA y x) eqn:E.
    + apply eqA_spec in E. subst y. simpl. rewrite IH. split.
      * intros [Heq|[Hle Hn]].
        -- subst j. rewrite Nat.sub_diag. simpl. split; [lia|reflexivity].
        -- split; [lia|]. replace (j - i) with (S (j - S i)) by lia. exact Hn.
      * intros [Hle Hn]. destruct (Nat.eq_dec i j) as [Heq|Hne]; [now left|right].
        split; [lia|]. replace (j - i) with (S (j - S i)) in Hn by lia. exact Hn.
    + rewrite IH. split.
      * intros [Hle Hn]. split; [lia|].
        replace (j - i) with (S (j - S i)) by lia. exact Hn.
      * intros [Hle Hn]. destruct (Nat.eq_dec i j) as [Heq|Hne].
        -- subst j. rewrite Nat.sub_diag in Hn. simpl in Hn. inversion Hn; subst.
           assert (Hxx : eqA x x = true) by now apply eqA_spec. congruence.
        -- split; [lia|]. replace (j - i) with (S (j - S i)) in Hn by lia. exact Hn.
Qed.

Lemma positions_from_sorted (x : A) (l : list A) :
  forall i, StronglySorted lt (positions_from eqA x l i).
Proof.
  induction l as [|y l IH]; intros i; simpl.
  - constructor.
  - destruct (eqA y x); [|apply IH].
    constructor; [apply IH|].
    apply Forall_forall. intros j Hj. apply positions_from_In in Hj. lia.
Qed.

Lemma b2j_get_In (x : A) (j : nat) :
  In j (b2j_get eqA b x) <-> popular eqA b x = false /\ nth_error b j = Some x.
Proof.
  unfold b2j_get. destruct (popular eqA b x).
  - simpl. split; [tauto | intros [Hp _]; discriminate].
  - rewrite positions_from_In, Nat.sub_0_r. split.
    + intros [_ Hn]. now split.
    + intros [_ Hn]. split; [lia | exact Hn].
Qed.

Lemma b2j_get_sorted (x : A) : StronglySorted lt (b2j_get eqA b x).
Proof.
  unfold b2j_get. destruct (popular eqA b x); [constructor | apply positions_from_sorted].
Qed.

Lemma row_indices_sorted (i : nat) : StronglySorted lt (row_indices eqA a b i).
Proof.
  unfold row_indices. destruct (nth_error a i); [apply b2j_get_sorted | constructor].
Qed.

Lemma cell_visited (alo blo bhi i j : nat) :
  cell eqA a b alo blo bhi i j = true <-> alo <= i /\ In j (visited eqA a b blo bhi i).
Proof.
  unfold cell. rewrite andb_true_iff, Nat.leb_le.
  rewrite (existsb_keq_In Nat.eqb Nat_eqb_spec). tauto.
Qed.

Lemma in_window_true (blo bhi j : nat) :
  in_window blo bhi j = true <-> blo <= j < bhi.
Proof. unfold in_window. rewrite andb_true_iff, Nat.leb_le, Nat.ltb_lt. tauto. Qed.

Lemma cell_spec (alo blo bhi i j : nat) :
  cell eqA a b alo blo bhi i j = true <->
  alo <= i /\ blo <= j < bhi
  /\ exists x, nth_error a i = Some x /\ nth_error b j = Some x
               /\ popular eqA b x = false.
Proof.
  rewrite cell_visited. unfold visited. rewrite filter_In, in_window_true.
  unfold row_indices. destruct (nth_error a i) as [x|].
  - rewrite b2j_get_In. split.
    + intros [Hi [[Hp Hb] Hw]]. repeat split; try tauto. now exists x.
    + intros [Hi [Hw [y [Hy [Hb Hp]]]]]. inversion Hy; subst. tauto.
  - simpl. split; [tauto|]. intros [_ [_ [x [Hx _]]]]. discriminate.
Qed.

Lemma clen_unfold (alo blo bhi i j : nat) :
  clen eqA a b alo blo bhi i j
  = if cell eqA a b alo blo bhi i j
    then S (match i, j with
            | S i', S j' => clen eqA a b alo blo bhi i' j'
            | _, _ => 0
            end)
    else 0.
Proof. destruct i; reflexivity. Qed.

Lemma clen_bounds (alo blo bhi : nat) :
  forall i j, clen eqA a b alo blo bhi i j <= i + 1 - alo /\ clen eqA a b alo blo bhi i j <= j + 1 - blo.
Proof.
  induction i as [|i IH]; intros j; rewrite clen_unfold;
    destruct (cell eqA a b alo blo bhi _ j) eqn:E; try lia;
    apply cell_spec in E; destruct E as [Hi [Hj _]].
  - lia.
  - destruct j as [|j]; [lia|].
    destruct (IH j) as [H1 H2].
    rewrite clen_unfold in H1, H2 |- *.
    destruct (cell eqA a b alo blo bhi i j) eqn:E'; [|lia].
    apply cell_spec in E'. lia.
Qed.

(** *** The inner loop *)

Section Row.
Variables (alo blo bhi i : nat) (j2len : dict nat nat).
Hypothesis Hi : alo <= i.
Hypothesis Hprev :
  forall j, dict_get_or Nat.eqb j2len j 0
            = match i with S i' => clen eqA a b alo blo bhi i' j | O => 0 end.

Lemma row_k (j : nat) :
  cell eqA a b alo blo bhi i j = true ->
  S (match j with O => 0 | S j' => dict_get_or Nat.eqb j2len j' 0 end)
  = clen eqA a b alo blo bhi i j.
Proof.
  intros Hc. rewrite (clen_unfold alo blo bhi i j), Hc.
  destruct j as [|j']; [now destruct i|].
  rewrite Hprev. now destruct i.
Qed.

Lemma scan_row_pure (js : list nat) :
  StronglySorted lt js ->
  (forall j, In j js -> in_window blo bhi j = true -> cell eqA a b alo blo bhi i j = true) ->
  forall newj2len best,
    scan_row blo bhi i j2len js newj2len best
    = (fold_left (fun d j => dict_set Nat.eqb d j (clen eqA a b alo blo bhi i j))
                 (filter (in_window blo bhi) js) newj2len,
       fold_left (fun best j => upd i best j (clen eqA a b alo blo bhi i j))
                 (filter (in_window blo bhi) js) best).
Proof.
  induction js as [|j js IH]; intros Hsorted Hcells newj2len best.
  - reflexivity.
  - inversion Hsorted as [|? ? Hsorted' Hall]; subst.
    cbn [scan_row filter].
    destruct (in_window blo bhi j) eqn:Ew.
    + assert (Hc : cell eqA a b alo blo bhi i j = true) by (apply Hcells; [now left | exact Ew]).
      apply in_window_true in Ew.
      rewrite (proj2 (Nat.ltb_ge j blo)) by lia.
      rewrite (proj2 (Nat.leb_gt bhi j)) by lia.
      rewrite (row_k j Hc). cbn [fold_left]. unfold upd at 2.
      apply IH; [exact Hsorted'|]. intros j' Hj'. apply Hcells. now right.
    + destruct (j <? blo)%nat eqn:Elo.
      * apply IH; [exact Hsorted'|]. intros j' Hj'. apply Hcells. now right.
      * apply Nat.ltb_ge in Elo.
        assert (Hhi : bhi <= j).
        { destruct (Nat.le_gt_cases bhi j) as [Hle|Hgt]; [exact Hle|].
          assert (Hw : in_window blo bhi j = true) by (apply in_window_true; lia).
          congruence. }
        rewrite (proj2 (Nat.leb_le bhi j)) by lia.
        assert (Hnone : filter (in_window blo bhi) js = []).
        { apply filter_none. intros j' Hj'.
          rewrite Forall_forall in Hall. specialize (Hall j' Hj').
          destruct (in_window blo bhi j') eqn:Ew'; [|reflexivity].
          apply in_window_true in Ew'. lia. }
        rewrite Hnone. reflexivity.
Qed.
End Row.

Lemma fold_set_get (f : nat -> nat) (js : list nat) :
  forall (d : dict nat nat) (j : nat),
    dict_get_or Nat.eqb (fold_left (fun d j => dict_set Nat.eqb d j (f j)) js d) j 0
    = if existsb (Nat.eqb j) js then f j else dict_get_or Nat.eqb d j 0.
Proof.
  induction js as [|j0 js IH]; intros d j; cbn [fold_left existsb]; [reflexivity|].
  rewrite IH. destruct (existsb (Nat.eqb j) js); [now rewrite orb_true_r|].
  rewrite orb_false_r. destruct (Nat.eqb j j0) eqn:E.
  - apply Nat.eqb_eq in E. subst j0. apply (dict_get_or_set_same Nat.eqb Nat_eqb_spec).
  - apply Nat.eqb_neq in E. now apply (dict_get_or_set_other Nat.eqb Nat_eqb_spec).
Qed.

Lemma row_cells (alo blo bhi i : nat) :
  alo <= i ->
  forall j, In j (row_indices eqA a b i) -> in_window blo bhi j = true ->
            cell eqA a b alo blo bhi i j = true.
Proof.
  intros Hi j Hj Hw. apply cell_visited. split; [exact Hi|].
  unfold visited. apply filter_In. now split.
Qed.

Lemma scan_row_dict (alo blo bhi i : nat) (j2len : dict nat nat) (best : block) :
  alo <= i ->
  (forall j, dict_get_or Nat.eqb j2len j 0
             = match i with S i' => clen eqA a b alo blo bhi i' j | O => 0 end) ->
  forall j,
    dict_get_or Nat.eqb (fst (scan_row blo bhi i j2len (row_indices eqA a b i) [] best)) j 0
    = clen eqA a b alo blo bhi i j.
Proof.
  intros Hi Hprev j.
  rewrite (scan_row_pure alo blo bhi i j2len Hi Hprev (row_indices eqA a b i)
             (row_indices_sorted i) (row_cells alo blo bhi i Hi)).
  cbn [fst]. rewrite fold_set_get. fold (visited eqA a b blo bhi i).
  destruct (existsb (Nat.eqb j) (visited eqA a b blo bhi i)) eqn:E; [reflexivity|].
  rewrite clen_unfold. unfold cell. rewrite E, andb_false_r. reflexivity.
Qed.

Lemma scan_fold_pure (alo blo bhi : nat) :
  forall (n i0 : nat) (j2len : dict nat nat) (best : block),
    alo <= i0 ->
    (forall j, dict_get_or Nat.eqb j2len j 0
               = match i0 with S i' => clen eqA a b alo blo bhi i' j | O => 0 end) ->
    snd (fold_left
           (fun (st : dict nat nat * block) i =>
              scan_row blo bhi i (fst st)
                       (match nth_error a i with
                        | Some x => b2j_get eqA b x
                        | None => []
                        end)
                       [] (snd st))
           (seq i0 n) (j2len, best))
    = scan_best eqA a b alo blo bhi (seq i0 n) best.
Proof.
  induction n as [|n IH]; intros i0 j2len best Hi Hprev; [reflexivity|].
  cbn [seq fold_left scan_best fst snd].
  change (match nth_error a i0 with
          | Some x => b2j_get eqA b x
          | None => []
          end) with (row_indices eqA a b i0).
  pose proof (scan_row_dict alo blo bhi i0 j2len best Hi Hprev) as Hdict.
  pose proof (scan_row_pure alo blo bhi i0 j2len Hi Hprev (row_indices eqA a b i0)
                (row_indices_sorted i0) (row_cells alo blo bhi i0 Hi) [] best) as Hpure.
  destruct (scan_row blo bhi i0 j2len (row_indices eqA a b i0) [] best) as [d best'] eqn:Erow.
  cbn [fst] in Hdict.
  assert (Hb : best' = fold_left (fun best j => upd i0 best j (clen eqA a b alo blo bhi i0 j))
                                 (visited eqA a b blo bhi i0) best)
    by (unfold visited; congruence).
  rewrite (IH (S i0) d best'); [|lia|exact Hdict].
  unfold scan_best. rewrite Hb. reflexivity.
Qed.

Lemma clen_below (alo blo bhi i j : nat) : i < alo -> clen eqA a b alo blo bhi i j = 0.
Proof.
  intros Hlt. rewrite clen_unfold.
  destruct (cell eqA a b alo blo bhi i j) eqn:E; [|reflexivity].
  apply cell_spec in E. lia.
Qed.

Lemma scan_rows_pure (alo ahi blo bhi : nat) :
  snd (scan_rows eqA a b alo ahi blo bhi)
  = scan_best eqA a b alo blo bhi (seq alo (ahi - alo)) (alo, blo, 0).
Proof.
  unfold scan_rows. apply scan_fold_pure; [lia|].
  intros j. cbn. destruct alo as [|alo']; [reflexivity|].
  symmetry. apply clen_below. lia.
Qed.

(** *** The block found lies in the window *)

Lemma upd_in (alo ahi blo bhi i j : nat) (best : block) :
  alo <= i -> i < ahi ->
  block_in alo ahi blo bhi best ->
  block_in alo ahi blo bhi (upd i best j (clen eqA a b alo blo bhi i j)).
Proof.
  intros Hlo Hhi Hin. unfold upd.
  destruct (block_size best <? clen eqA a b alo blo bhi i j)%nat eqn:E; [|exact Hin].
  apply Nat.ltb_lt in E.
  destruct (clen_bounds alo blo bhi i j) as [H1 H2].
  assert (Hc : cell eqA a b alo blo bhi i j = true).
  { rewrite clen_unfold in E. destruct (cell eqA a b alo blo bhi i j); [reflexivity|lia]. }
  apply cell_spec in Hc. unfold block_in, block_size. cbn [fst snd]. lia.
Qed.

Lemma scan_best_in (alo ahi blo bhi : nat) (rows : list nat) :
  Forall (fun i => alo <= i < ahi) rows ->
  forall best, block_in alo ahi blo bhi best ->
               block_in alo ahi blo bhi (scan_best eqA a b alo blo bhi rows best).
Proof.
  induction 1 as [|i rows Hi Hrows IH]; intros best Hin; [exact Hin|].
  cbn [scan_best fold_left]. apply IH.
  generalize (visited eqA a b blo bhi i) as js. intros js. revert best Hin.
  induction js as [|j js IHjs]; intros best Hin; [exact Hin|].
  cbn [fold_left]. apply IHjs. apply upd_in; tauto.
Qed.

Lemma extend_left_in (alo ahi blo bhi : nat) :
  forall besti bestj bestsize,
    block_in alo ahi blo bhi (besti, bestj, bestsize) ->
    block_in alo ahi blo bhi (extend_left eqA a b alo blo besti bestj bestsize).
Proof.
  induction besti as [|i' IH]; intros bestj bestsize Hin; [exact Hin|].
  cbn [extend_left]. destruct bestj as [|j']; [exact Hin|].
  destruct ((alo <? S i')%nat && (blo <? S j')%nat && eq_at eqA a b i' j')%bool eqn:E;
    [|exact Hin].
  apply andb_true_iff in E. destruct E as [E _].
  apply andb_true_iff in E. destruct E as [E1 E2].
  apply Nat.ltb_lt in E1, E2. apply IH.
  unfold block_in, block_size in *. cbn [fst snd] in *. lia.
Qed.

Lemma extend_right_in (alo ahi blo bhi besti bestj : nat) :
  forall room bestsize,
    block_in alo ahi blo bhi (besti, bestj, bestsize) ->
    block_in alo ahi blo bhi
             (besti, bestj, extend_right eqA a b ahi bhi besti bestj room bestsize).
Proof.
  induction room as [|room IH]; intros bestsize Hin; [exact Hin|].
  cbn [extend_right].
  destruct ((besti + bestsize <? ahi)%nat && (bestj + bestsize <? bhi)%nat
            && eq_at eqA a b (besti + bestsize) (bestj + bestsize))%bool eqn:E;
    [|exact Hin].
  apply andb_true_iff in E. destruct E as [E _].
  apply andb_true_iff in E. destruct E as [E1 E2].
  apply Nat.ltb_lt in E1, E2. apply IH.
  unfold block_in, block_size in *. cbn [fst snd] in *. lia.
Qed.

Lemma find_longest_match_in (alo ahi blo bhi : nat) :
  alo <= ahi -> blo <= bhi ->
  block_in alo ahi blo bhi (find_longest_match eqA a b alo ahi blo bhi).
Proof.
  intros Ha Hb. unfold find_longest_match. rewrite scan_rows_pure.
  assert (Hscan : block_in alo ahi blo bhi
                    (scan_best eqA a b alo blo bhi (seq alo (ahi - alo)) (alo, blo, 0))).
  { apply scan_best_in.
    - apply Forall_forall. intros i Hi. apply in_seq in Hi. lia.
    - unfold block_in, block_size. cbn [fst snd]. lia. }
  destruct (scan_best eqA a b alo blo bhi (seq alo (ahi - alo)) (alo, blo, 0))
    as [[besti bestj] bestsize].
  apply extend_left_in in Hscan.
  destruct (extend_left eqA a b alo blo besti bestj bestsize) as [[i j] k].
  now apply extend_right_in.
Qed.

(** *** The loop of [get_matching_blocks] ends, and the blocks fit *)

Lemma rounds_cons (alo ahi blo bhi : nat) (queue : list (nat * nat * nat * nat)) :
  rounds ((alo, ahi, blo, bhi) :: queue) = 2 * (ahi - alo) + 1 + rounds queue.
Proof. reflexivity. Qed.

Lemma total_a_cons (alo ahi blo bhi : nat) (queue : list (nat * nat * nat * nat)) :
  total_a ((alo, ahi, blo, bhi) :: queue) = (ahi - alo) + total_a queue.
Proof. reflexivity. Qed.

Lemma total_b_cons (alo ahi blo bhi : nat) (queue : list (nat * nat * nat * nat)) :
  total_b ((alo, ahi, blo, bhi) :: queue) = (bhi - blo) + total_b queue.
Proof. reflexivity. Qed.

Lemma blocks_size_app (xs ys : list block) :
  blocks_size (xs ++ ys) = blocks_size xs + blocks_size ys.
Proof. unfold blocks_size. now rewrite map_app, list_sum_app. Qed.

Lemma blocks_size_one (i j k : nat) : blocks_size [(i, j, k)] = k.
Proof. unfold blocks_size, block_size. cbn. lia. Qed.

Lemma blocks_size_cons (x : block) (l : list block) :
  blocks_size (x :: l) = block_size x + blocks_size l.
Proof. reflexivity. Qed.

Lemma matching_loop_ok :
  forall (fuel : nat) (queue : list (nat * nat * nat * nat)) (acc : list block),
    Forall window_ok queue ->
    rounds queue <= fuel ->
    exists blocks,
      matching_loop eqA a b fuel queue acc = Ok blocks
      /\ blocks_size blocks <= blocks_size acc + total_a queue
      /\ blocks_size blocks <= blocks_size acc + total_b queue.
Proof.
  induction fuel as [|fuel IH]; intros queue acc Hok Hfuel.
  - destruct queue as [|[[[alo ahi] blo] bhi] queue].
    + exists acc. cbn. repeat split; lia.
    + rewrite rounds_cons in Hfuel. lia.
  - destruct queue as [|[[[alo ahi] blo] bhi] queue].
    + exists acc. cbn. repeat split; lia.
    + inversion Hok as [|? ? Hw Hok']; subst.
      cbn [window_ok] in Hw. destruct Hw as [Ha Hb].
      cbn [matching_loop].
      pose proof (find_longest_match_in alo ahi blo bhi Ha Hb) as Hin.
      destruct (find_longest_match eqA a b alo ahi blo bhi) as [[i j] k].
      unfold block_in, block_size in Hin. cbn [fst snd] in Hin.
      rewrite rounds_cons in Hfuel. rewrite total_a_cons, total_b_cons.
      destruct (k =? 0)%nat eqn:Ek.
      * destruct (IH queue acc Hok' ltac:(lia)) as [blocks [Hrun [H1 H2]]].
        exists blocks. repeat split; [exact Hrun|lia|lia].
      * apply Nat.eqb_neq in Ek.
        set (q1 := if ((alo <? i) && (blo <? j))%nat%bool
                   then (alo, i, blo, j) :: queue else queue).
        set (q2 := if ((i + k <? ahi) && (j + k <? bhi))%nat%bool
                   then (i + k, ahi, j + k, bhi) :: q1 else q1).
        assert (Hq : Forall window_ok q2
                     /\ rounds q2 + 2 * k <= 2 * (ahi - alo) + 2 + rounds queue
                     /\ total_a q2 + k <= (ahi - alo) + total_a queue
                     /\ total_b q2 + k <= (bhi - blo) + total_b queue).
        { subst q2 q1.
          destruct ((alo <? i) && (blo <? j))%nat%bool;
            destruct ((i + k <? ahi) && (j + k <? bhi))%nat%bool;
            rewrite ?rounds_cons, ?total_a_cons, ?total_b_cons;
            (split; [repeat constructor; try exact Hok'; lia | lia]). }
        destruct Hq as [Hok2 [Hr [Hwa Hwb]]].
        destruct (IH q2 (acc ++ [(i, j, k)]) Hok2 ltac:(lia)) as [blocks [Hrun [H1 H2]]].
        exists blocks. rewrite blocks_size_app, blocks_size_one in H1, H2.
        repeat split; [exact Hrun|lia|lia].
Qed.

Lemma insert_block_size (x : block) (l : list block) :
  blocks_size (insert_block x l) = block_size x + blocks_size l.
Proof.
  induction l as [|y l IH]; cbn [insert_block]; [reflexivity|].
  destruct (block_leb x y); [reflexivity|].
  rewrite !blocks_size_cons, IH. lia.
Qed.

Lemma sort_blocks_size (l : list block) : blocks_size (sort_blocks l) = blocks_size l.
Proof.
  induction l as [|x l IH]; cbn [sort_blocks]; [reflexivity|].
  rewrite insert_block_size, blocks_size_cons, IH. reflexivity.
Qed.

Lemma collapse_size (l : list block) :
  forall (st : block * list block),
    block_size (fst (fold_left collapse_step l st))
    + blocks_size (snd (fold_left collapse_step l st))
    = block_size (fst st) + blocks_size (snd st) + blocks_size l.
Proof.
  induction l as [|[[i2 j2] k2] l IH]; intros [[[i1 j1] k1] na]; cbn [fold_left].
  - change (blocks_size []) with 0. lia.
  - rewrite IH, blocks_size_cons. unfold collapse_step.
    destruct ((i1 + k1 =? i2) && (j1 + k1 =? j2))%nat%bool.
    + unfold block_size. cbn [fst snd]. lia.
    + destruct (k1 =? 0)%nat eqn:Ek.
      * apply Nat.eqb_eq in Ek. unfold block_size. cbn [fst snd]. lia.
      * cbn [fst snd]. rewrite blocks_size_app, blocks_size_one.
        unfold block_size. cbn [fst snd]. lia.
Qed.

(** [get_matching_blocks] returns: the worklist is empty before the fuel
    runs out, and the blocks together are no longer than [a] or [b]. *)
Lemma get_matching_blocks_terminates :
  exists blocks found,
    matching_loop eqA a b (2 * List.length a + 1)
                  [(0, List.length a, 0, List.length b)] [] = Ok found
    /\ get_matching_blocks eqA a b = Ok blocks
    /\ blocks_size blocks = blocks_size found
    /\ blocks_size blocks <= List.length a
    /\ blocks_size blocks <= List.length b.
Proof.
  destruct (matching_loop_ok (2 * List.length a + 1)
              [(0, List.length a, 0, List.length b)] []) as [found [Hrun [H1 H2]]].
  { repeat constructor; lia. }
  { rewrite rounds_cons. change (rounds []) with 0. lia. }
  rewrite total_a_cons in H1. rewrite total_b_cons in H2.
  change (total_a []) with 0 in H1. change (total_b []) with 0 in H2.
  change (blocks_size []) with 0 in H1, H2.
  unfold get_matching_blocks. rewrite Hrun. cbn [bind].
  pose proof (collapse_size (sort_blocks found) ((0, 0, 0), [])) as Hsize.
  destruct (fold_left collapse_step (sort_blocks found) ((0, 0, 0), []))
    as [[[i1 j1] k1] na].
  rewrite sort_blocks_size in Hsize.
  unfold block_size at 1 2 in Hsize. cbn [fst snd] in Hsize.
  change (blocks_size []) with 0 in Hsize.
  eexists. exists found. split; [reflexivity|]. split; [reflexivity|].
  assert (Hsum : blocks_size ((if (k1 =? 0)%nat then na else na ++ [(i1, j1, k1)])
                              ++ [(List.length a, List.length b, 0)])
                 = blocks_size found).
  { rewrite blocks_size_app, blocks_size_one. destruct (k1 =? 0)%nat eqn:Ek.
    - apply Nat.eqb_eq in Ek. lia.
    - rewrite blocks_size_app, blocks_size_one. lia. }
  rewrite Hsum. repeat split; lia.
Qed.

(** *** A sequence against itself *)

Section Same.
Hypothesis Hab : a = b.

Lemma cell_diag (i j : nat) :
  cell eqA a b 0 0 (List.length b) i j = true ->
  cell eqA a b 0 0 (List.length b) i i = true /\ cell eqA a b 0 0 (List.length b) j j = true.
Proof.
  intros Hc. apply cell_spec in Hc. destruct Hc as [_ [Hj [x [Hai [Hbj Hp]]]]].
  split; apply cell_spec.
  - assert (Hlt : i < List.length b).
    { rewrite <- Hab. apply nth_error_Some. congruence. }
    repeat split; try lia. exists x. repeat split; try assumption. now rewrite <- Hab.
  - repeat split; try lia. exists x. repeat split; try assumption. now rewrite Hab.
Qed.

Lemma clen_pos (alo blo bhi i j : nat) :
  cell eqA a b alo blo bhi i j = true -> 1 <= clen eqA a b alo blo bhi i j.
Proof. intros Hc. rewrite clen_unfold, Hc. lia. Qed.

Lemma clen_diag :
  forall i j,
    clen eqA a b 0 0 (List.length b) i j <= clen eqA a b 0 0 (List.length b) i i
    /\ clen eqA a b 0 0 (List.length b) i j <= clen eqA a b 0 0 (List.length b) j j.
Proof.
  induction i as [|i IH]; intros j.
  - rewrite (clen_unfold 0 0 _ 0 j).
    destruct (cell eqA a b 0 0 (List.length b) 0 j) eqn:E; [|lia].
    destruct (cell_diag 0 j E) as [H1 H2].
    apply clen_pos in H1, H2. lia.
  - rewrite (clen_unfold 0 0 _ (S i) j).
    destruct (cell eqA a b 0 0 (List.length b) (S i) j) eqn:E; [|lia].
    destruct (cell_diag (S i) j E) as [H1 H2].
    destruct j as [|j].
    + apply clen_pos in H1, H2. lia.
    + rewrite (clen_unfold 0 0 _ (S i) (S i)), H1.
      rewrite (clen_unfold 0 0 _ (S j) (S j)), H2.
      destruct (IH j) as [G1 G2]. lia.
Qed.

Lemma diag_row (i : nat) (js : list nat) :
  StronglySorted lt js ->
  forall (lo : nat) (best : block),
    (forall j, In j js -> lo <= j) ->
    (forall j, lo <= j -> cell eqA a b 0 0 (List.length b) i j = true -> In j js) ->
    diag_best eqA a b best i lo ->
    diag_best eqA a b (fold_left (fun best j => upd i best j (clen eqA a b 0 0 (List.length b) i j)) js best)
              (S i) 0.
Proof.
  induction 1 as [|j js Hs IH Hsorted]; intros lo best Hlo Hcells [Hd Hmax].
  - cbn [fold_left]. split; [exact Hd|].
    intros i' j' [Hlt|[_ Hf]]; [|lia].
    destruct (Nat.eq_dec i' i) as [->|Hne]; [|apply Hmax; lia].
    destruct (Nat.lt_ge_cases j' lo) as [Hj|Hj]; [apply Hmax; lia|].
    rewrite clen_unfold.
    destruct (cell eqA a b 0 0 (List.length b) i j') eqn:E; [|lia].
    destruct (Hcells j' Hj E).
  - cbn [fold_left].
    assert (Hj : lo <= j) by (apply Hlo; now left).
    rewrite Forall_forall in Hsorted.
    apply (IH (S j)).
    + intros j' Hj'. specialize (Hsorted j' Hj'). lia.
    + intros j' Hj' Hc. destruct (Hcells j' ltac:(lia) Hc) as [Heq|Hin]; [lia|exact Hin].
    + (* the update *)
      assert (Hother : j <> i -> clen eqA a b 0 0 (List.length b) i j <= block_size best).
      { intros Hne. destruct (clen_diag i j) as [G1 G2].
        destruct (Nat.lt_ge_cases j i) as [Hlt|Hge].
        - specialize (Hmax j j (or_introl Hlt)). lia.
        - assert (Hii : clen eqA a b 0 0 (List.length b) i i <= block_size best).
          { destruct (Nat.lt_ge_cases i lo) as [Hil|Hil].
            - apply Hmax. right. split; [reflexivity|exact Hil].
            - rewrite clen_unfold.
              destruct (cell eqA a b 0 0 (List.length b) i i) eqn:E; [|lia].
              destruct (Hcells i Hil E) as [Heq|Hin]; [lia|].
              specialize (Hsorted i Hin). lia. }
          lia. }
      assert (Hkeep : forall i' j', i' < i \/ (i' = i /\ j' < lo) ->
                 clen eqA a b 0 0 (List.length b) i' j'
                 <= block_size (upd i best j (clen eqA a b 0 0 (List.length b) i j))).
      { intros i' j' Hbefore. specialize (Hmax i' j' Hbefore). unfold upd.
        destruct (block_size best <? clen eqA a b 0 0 (List.length b) i j)%nat eqn:E; [|exact Hmax].
        apply Nat.ltb_lt in E. unfold block_size at 1. cbn [snd]. lia. }
      split.
      * unfold upd.
        destruct (block_size best <? clen eqA a b 0 0 (List.length b) i j)%nat eqn:E; [|exact Hd].
        apply Nat.ltb_lt in E.
        destruct (Nat.eq_dec j i) as [->|Hne]; [reflexivity|].
        specialize (Hother Hne). lia.
      * intros i' j' [Hlt|[-> Hj']]; [apply Hkeep; now left|].
        destruct (Nat.lt_ge_cases j' lo) as [Hjl|Hjl]; [apply Hkeep; right; now split|].
        destruct (Nat.eq_dec j' j) as [->|Hne].
        -- unfold upd.
           destruct (block_size best <? clen eqA a b 0 0 (List.length b) i j)%nat eqn:E.
           ++ unfold block_size at 1. cbn [snd]. lia.
           ++ apply Nat.ltb_ge in E. exact E.
        -- rewrite (clen_unfold 0 0 _ i j').
           destruct (cell eqA a b 0 0 (List.length b) i j') eqn:E; [|lia].
           destruct (Hcells j' Hjl E) as [Heq|Hin]; [congruence|].
           specialize (Hsorted j' Hin). lia.
Qed.

Lemma visited_sorted (blo bhi i : nat) : StronglySorted lt (visited eqA a b blo bhi i).
Proof.
  unfold visited. generalize (row_indices_sorted i). generalize (row_indices eqA a b i).
  induction 1 as [|j js Hs IH Hall]; cbn [filter]; [constructor|].
  destruct (in_window blo bhi j); [|exact IH].
  constructor; [exact IH|].
  rewrite Forall_forall in *. intros x Hx. apply filter_In in Hx. apply Hall. tauto.
Qed.

Lemma diag_rows (n i0 : nat) :
  forall best,
    diag_best eqA a b best i0 0 ->
    diag_best eqA a b (scan_best eqA a b 0 0 (List.length b) (seq i0 n) best) (i0 + n) 0.
Proof.
  revert i0. induction n as [|n IH]; intros i0 best Hbest.
  - rewrite Nat.add_0_r. exact Hbest.
  - cbn [seq scan_best fold_left].
    replace (i0 + S n) with (S i0 + n) by lia.
    apply (IH (S i0)).
    apply (diag_row i0 (visited eqA a b 0 (List.length b) i0) (visited_sorted _ _ _) 0 best).
    + intros; lia.
    + intros j _ Hc. apply cell_visited in Hc. tauto.
    + exact Hbest.
Qed.

Lemma eq_at_same (i : nat) : i < List.length b -> eq_at eqA a b i i = true.
Proof.
  intros Hlt. unfold eq_at. rewrite Hab.
  destruct (nth_error b i) as [x|] eqn:E.
  - now apply eqA_spec.
  - apply nth_error_None in E. lia.
Qed.

Lemma extend_left_same :
  forall d s, d + s <= List.length b ->
              extend_left eqA a b 0 0 d d s = (0, 0, d + s).
Proof.
  induction d as [|d IH]; intros s Hle; [reflexivity|].
  cbn [extend_left].
  replace (0 <? S d)%nat with true by (symmetry; apply Nat.ltb_lt; lia).
  rewrite eq_at_same by lia. cbn [andb].
  rewrite IH by lia. f_equal. lia.
Qed.

Lemma extend_right_same :
  forall room s, s + room = List.length b ->
                 extend_right eqA a b (List.length b) (List.length b) 0 0 room s
                 = List.length b.
Proof.
  induction room as [|room IH]; intros s Hs; cbn [extend_right]; [lia|].
  cbn [Nat.add].
  replace (s <? List.length b)%nat with true by (symmetry; apply Nat.ltb_lt; lia).
  rewrite eq_at_same by lia. cbn [andb]. apply IH. lia.
Qed.

(** The longest match of a sequence with itself is the whole of it. *)
Lemma find_longest_match_same :
  find_longest_match eqA a b 0 (List.length a) 0 (List.length b)
  = (0, 0, List.length b).
Proof.
  assert (Hlen : List.length a = List.length b) by now rewrite Hab.
  unfold find_longest_match. rewrite scan_rows_pure. rewrite Hlen, Nat.sub_0_r.
  pose proof (diag_rows (List.length b) 0 (0, 0, 0)) as Hdiag.
  assert (Hin : block_in 0 (List.length b) 0 (List.length b)
                  (scan_best eqA a b 0 0 (List.length b) (seq 0 (List.length b)) (0, 0, 0))).
  { apply scan_best_in.
    - apply Forall_forall. intros i Hi. apply in_seq in Hi. lia.
    - unfold block_in, block_size. cbn [fst snd]. lia. }
  destruct (scan_best eqA a b 0 0 (List.length b) (seq 0 (List.length b)) (0, 0, 0))
    as [[besti bestj] bestsize].
  destruct Hdiag as [Hd _].
  { split; [reflexivity|]. intros i' j' [Hlt|[_ Hlt]]; lia. }
  cbn [fst snd] in Hd. subst bestj.
  unfold block_in, block_size in Hin. cbn [fst snd] in Hin.
  rewrite extend_left_same by lia.
  rewrite extend_right_same by lia. reflexivity.
Qed.

Lemma get_matching_blocks_same :
  exists blocks,
    get_matching_blocks eqA a b = Ok blocks
    /\ blocks_size blocks = List.length b.
Proof.
  destruct get_matching_blocks_terminates as [blocks [found [Hloop [Hget [Hsize _]]]]].
  exists blocks. split; [exact Hget|]. rewrite Hsize.
  replace (2 * List.length a + 1) with (S (2 * List.length a)) in Hloop by lia.
  cbn [matching_loop] in Hloop. rewrite find_longest_match_same in Hloop.
  assert (Hlen : List.length a = List.length b) by now rewrite Hab.
  destruct (List.length b =? 0)%nat eqn:E.
  - apply Nat.eqb_eq in E.
    destruct (2 * List.length a); cbn [matching_loop] in Hloop;
      inversion Hloop; subst; cbn; lia.
  - cbn [Nat.add] in Hloop.
    rewrite Hlen, Nat.ltb_irrefl in Hloop. cbn [andb app] in Hloop.
    destruct (2 * List.length b); cbn [matching_loop] in Hloop;
      inversion Hloop; subst; apply blocks_size_one.
Qed.
End Same.
End DiffFacts.

(** ** The ratio, over the reals *)

Lemma IZR_of_nat_le (n m : nat) : n <= m -> (IZR (Z.of_nat n) <= IZR (Z.of_nat m))%R.
Proof. intros Hle. apply IZR_le. lia. Qed.

Lemma _calculate_ratio_range (matches length : nat) :
  2 * matches <= length ->
  (0 <= _calculate_ratio (F:=R) matches length <= 1)%R.
Proof.
  intros Hle. unfold _calculate_ratio.
  destruct (length =? 0)%nat eqn:E; cbn [negb]; rnum; [lra|].
  apply Nat.eqb_neq in E.
  assert (Hpos : (0 < IZR (Z.of_nat length))%R) by (apply IZR_lt; lia).
  assert (Hm : (0 <= IZR (Z.of_nat matches))%R) by (apply IZR_le; lia).
  assert (H2 : (2 * IZR (Z.of_nat matches) <= IZR (Z.of_nat length))%R).
  { rewrite <- mult_IZR. apply IZR_le. lia. }
  split.
  - apply Rmult_le_pos; [lra|]. apply Rlt_le. now apply Rinv_0_lt_compat.
  - apply (Rmult_le_reg_r (IZR (Z.of_nat length))); [exact Hpos|].
    unfold Rdiv. rewrite Rmult_assoc, Rinv_l by lra. lra.
Qed.

Lemma _calculate_ratio_full (n : nat) : _calculate_ratio (F:=R) n (n + n) = 1%R.
Proof.
  unfold _calculate_ratio.
  destruct (n + n =? 0)%nat eqn:E; cbn [negb]; rnum; [reflexivity|].
  apply Nat.eqb_neq in E.
  assert (Hpos : (0 < IZR (Z.of_nat n))%R) by (apply IZR_lt; lia).
  rewrite Nat2Z.inj_add, plus_IZR. field. lra.
Qed.

Section RatioFacts.
Context {A : Type} (eqA : A -> A -> bool).
Hypothesis eqA_spec : forall x y, eqA x y = true <-> x = y.

(** [ratio] returns, and its value is between 0 and 1. *)
Lemma ratio_range (a b : list A) :
  exists x, ratio (F:=R) eqA a b = Ok x /\ (0 <= x <= 1)%R.
Proof.
  destruct (get_matching_blocks_terminates eqA eqA_spec a b)
    as [blocks [found [_ [Hget [_ [Ha Hb]]]]]].
  unfold ratio. rewrite Hget. cbn [bind]. eexists. split; [reflexivity|].
  apply _calculate_ratio_range. unfold blocks_size in Ha, Hb. lia.
Qed.

(** The ratio of a sequence with itself is 1. *)
Lemma ratio_same (a : list A) : ratio (F:=R) eqA a a = Ok 1%R.
Proof.
  destruct (get_matching_blocks_same eqA eqA_spec a a eq_refl) as [blocks [Hget Hsize]].
  unfold ratio. rewrite Hget. cbn [bind]. unfold blocks_size in Hsize.
  rewrite Hsize. now rewrite _calculate_ratio_full.
Qed.
End RatioFacts.

(** ** _fuzzy_score *)

Lemma _fuzzy_score_range (query_tokens : list string) (title : string) :
  exists x, _fuzzy_score (F:=R) query_tokens title = Ok x /\ (0 <= x <= 1)%R.
Proof.
  unfold _fuzzy_score. destruct (tokenize (Some title)) as [|t ts].
  - exists 0%R. split; [reflexivity | lra].
  - apply (ratio_range Ascii.eqb Ascii_eqb_spec).
Qed.

Lemma _fuzzy_score_same (query_tokens : list string) (title : string) :
  tokenize (Some title) <> [] ->
  sorted (py_set query_tokens) = sorted (py_set (tokenize (Some title))) ->
  _fuzzy_score (F:=R) query_tokens title = Ok 1%R.
Proof.
  intros Hne Hsame. unfold _fuzzy_score.
  destruct (tokenize (Some title)) as [|t ts]; [congruence|].
  rewrite Hsame. apply (ratio_same Ascii.eqb Ascii_eqb_spec).
Qed.

Lemma tide_diet_blocks :
  get_matching_blocks Ascii.eqb (list_ascii_of_string "tide") (list_ascii_of_string "diet")
  = Ok [(0, 3, 1); (4, 4, 0)].
Proof. vm_compute. reflexivity. Qed.

Lemma diet_tide_blocks :
  get_matching_blocks Ascii.eqb (list_ascii_of_string "diet") (list_ascii_of_string "tide")
  = Ok [(0, 2, 1); (2, 3, 1); (4, 4, 0)].
Proof. vm_compute. reflexivity. Qed.

(** C8, as stated, fails in its last part: the ratio is not symmetric.
    With the query token "tide" against the title "diet" the score is 0.25;
    with the roles swapped, the query token "diet" against the title "tide",
    it is 0.5 (in binary64 and over the reals alike). *)
Lemma fuzzy_symmetry_counterexample :
  tokenize (Some "diet") = ["diet"] /\ tokenize (Some "tide") = ["tide"]
  /\ _fuzzy_score (F:=R) ["tide"] "diet" = Ok (1 / 4)%R
  /\ _fuzzy_score (F:=R) ["diet"] "tide" = Ok (1 / 2)%R
  /\ _fuzzy_score (F:=PrimFloat.float) ["tide"] "diet" = Ok (div_int 1 4)
  /\ _fuzzy_score (F:=PrimFloat.float) ["diet"] "tide" = Ok (div_int 1 2)
  /\ _fuzzy_score (F:=R) ["tide"] "diet" <> _fuzzy_score (F:=R) ["diet"] "tide".
Proof.
  assert (H1 : _fuzzy_score (F:=R) ["tide"] "diet" = Ok (1 / 4)%R).
  { change (_fuzzy_score (F:=R) ["tide"] "diet")
      with (ratio (F:=R) Ascii.eqb (list_ascii_of_string "tide")
                  (list_ascii_of_string "diet")).
    unfold ratio. rewrite tide_diet_blocks. cbn [bind]. f_equal.
    unfold _calculate_ratio. cbn [map list_sum fold_right block_size snd Nat.add
                                  List.length list_ascii_of_string Nat.eqb negb].
    rnum. cbn [Z.of_nat Pos.of_succ_nat Pos.succ]. lra. }
  assert (H2 : _fuzzy_score (F:=R) ["diet"] "tide" = Ok (1 / 2)%R).
  { change (_fuzzy_score (F:=R) ["diet"] "tide")
      with (ratio (F:=R) Ascii.eqb (list_ascii_of_string "diet")
                  (list_ascii_of_string "tide")).
    unfold ratio. rewrite diet_tide_blocks. cbn [bind]. f_equal.
    unfold _calculate_ratio. cbn [map list_sum fold_right block_size snd Nat.add
                                  List.length list_ascii_of_string Nat.eqb negb].
    rnum. cbn [Z.of_nat Pos.of_succ_nat Pos.succ]. lra. }
  repeat split; try (vm_compute; reflexivity); try assumption.
  rewrite H1, H2. intros Heq. inversion Heq. lra.
Qed.

(** C8, amended: for every list of query tokens and every title the fuzzy
    score is computed without an error, it lies in [0, 1], and it is 1 when
    the sorted set of query tokens and the sorted set of title tokens are the
    same and not empty.  (Arithmetic over the reals; nothing is said of the
    score with the two roles swapped.) *)
Theorem fuzzy_score_range_identity (query_tokens : list string) (title : string) :
  (exists x, _fuzzy_score (F:=R) query_tokens title = Ok x /\ (0 <= x <= 1)%R)
  /\ (tokenize (Some title) <> [] ->
      sorted (py_set query_tokens) = sorted (py_set (tokenize (Some title))) ->
      _fuzzy_score (F:=R) query_tokens title = Ok 1%R).
Proof.
  split; [apply _fuzzy_score_range | apply _fuzzy_score_same].
Qed.

Lemma fuzzy_score_range_identity_witness :
  _fuzzy_score (F:=R) ["running"; "chaussure"; "running"] "Chaussure de running"
  = Ok 1%R.
Proof.
  apply (proj2 (fuzzy_score_range_identity ["running"; "chaussure"; "running"]
                                           "Chaussure de running")).
  - vm_compute. discriminate.
  - vm_compute. reflexivity.
Defined.

(** ** _cosine_similarity *)

Lemma cauchy_schwarz (l : list (R * R)) :
  (Rsum (map (fun p => fst p * snd p) l)
   <= sqrt (Rsum (squares (map fst l))) * sqrt (Rsum (squares (map snd l))))%R.
Proof.
  induction l as [|[u v] l IH]; cbn [map squares Rsum fold_right fst snd].
  - rewrite sqrt_0. lra.
  - fold (Rsum (map (fun p => fst p * snd p) l))%R.
    fold (squares (map fst l)). fold (squares (map snd l)).
    fold (Rsum (squares (map fst l))). fold (Rsum (squares (map snd l))).
    set (S := Rsum (map (fun p => (fst p * snd p)%R) l)) in *.
    pose proof (Rsum_squares_nonneg (map fst l)) as HA.
    pose proof (Rsum_squares_nonneg (map snd l)) as HB.
    fold (squares (map fst l)) in HA. fold (squares (map snd l)) in HB.
    set (A := Rsum (squares (map fst l))) in *.
    set (B := Rsum (squares (map snd l))) in *.
    pose proof (sqrt_pos A) as Hx. pose proof (sqrt_pos B) as Hy.
    pose proof (sqrt_sqrt A HA) as Hxx. pose proof (sqrt_sqrt B HB) as Hyy.
    set (x := sqrt A) in *. set (y := sqrt B) in *.
    rewrite <- sqrt_mult by nra.
    apply Rle_trans with (u * v + x * y)%R; [lra|].
    apply Rle_trans with (Rabs (u * v + x * y)); [apply Rle_abs|].
    rewrite <- sqrt_Rsqr_abs. apply sqrt_le_1_alt. unfold Rsqr.
    pose proof (Rle_0_sqr (u * y - v * x)) as Hsq. unfold Rsqr in Hsq.
    rewrite <- Hxx, <- Hyy. lra.
Qed.

Lemma sget_without (k k' : string) (vector : dict string R) :
  k' <> k -> sget (without k vector) k' = sget vector k'.
Proof.
  intros Hne. unfold sget. induction vector as [|[k0 v0] vector IH]; [reflexivity|].
  cbn [without filter fst dict_get].
  destruct (String.eqb k0 k) eqn:E; cbn [negb].
  - apply String.eqb_eq in E. subst k0.
    rewrite (proj2 (String.eqb_neq k' k) Hne). exact IH.
  - cbn [dict_get]. destruct (String.eqb k' k0); [reflexivity | exact IH].
Qed.

Lemma without_squares_le (k : string) (vector : dict string R) :
  (Rsum (squares (dict_values (without k vector)))
   <= Rsum (squares (dict_values vector)))%R.
Proof.
  induction vector as [|[k0 v0] vector IH]; cbn [without filter fst]; [lra|].
  fold (without k vector).
  destruct (negb (String.eqb k0 k)); cbn [dict_values map squares Rsum fold_right snd];
    fold (dict_values vector); fold (squares (dict_values vector));
    fold (Rsum (squares (dict_values vector)));
    try (fold (dict_values (without k vector));
         fold (squares (dict_values (without k vector)));
         fold (Rsum (squares (dict_values (without k vector)))));
    nra.
Qed.

Lemma split_key (k : string) (vector : dict string R) :
  (sget_or vector k 0 * sget_or vector k 0
   + Rsum (squares (dict_values (without k vector)))
   <= Rsum (squares (dict_values vector)))%R.
Proof.
  unfold sget_or, dict_get_or.
  induction vector as [|[k0 v0] vector IH]; cbn [without filter fst dict_get].
  - cbn. lra.
  - fold (without k vector).
    rewrite (String.eqb_sym k0 k).
    destruct (String.eqb k k0) eqn:E; cbn [negb].
    + pose proof (without_squares_le k vector) as Hle.
      cbn [dict_values map squares Rsum fold_right snd].
      fold (dict_values vector). fold (squares (dict_values vector)).
      fold (Rsum (squares (dict_values vector))). lra.
    + cbn [dict_values map squares Rsum fold_right snd].
      fold (dict_values vector). fold (squares (dict_values vector)).
      fold (Rsum (squares (dict_values vector))).
      fold (dict_values (without k vector)).
      fold (squares (dict_values (without k vector))).
      fold (Rsum (squares (dict_values (without k vector)))).
      unfold sget in IH. lra.
Qed.

(** The weights a vector gives to distinct keys are among its weights. *)
Lemma looked_up_squares_le (keys : list string) :
  NoDup keys ->
  forall vector : dict string R,
    (Rsum (squares (map (fun k => sget_or vector k 0%R) keys))
     <= Rsum (squares (dict_values vector)))%R.
Proof.
  induction 1 as [|k keys Hnotin Hnd IH]; intros vector.
  - cbn. apply Rsum_squares_nonneg.
  - cbn [map squares Rsum fold_right].
    fold (squares (map (fun k => sget_or vector k 0%R) keys)).
    fold (Rsum (squares (map (fun k => sget_or vector k 0%R) keys))).
    assert (Hsame : map (fun k' => sget_or vector k' 0%R) keys
                    = map (fun k' => sget_or (without k vector) k' 0%R) keys).
    { apply map_ext_in. intros k' Hk'. unfold sget_or, dict_get_or.
      fold (sget vector k'). fold (sget (without k vector) k').
      rewrite sget_without; [reflexivity|]. intros ->. contradiction. }
    rewrite Hsame. specialize (IH (without k vector)).
    pose proof (split_key k vector). lra.
Qed.

Lemma sget_or_nonneg (vector : dict string R) (k : string) :
  nonneg vector -> (0 <= sget_or vector k 0)%R.
Proof.
  intros Hv. unfold sget_or, dict_get_or.
  destruct (dict_get String.eqb vector k) as [v|] eqn:E; [|lra].
  apply (dict_get_In String.eqb String_eqb_spec) in E.
  unfold nonneg in Hv. rewrite Forall_forall in Hv. apply (Hv (k, v) E).
Qed.

Lemma _cosine_similarity_R (qvec dvec : dict string R) (qnorm dnorm : R) :
  _cosine_similarity qvec qnorm dvec dnorm
  = if (Reqb qnorm 0 || Reqb dnorm 0)%bool then Ok 0%R
    else Ok (dot qvec dvec / (qnorm * dnorm))%R.
Proof.
  unfold _cosine_similarity, py_div. rnum.
  destruct (Reqb qnorm 0) eqn:Eq; cbn [orb]; [reflexivity|].
  destruct (Reqb dnorm 0) eqn:Ed; [reflexivity|].
  apply Reqb_false in Eq, Ed.
  assert (Hprod : Reqb (qnorm * dnorm) 0 = false).
  { apply Reqb_false. now apply Rmult_integral_contrapositive. }
  rewrite Hprod. rewrite py_sum_Rsum. unfold dot. f_equal. f_equal. f_equal.
  apply map_ext. now intros [token weight].
Qed.

Lemma dot_nonneg (qvec dvec : dict string R) :
  nonneg qvec -> nonneg dvec -> (0 <= dot qvec dvec)%R.
Proof.
  intros Hq Hd. unfold dot. apply Rsum_nonneg.
  apply Forall_forall. intros x Hx. apply in_map_iff in Hx.
  destruct Hx as [[k v] [<- Hin]]. cbn [fst snd].
  unfold nonneg in Hq. rewrite Forall_forall in Hq. specialize (Hq (k, v) Hin).
  cbn [snd] in Hq. pose proof (sget_or_nonneg dvec k Hd). nra.
Qed.

Lemma dot_le_norms (qvec dvec : dict string R) :
  NoDup (dict_keys qvec) ->
  (dot qvec dvec <= R_norm qvec * R_norm dvec)%R.
Proof.
  intros Hnd. unfold dot.
  pose proof (cauchy_schwarz
                (map (fun item : string * R => (snd item, sget_or dvec (fst item) 0%R)) qvec))
    as Hcs.
  rewrite !map_map in Hcs. cbn [fst snd] in Hcs.
  eapply Rle_trans; [exact Hcs|].
  unfold R_norm. fold (squares (dict_values qvec)). fold (squares (dict_values dvec)).
  apply Rmult_le_compat.
  - apply sqrt_pos.
  - apply sqrt_pos.
  - apply Req_le. reflexivity.
  - apply sqrt_le_1_alt.
    pose proof (looked_up_squares_le (dict_keys qvec) Hnd dvec) as Hle.
    unfold dict_keys in Hle. rewrite map_map in Hle. exact Hle.
Qed.

Lemma dot_self (vector : dict string R) :
  NoDup (dict_keys vector) ->
  dot vector vector = Rsum (squares (dict_values vector)).
Proof.
  intros Hnd. unfold dot, squares, dict_values. rewrite map_map. f_equal.
  apply map_ext_in. intros [k v] Hin. cbn [fst snd].
  unfold sget_or, dict_get_or.
  now rewrite (dict_get_NoDup String.eqb String_eqb_spec vector k v Hnd Hin).
Qed.

Lemma R_norm_nonneg (vector : dict string R) : (0 <= R_norm vector)%R.
Proof. unfold R_norm. apply sqrt_pos. Qed.

(** C4, as stated, fails in binary64, the arithmetic of the program: for
    the vector [three_ones] against itself, with its norm as computed by
    [math.sqrt(sum(value * value ...))], the result is
    1.0000000000000002: it is neither at most 1 nor equal to 1. *)
Lemma cosine_binary64_counterexample :
  exists norm x,
    norm_of three_ones = Ok norm
    /\ _cosine_similarity three_ones norm three_ones norm = Ok x
    /\ fleb x (of_int 1) = false
    /\ feqb x (of_int 1) = false
    /\ x = fadd (of_int 1) (div_int 1 4503599627370496).
Proof.
  eexists. eexists.
  split; [vm_compute; reflexivity|].
  split; [vm_compute; reflexivity|].
  repeat split; vm_compute; reflexivity.
Qed.

(** C4, amended: with the floats read as the real numbers they stand for
    (no rounding), for two sparse vectors with weights that are not negative
    and their norms, [_cosine_similarity] returns a value in [0, 1], and 1
    when the two vectors are the same and not zero.  In every arithmetic
    (binary64 included) it returns exactly 0, without dividing, whenever one
    of the norms equals 0; over the reals it never divides by zero. *)
Theorem cosine_similarity_real (qvec dvec : dict string R) :
  NoDup (dict_keys qvec) -> nonneg qvec -> nonneg dvec ->
  (exists x, _cosine_similarity qvec (R_norm qvec) dvec (R_norm dvec) = Ok x
             /\ (0 <= x <= 1)%R)
  /\ (R_norm qvec <> 0%R ->
      _cosine_similarity qvec (R_norm qvec) qvec (R_norm qvec) = Ok 1%R)
  /\ (forall qnorm dnorm : R,
         qnorm = 0%R \/ dnorm = 0%R ->
         _cosine_similarity qvec qnorm dvec dnorm = Ok 0%R)
  /\ (forall qnorm dnorm : R,
         exists x, _cosine_similarity qvec qnorm dvec dnorm = Ok x)
  /\ (forall (F : Type) (numF : Num F) (qv dv : dict string F) (qnorm dnorm : F),
         (feqb qnorm zero || feqb dnorm zero)%bool = true ->
         _cosine_similarity qv qnorm dv dnorm = Ok zero).
Proof.
  intros Hnd Hq Hd. split; [|split; [|split; [|split]]].
  - rewrite _cosine_similarity_R.
    destruct (Reqb (R_norm qvec) 0 || Reqb (R_norm dvec) 0)%bool eqn:E.
    + exists 0%R. split; [reflexivity | lra].
    + apply orb_false_iff in E. destruct E as [Eq Ed].
      apply Reqb_false in Eq, Ed.
      assert (Hqn : (0 < R_norm qvec)%R) by (pose proof (R_norm_nonneg qvec); lra).
      assert (Hdn : (0 < R_norm dvec)%R) by (pose proof (R_norm_nonneg dvec); lra).
      eexists. split; [reflexivity|].
      pose proof (dot_nonneg qvec dvec Hq Hd) as H0.
      pose proof (dot_le_norms qvec dvec Hnd) as H1.
      assert (Hprod : (0 < R_norm qvec * R_norm dvec)%R) by now apply Rmult_lt_0_compat.
      split.
      * apply Rmult_le_pos; [exact H0|]. apply Rlt_le. now apply Rinv_0_lt_compat.
      * apply (Rmult_le_reg_r (R_norm qvec * R_norm dvec)); [exact Hprod|].
        unfold Rdiv. rewrite Rmult_assoc, Rinv_l by lra. lra.
  - intros Hne. rewrite _cosine_similarity_R.
    rewrite (proj2 (Reqb_false _ _) Hne). cbn [orb]. f_equal.
    rewrite (dot_self qvec Hnd). unfold R_norm.
    fold (squares (dict_values qvec)).
    rewrite sqrt_sqrt by apply Rsum_squares_nonneg.
    apply Rdiv_diag. intros Hz. apply Hne. unfold R_norm.
    fold (squares (dict_values qvec)). rewrite Hz. apply sqrt_0.
  - intros qnorm dnorm Hz. rewrite _cosine_similarity_R.
    destruct Hz as [-> | ->].
    + now rewrite (proj2 (Reqb_true 0 0) eq_refl).
    + rewrite (proj2 (Reqb_true 0 0) eq_refl). now rewrite orb_true_r.
  - intros qnorm dnorm. rewrite _cosine_similarity_R.
    destruct (Reqb qnorm 0 || Reqb dnorm 0)%bool; eexists; reflexivity.
  - intros F numF qv dv qnorm dnorm Hz. unfold _cosine_similarity. now rewrite Hz.
Qed.

Lemma cosine_similarity_real_witness :
  exists x, _cosine_similarity vec_ab (R_norm vec_ab) vec_b (R_norm vec_b) = Ok x
            /\ (0 <= x <= 1)%R.
Proof.
  apply (cosine_similarity_real vec_ab vec_b).
  - repeat constructor; simpl; intuition discriminate.
  - repeat constructor; simpl; lra.
  - repeat constructor; simpl; lra.
Defined.

(** ** The IDF table *)

Lemma str_in_In (x : string) (l : list string) : str_in x l = true <-> In x l.
Proof. unfold str_in. apply (existsb_keq_In String.eqb String_eqb_spec). Qed.

Lemma py_set_In (l : list string) (x : string) : In x (py_set l) <-> In x l.
Proof.
  induction l as [|y l IH]; cbn [py_set]; [tauto|].
  cbn [In]. rewrite filter_In, IH. split.
  - intros [H|[H _]]; tauto.
  - intros [H|H]; [now left|].
    destruct (String.eqb x y) eqn:E.
    + apply String.eqb_eq in E. subst y. now left.
    + right. split; [exact H | reflexivity].
Qed.

Lemma py_set_NoDup (l : list string) : NoDup (py_set l).
Proof.
  induction l as [|y l IH]; cbn [py_set]; constructor.
  - rewrite filter_In. intros [_ H]. cbv beta in H. now rewrite String.eqb_refl in H.
  - now apply NoDup_filter.
Qed.

Lemma count_doc_get (tokens : list string) :
  NoDup tokens ->
  forall (doc_freq : dict string nat) (t : string),
    sget (count_doc doc_freq tokens) t
    = if str_in t tokens then Some (sget_or doc_freq t 0 + 1) else sget doc_freq t.
Proof.
  induction 1 as [|x tokens Hnotin Hnd IH]; intros doc_freq t; [reflexivity|].
  cbn [count_doc fold_left]. fold (count_doc (sset doc_freq x (sget_or doc_freq x 0 + 1)) tokens).
  rewrite IH. cbn [str_in existsb]. fold (str_in t tokens).
  destruct (str_in t tokens) eqn:Ein.
  - rewrite orb_true_r. apply str_in_In in Ein.
    assert (Hne : t <> x) by (intros ->; contradiction).
    unfold sget_or, sset. now rewrite (dict_get_or_set_other String.eqb String_eqb_spec).
  - rewrite orb_false_r. destruct (String.eqb t x) eqn:E.
    + apply String.eqb_eq in E. subst x. unfold sget, sset.
      now rewrite (dict_get_set_same String.eqb String_eqb_spec).
    + apply String.eqb_neq in E. unfold sget, sset.
      now rewrite (dict_get_set_other String.eqb String_eqb_spec).
Qed.

Lemma count_doc_NoDup (tokens : list string) :
  forall doc_freq, NoDup (dict_keys doc_freq) -> NoDup (dict_keys (count_doc doc_freq tokens)).
Proof.
  induction tokens as [|x tokens IH]; intros doc_freq Hnd; [exact Hnd|].
  cbn [count_doc fold_left]. apply IH.
  apply (dict_set_NoDup String.eqb String_eqb_spec). exact Hnd.
Qed.

Lemma doc_freq_from_get (tokenized_docs : list (list string)) :
  forall (doc_freq : dict string nat) (t : string),
    sget (doc_freq_from doc_freq tokenized_docs) t
    = match sget doc_freq t with
      | Some c => Some (c + df t tokenized_docs)
      | None => if (df t tokenized_docs =? 0)%nat then None
                else Some (df t tokenized_docs)
      end.
Proof.
  induction tokenized_docs as [|d docs IH]; intros doc_freq t.
  - unfold doc_freq_from, df. cbn [fold_left filter List.length].
    destruct (sget doc_freq t); [f_equal; lia | reflexivity].
  - cbn [doc_freq_from fold_left]. fold (doc_freq_from (count_doc doc_freq (py_set d)) docs).
    rewrite IH, (count_doc_get (py_set d) (py_set_NoDup d)).
    unfold df. cbn [filter].
    assert (Hin : str_in t (py_set d) = str_in t d).
    { destruct (str_in t d) eqn:E.
      - apply str_in_In. apply py_set_In. now apply str_in_In.
      - destruct (str_in t (py_set d)) eqn:E'; [|reflexivity].
        apply (proj1 (str_in_In _ _)) in E'. apply (proj1 (py_set_In _ _)) in E'.
        apply (proj2 (str_in_In _ _)) in E'. congruence. }
    rewrite Hin. unfold sget_or, dict_get_or. fold (sget doc_freq t).
    destruct (str_in t d); cbn [List.length].
    + destruct (sget doc_freq t); cbn [Nat.eqb]; f_equal; lia.
    + reflexivity.
Qed.

Lemma doc_freq_from_NoDup (tokenized_docs : list (list string)) :
  forall doc_freq,
    NoDup (dict_keys doc_freq) -> NoDup (dict_keys (doc_freq_from doc_freq tokenized_docs)).
Proof.
  induction tokenized_docs as [|d docs IH]; intros doc_freq Hnd; [exact Hnd|].
  cbn [doc_freq_from fold_left]. apply IH. now apply count_doc_NoDup.
Qed.

Lemma doc_freq_of_get (tokenized_docs : list (list string)) (t : string) :
  sget (doc_freq_of tokenized_docs) t
  = if (df t tokenized_docs =? 0)%nat then None else Some (df t tokenized_docs).
Proof. apply (doc_freq_from_get tokenized_docs [] t). Qed.

Lemma doc_freq_of_NoDup (tokenized_docs : list (list string)) :
  NoDup (dict_keys (doc_freq_of tokenized_docs)).
Proof. apply (doc_freq_from_NoDup tokenized_docs []). constructor. Qed.

(** A dict filled from the items of another one. *)
Lemma fold_sset_get {V W : Type} (g : V -> W) (d : dict string V) :
  NoDup (dict_keys d) ->
  forall (acc : dict string W) (t : string),
    sget (fold_left (fun acc (kv : string * V) => sset acc (fst kv) (g (snd kv))) d acc) t
    = match sget d t with
      | Some v => Some (g v)
      | None => sget acc t
      end.
Proof.
  induction d as [|[k v] d IH]; intros Hnd acc t; [reflexivity|].
  inversion Hnd as [|? ? Hnotin Hnd']; subst.
  cbn [fold_left fst snd]. rewrite (IH Hnd').
  change (sget ((k, v) :: d) t) with (if String.eqb t k then Some v else sget d t).
  destruct (String.eqb t k) eqn:E.
  - apply String.eqb_eq in E. subst k.
    assert (Hnone : sget d t = None).
    { apply (dict_get_None String.eqb String_eqb_spec). exact Hnotin. }
    rewrite Hnone. unfold sget, sset.
    apply (dict_get_set_same String.eqb String_eqb_spec).
  - apply String.eqb_neq in E. destruct (sget d t); [reflexivity|].
    unfold sget, sset. now apply (dict_get_set_other String.eqb String_eqb_spec).
Qed.

Lemma idf_table_get (tokenized_docs : list (list string)) (t : string) :
  sget (idf_table tokenized_docs) t
  = if (df t tokenized_docs =? 0)%nat then None
    else Some (idf_of (List.length tokenized_docs) (df t tokenized_docs)).
Proof.
  unfold idf_table.
  rewrite (fold_sset_get (idf_of (List.length tokenized_docs)) (doc_freq_of tokenized_docs)
                         (doc_freq_of_NoDup tokenized_docs)).
  rewrite doc_freq_of_get. now destruct (df t tokenized_docs =? 0)%nat.
Qed.

Lemma df_le (t : string) (tokenized_docs : list (list string)) :
  df t tokenized_docs <= List.length tokenized_docs.
Proof. apply filter_length_le. Qed.

Lemma df_pos (t : string) (tokenized_docs : list (list string)) :
  0 < df t tokenized_docs <-> exists tokens, In tokens tokenized_docs /\ In t tokens.
Proof.
  unfold df. split.
  - destruct (filter (str_in t) tokenized_docs) as [|d l] eqn:E; cbn; [lia|].
    intros _. exists d.
    assert (Hd : In d (filter (str_in t) tokenized_docs)) by (rewrite E; now left).
    apply filter_In in Hd. destruct Hd as [Hd Ht]. apply str_in_In in Ht. tauto.
  - intros [d [Hd Ht]].
    assert (Hin : In d (filter (str_in t) tokenized_docs)).
    { apply filter_In. split; [exact Hd | now apply str_in_In]. }
    destruct (filter (str_in t) tokenized_docs); [destruct Hin | cbn; lia].
Qed.

Lemma idf_of_formula (doc_count freq : nat) :
  idf_of doc_count freq = (ln ((1 + INR doc_count) / (1 + INR freq)) + 1)%R.
Proof.
  unfold idf_of. now rewrite !plus_IZR, <- !INR_IZR_INZ.
Qed.

Lemma idf_of_pos (doc_count freq : nat) :
  freq <= doc_count -> (0 < idf_of doc_count freq)%R.
Proof.
  intros Hle. unfold idf_of.
  assert (Hden : (0 < IZR (1 + Z.of_nat freq))%R) by (apply IZR_lt; lia).
  assert (Hnum : (IZR (1 + Z.of_nat freq) <= IZR (1 + Z.of_nat doc_count))%R)
    by (apply IZR_le; lia).
  assert (Hone : (1 <= IZR (1 + Z.of_nat doc_count) / IZR (1 + Z.of_nat freq))%R).
  { apply (Rmult_le_reg_r (IZR (1 + Z.of_nat freq))); [exact Hden|].
    unfold Rdiv. rewrite Rmult_assoc, Rinv_l by lra. lra. }
  assert (Hln : (0 <= ln (IZR (1 + Z.of_nat doc_count) / IZR (1 + Z.of_nat freq)))%R).
  { rewrite <- ln_1. destruct Hone as [Hlt|Heq].
    - apply Rlt_le. apply ln_increasing; lra.
    - rewrite <- Heq. lra. }
  lra.
Qed.

(** C5: [_build_tfidf] returns, and the IDF table it stores has exactly the
    tokens that occur in a document as its keys; a token [t] is mapped to
    ln((1 + N) / (1 + df(t))) + 1, where N is the number of documents and
    df(t) the number of documents that contain [t]; every value of the table
    is greater than 0.  (Arithmetic over the reals.) *)
Theorem build_tfidf_idf (tokenized_docs : list (list string))
        (self : ProductSearchEngine R) :
  exists self',
    _build_tfidf tokenized_docs self = (Ok tt, self')
    /\ (forall t, sget (idf self') t <> None
                  <-> exists tokens, In tokens tokenized_docs /\ In t tokens)
    /\ (forall t, 0 < df t tokenized_docs ->
                  sget (idf self') t
                  = Some (ln ((1 + INR (List.length tokenized_docs))
                              / (1 + INR (df t tokenized_docs))) + 1)%R)
    /\ (forall t v, sget (idf self') t = Some v -> (0 < v)%R).
Proof.
  exists (built_index self tokenized_docs).
  split; [apply _build_tfidf_ok|].
  cbn [built_index with_index idf].
  split; [|split].
  - intros t. rewrite idf_table_get, <- df_pos.
    destruct (df t tokenized_docs =? 0)%nat eqn:E.
    + apply Nat.eqb_eq in E. split; [congruence | lia].
    + apply Nat.eqb_neq in E. split; [lia | discriminate].
  - intros t Hpos. rewrite idf_table_get.
    rewrite (proj2 (Nat.eqb_neq _ _)) by lia. now rewrite idf_of_formula.
  - intros t v. rewrite idf_table_get.
    destruct (df t tokenized_docs =? 0)%nat; [discriminate|].
    intros Hv. inversion Hv; subst. apply idf_of_pos. apply df_le.
Qed.

(** ** search *)

Section SortFacts.
Context {F : Type} `{Num F}.

Lemma insert_by_score_In (x y : SearchResult F) (l : list (SearchResult F)) :
  In y (insert_by_score x l) <-> y = x \/ In y l.
Proof.
  induction l as [|z l IH]; cbn [insert_by_score].
  - cbn. intuition congruence.
  - destruct (fltb (score x) (score z)); cbn [In]; [rewrite IH|]; intuition congruence.
Qed.

Lemma sort_by_score_In (y : SearchResult F) (l : list (SearchResult F)) :
  In y (sort_by_score l) <-> In y l.
Proof.
  induction l as [|x l IH]; cbn [sort_by_score]; [tauto|].
  rewrite insert_by_score_In, IH. cbn [In]. intuition congruence.
Qed.

Lemma insert_by_score_length (x : SearchResult F) (l : list (SearchResult F)) :
  List.length (insert_by_score x l) = S (List.length l).
Proof.
  induction l as [|z l IH]; cbn [insert_by_score]; [reflexivity|].
  destruct (fltb (score x) (score z)); cbn [List.length]; [now rewrite IH | reflexivity].
Qed.

Lemma sort_by_score_length (l : list (SearchResult F)) :
  List.length (sort_by_score l) = List.length l.
Proof.
  induction l as [|x l IH]; cbn [sort_by_score]; [reflexivity|].
  now rewrite insert_by_score_length, IH.
Qed.
End SortFacts.

Lemma firstn_In {X : Type} (n : nat) (l : list X) (x : X) : In x (firstn n l) -> In x l.
Proof.
  revert l. induction n as [|n IH]; intros [|y l]; cbn [firstn In]; try tauto.
  intros [H|H]; [now left | right; now apply IH].
Qed.

Lemma slice_to_In {X : Type} (l : list X) (n : Z) (x : X) : In x (slice_to l n) -> In x l.
Proof. unfold slice_to. destruct (0 <=? n)%Z; apply firstn_In. Qed.


Lemma read_rows_lengths {F : Type} `{PyMath F} (columns : dict string (option string))
      (rows : list csv_row) :
  forall (idx : nat) (acc acc' : load_acc (F:=F)),
    read_rows columns idx rows acc = Ok acc' ->
    List.length (snd acc) = List.length (fst (fst acc)) ->
    List.length (snd acc') = List.length (fst (fst acc')).
Proof.
  induction rows as [|row rows IH]; intros idx [[ps cs] ds] acc' Hrun Hlen.
  - simpl in Hrun. inversion Hrun; subst. exact Hlen.
  - cbn [read_rows] in Hrun.
    apply bind_Ok in Hrun. destruct Hrun as [title [Htitle Hrun]].
    destruct (truthy title); cbn [negb] in Hrun.
    + repeat (apply bind_Ok in Hrun; destruct Hrun as [? [_ Hrun]]).
      apply IH in Hrun; [exact Hrun|]. cbn [fst snd] in *.
      rewrite !length_app. cbn [List.length]. lia.
    + apply IH in Hrun; [exact Hrun | exact Hlen].
Qed.

(** A successful load leaves a well-formed index. *)
Lemma load_data_wf (file : option DictReader) (clock : R * R)
      (self self' : ProductSearchEngine R) :
  load_data file clock self = (Ok tt, self') -> index_wf self'.
Proof.
  destruct file as [reader|]; [|discriminate].
  intros Hrun. destruct (load_data_success _ _ _ _ Hrun) as [ps [cs [ds [Hrows [_ ->]]]]].
  apply read_rows_lengths in Hrows; [|reflexivity]. cbn [fst snd] in Hrows.
  unfold index_wf, loaded_state. cbn [doc_vectors doc_norms products].
  rewrite !length_map. tauto.
Qed.

Lemma _query_vector_ok (self : ProductSearchEngine R) (query_tokens : list string) :
  _query_vector self query_tokens
  = Ok (query_vector_of self query_tokens, R_norm (query_vector_of self query_tokens)).
Proof.
  unfold _query_vector. fold (query_vector_of self query_tokens).
  now rewrite norm_of_ok.
Qed.

Lemma _cosine_similarity_ok (qvec dvec : dict string R) (qnorm dnorm : R) :
  exists x, _cosine_similarity qvec qnorm dvec dnorm = Ok x.
Proof.
  rewrite _cosine_similarity_R.
  destruct (Reqb qnorm 0 || Reqb dnorm 0)%bool; eexists; reflexivity.
Qed.

Section SearchFacts.
Variables (self : ProductSearchEngine R) (query_tokens : list string)
          (qvec : dict string R) (qnorm : R).

Lemma score_product_ok (idx : nat) (p : Product R) :
  idx < List.length (doc_vectors self) ->
  idx < List.length (doc_norms self) ->
  exists r, score_product self query_tokens qvec qnorm idx p = Ok r.
Proof.
  intros Hv Hn. unfold score_product, subscript.
  destruct (nth_error (doc_vectors self) idx) as [dvec|] eqn:Ev;
    [|apply nth_error_None in Ev; lia].
  destruct (nth_error (doc_norms self) idx) as [dnorm|] eqn:En;
    [|apply nth_error_None in En; lia].
  cbn [bind].
  destruct (_cosine_similarity_ok qvec dvec qnorm dnorm) as [tfidf ->].
  destruct (_fuzzy_score_range query_tokens (p_title p)) as [fuzzy [-> _]].
  cbn [bind].
  match goal with |- context [if ?c then _ else _] => destruct c end;
    eexists; reflexivity.
Qed.

Lemma score_product_Some (idx : nat) (p : Product R) (r : SearchResult R) :
  score_product self query_tokens qvec qnorm idx p = Ok (Some r) ->
  product r = p /\ scored self query_tokens qvec qnorm idx r.
Proof.
  unfold score_product, subscript. intros Hrun.
  destruct (nth_error (doc_vectors self) idx) as [dvec|] eqn:Ev; [|discriminate].
  destruct (nth_error (doc_norms self) idx) as [dnorm|] eqn:En; [|discriminate].
  cbn [bind] in Hrun.
  destruct (_cosine_similarity qvec qnorm dvec dnorm) as [tfidf|] eqn:Ec; [|discriminate].
  cbn [bind] in Hrun.
  destruct (_fuzzy_score query_tokens (p_title p)) as [fuzzy|] eqn:Ef; [|discriminate].
  cbn [bind] in Hrun.
  match type of Hrun with (if ?c then _ else _) = _ => destruct c eqn:Ele end;
    [discriminate|].
  inversion Hrun; subst r. cbn [product]. split; [reflexivity|].
  exists dvec, dnorm.
  cbn [product score tfidf_score fuzzy_score category_bonus].
  repeat split; try assumption; try reflexivity.
  rnum. apply Rleb_false in Ele. lra.
Qed.

Variables (min_price max_price : option R) (category : option string)
          (min_rating : option R).

Lemma search_loop_pure (rest : list (Product R)) :
  forall (idx : nat) (results : list (SearchResult R)),
    idx + List.length rest <= List.length (doc_vectors self) ->
    idx + List.length rest <= List.length (doc_norms self) ->
    search_loop self query_tokens qvec qnorm min_price max_price category min_rating
                idx rest results
    = Ok (results ++ hits self query_tokens qvec qnorm min_price max_price category min_rating idx rest).
Proof.
  induction rest as [|p rest IH]; intros idx results Hv Hn.
  - cbn. now rewrite app_nil_r.
  - cbn [search_loop hits List.length] in *.
    destruct (passes_filters min_price max_price category min_rating p); cbn [negb].
    + destruct (score_product_ok idx p ltac:(lia) ltac:(lia)) as [r Hr].
      rewrite Hr. cbn [bind]. rewrite IH by lia.
      destruct r as [r|]; [now rewrite <- app_assoc | reflexivity].
    + rewrite IH by lia. reflexivity.
Qed.

Lemma hits_In (rest : list (Product R)) :
  forall (idx : nat) (r : SearchResult R),
    In r (hits self query_tokens qvec qnorm min_price max_price category min_rating idx rest) ->
    exists i, nth_error rest i = Some (product r)
              /\ passes_filters min_price max_price category min_rating (product r) = true
              /\ scored self query_tokens qvec qnorm (idx + i) r.
Proof.
  induction rest as [|p rest IH]; intros idx r Hin; [destruct Hin|].
  cbn [hits] in Hin. apply in_app_or in Hin. destruct Hin as [Hin|Hin].
  - destruct (passes_filters min_price max_price category min_rating p) eqn:Ep;
      [|destruct Hin].
    destruct (score_product self query_tokens qvec qnorm idx p) as [[r'|]|] eqn:Es;
      [destruct Hin as [Hin|[]] | destruct Hin | destruct Hin].
    subst r'. apply score_product_Some in Es. destruct Es as [Hp Hs].
    exists 0. rewrite Nat.add_0_r, Hp. cbn [nth_error]. now repeat split.
  - destruct (IH (S idx) r Hin) as [i [Hi [Hp Hs]]].
    exists (S i). cbn [nth_error]. replace (idx + S i) with (S idx + i) by lia.
    now repeat split.
Qed.
End SearchFacts.

(** [search] on a query that has tokens, over a well-formed index. *)
Lemma search_hits (self : ProductSearchEngine R) (query : string)
      (min_price max_price : option R) (category : option string)
      (min_rating : option R) (debug : bool) (limit : Z) (clock : R * R) :
  index_wf self ->
  tokenize (Some query) <> [] ->
  exists diagnostics,
    search self query min_price max_price category min_rating debug limit clock
    = Ok (slice_to
            (sort_by_score
               (hits self (tokenize (Some query))
                     (query_vector_of self (tokenize (Some query)))
                     (R_norm (query_vector_of self (tokenize (Some query))))
                     min_price max_price category min_rating 0 (products self)))
            limit,
          diagnostics).
Proof.
  intros [Hv Hn] Htokens. unfold search.
  destruct (tokenize (Some query)) as [|t ts] eqn:Et; [congruence|].
  rewrite _query_vector_ok. cbn [bind].
  rewrite search_loop_pure by (cbn [Nat.add]; lia).
  cbn [bind app]. eexists. reflexivity.
Qed.

(** [search] returns on every query, over a well-formed index. *)
Lemma search_total (self : ProductSearchEngine R) (query : string)
      (min_price max_price : option R) (category : option string)
      (min_rating : option R) (debug : bool) (limit : Z) (clock : R * R) :
  index_wf self ->
  exists results diagnostics,
    search self query min_price max_price category min_rating debug limit clock
    = Ok (results, diagnostics).
Proof.
  intros Hwf. destruct (tokenize (Some query)) as [|t ts] eqn:Et.
  - unfold search. rewrite Et. eexists. eexists. reflexivity.
  - destruct (search_hits self query min_price max_price category min_rating debug
                          limit clock Hwf) as [d Hd]; [congruence|].
    eexists. eexists. exact Hd.
Qed.

(** The results of [search] are among the hits of the loop. *)
Lemma search_results (self : ProductSearchEngine R) (query : string)
      (min_price max_price : option R) (category : option string)
      (min_rating : option R) (debug : bool) (limit : Z) (clock : R * R)
      (results : list (SearchResult R)) (diagnostics : Diagnostics R) :
  index_wf self ->
  search self query min_price max_price category min_rating debug limit clock
  = Ok (results, diagnostics) ->
  forall r, In r results ->
    In r (hits self (tokenize (Some query))
               (query_vector_of self (tokenize (Some query)))
               (R_norm (query_vector_of self (tokenize (Some query))))
               min_price max_price category min_rating 0 (products self)).
Proof.
  intros Hwf Hrun r Hr.
  destruct (tokenize (Some query)) as [|t ts] eqn:Et.
  - unfold search in Hrun. rewrite Et in Hrun. inversion Hrun; subst. destruct Hr.
  - destruct (search_hits self query min_price max_price category min_rating debug
                          limit clock Hwf) as [d Hd]; [congruence|].
    rewrite Hd in Hrun. inversion Hrun; subst. rewrite Et in Hr.
    apply slice_to_In in Hr. apply (proj1 (sort_by_score_In _ _)) in Hr. exact Hr.
Qed.

Lemma loaded_mug_wf : index_wf loaded_mug.
Proof. split; reflexivity. Qed.

(** C6: when the query has no token, [search] returns, without an error, no
    result and the diagnostics with the empty list of tokens, the number of
    products and the time of the last index build (rounded to two decimals,
    as every time in the diagnostics); in every arithmetic. *)
Theorem search_empty_query {F : Type} `{PyMath F} (self : ProductSearchEngine F)
        (query : string) (min_price max_price : option F) (category : option string)
        (min_rating : option F) (debug : bool) (limit : Z) (clock : F * F) :
  tokenize (Some query) = [] ->
  search self query min_price max_price category min_rating debug limit clock
  = Ok ([], {| query_tokens := [];
               index_build_ms := fround (last_index_build_ms self) 2;
               query_time_ms := zero;
               total_products := List.length (products self);
               top_scores := None |}).
Proof.
  intros Htokens. unfold search. rewrite Htokens. reflexivity.
Qed.

Lemma search_empty_query_witness :
  search loaded_mug "le la de" None None None None false 30 (0%R, 1%R)
  = Ok ([], {| query_tokens := [];
               index_build_ms := fround (last_index_build_ms loaded_mug) 2;
               query_time_ms := 0%R;
               total_products := 1;
               top_scores := None |}).
Proof.
  refine (search_empty_query loaded_mug "le la de" None None None None false 30
                             (0%R, 1%R) _).
  vm_compute. reflexivity.
Defined.

(** ** The filters *)

Section FilterFacts.
Context {F : Type} `{PyMath F}.

Lemma passes_filters_empty_category (min_price max_price min_rating : option F)
      (p : Product F) :
  passes_filters min_price max_price (Some "") min_rating p
  = passes_filters min_price max_price None min_rating p.
Proof. reflexivity. Qed.

Lemma search_loop_empty_category (self : ProductSearchEngine F)
      (query_tokens : list string) (qvec : dict string F) (qnorm : F)
      (min_price max_price min_rating : option F) (rest : list (Product F)) :
  forall idx results,
    search_loop self query_tokens qvec qnorm min_price max_price (Some "") min_rating
                idx rest results
    = search_loop self query_tokens qvec qnorm min_price max_price None min_rating
                  idx rest results.
Proof.
  induction rest as [|p rest IH]; intros idx results; [reflexivity|].
  cbn [search_loop]. rewrite passes_filters_empty_category.
  destruct (passes_filters min_price max_price None min_rating p); cbn [negb].
  - destruct (score_product self query_tokens qvec qnorm idx p) as [r|e];
      cbn [bind]; [apply IH | reflexivity].
  - apply IH.
Qed.
End FilterFacts.

(** C10: the empty string as category filter rejects no product, and
    [search] with it returns what it returns with no category filter: the
    same results in the same order (and the same diagnostics), or the same
    error; in every arithmetic. *)
Theorem empty_category_is_no_filter {F : Type} `{PyMath F}
        (self : ProductSearchEngine F) (query : string)
        (min_price max_price min_rating : option F) (debug : bool) (limit : Z)
        (clock : F * F) :
  (forall p : Product F, other_category (Some "") p = false)
  /\ search self query min_price max_price (Some "") min_rating debug limit clock
     = search self query min_price max_price None min_rating debug limit clock.
Proof.
  split; [reflexivity|].
  unfold search. destruct (tokenize (Some query)) as [|t ts]; [reflexivity|].
  destruct (_query_vector self (t :: ts)) as [[qvec qnorm]|e]; cbn [bind]; [|reflexivity].
  now rewrite search_loop_empty_category.
Qed.









(** ** parse_numeric *)

Lemma str_contains_split (c : ascii) (s : string) :
  str_contains c s = true ->
  exists before after,
    s = (before ++ String c after)%string /\ str_contains c before = false.
Proof.
  induction s as [|x s IH]; cbn [str_contains]; [discriminate|].
  destruct (Ascii.eqb x c) eqn:E; cbn [orb].
  - intros _. apply Ascii.eqb_eq in E. subst x. exists EmptyString, s. now split.
  - intros Hc. destruct (IH Hc) as [before [after [-> Hb]]].
    exists (String x before), after. split; [reflexivity|].
    cbn [str_contains]. now rewrite E.
Qed.

Lemma str_count_none (c : ascii) (s : string) :
  str_contains c s = false <-> str_count c s = 0.
Proof.
  induction s as [|x s IH]; cbn [str_contains str_count]; [tauto|].
  destruct (Ascii.eqb x c); cbn [orb]; [split; [discriminate | lia]|].
  rewrite IH. cbn [Nat.add]. tauto.
Qed.

Lemma str_count_split (c : ascii) (before after : string) :
  str_contains c before = false ->
  str_count c (before ++ String c after) = S (str_count c after).
Proof.
  induction before as [|x before IH]; cbn [str_contains append str_count].
  - intros _. now rewrite Ascii.eqb_refl.
  - destruct (Ascii.eqb x c); cbn [orb]; [discriminate|]. intros Hb. now rewrite IH.
Qed.

Lemma str_split_on_none (c : ascii) (s : string) :
  str_contains c s = false -> str_split_on c s = [s].
Proof.
  induction s as [|x s IH]; cbn [str_contains str_split_on]; [reflexivity|].
  destruct (Ascii.eqb x c); cbn [orb]; [discriminate|]. intros Hs. now rewrite IH.
Qed.

Lemma str_split_on_split (c : ascii) (before after : string) :
  str_contains c before = false ->
  str_split_on c (before ++ String c after) = before :: str_split_on c after.
Proof.
  induction before as [|x before IH]; cbn [str_contains append str_split_on].
  - intros _. now rewrite Ascii.eqb_refl.
  - destruct (Ascii.eqb x c); cbn [orb]; [discriminate|]. intros Hb. now rewrite IH.
Qed.

Lemma str_replace_none (c : ascii) (new s : string) :
  str_contains c s = false -> str_replace c new s = s.
Proof.
  induction s as [|x s IH]; cbn [str_contains str_replace]; [reflexivity|].
  destruct (Ascii.eqb x c); cbn [orb]; [discriminate|]. intros Hs. now rewrite IH.
Qed.

Lemma str_replace_split (c : ascii) (new before after : string) :
  str_contains c before = false -> str_contains c after = false ->
  str_replace c new (before ++ String c after) = (before ++ new ++ after)%string.
Proof.
  intros Hb Ha. induction before as [|x before IH]; cbn [append str_replace].
  - rewrite Ascii.eqb_refl. now rewrite str_replace_none.
  - cbn [str_contains] in Hb. destruct (Ascii.eqb x c); cbn [orb] in Hb; [discriminate|].
    now rewrite IH.
Qed.

Lemma str_replace_delete (c : ascii) (s : string) :
  str_replace c "" s = str_filter (fun x => negb (Ascii.eqb x c)) s.
Proof.
  induction s as [|x s IH]; cbn [str_replace str_filter]; [reflexivity|].
  destruct (Ascii.eqb x c); cbn [negb append]; now rewrite IH.
Qed.

Section CommaPolicy.
Context {F : Type} `{Num F}.

Lemma parse_numeric_unfold (raw : string) :
  truthy (strip raw) = true ->
  parse_numeric (F:=F) (Some raw)
  = numeric_tail
      (if (str_contains "," (cleaned_of raw) && negb (str_contains "." (cleaned_of raw)))%bool
       then if ((str_count "," (cleaned_of raw) =? 1)%nat
                && (String.length (nth 1 (str_split_on "," (cleaned_of raw)) "") <=? 2)%nat)%bool
            then str_replace "," "." (cleaned_of raw)
            else str_replace "," "" (cleaned_of raw)
       else cleaned_of raw).
Proof.
  intros Hraw. unfold parse_numeric, numeric_tail, cleaned_of. now rewrite Hraw.
Qed.

Lemma parse_numeric_comma_policy (raw : string) :
  truthy (strip raw) = true ->
  str_contains "," (cleaned_of raw) = true ->
  str_contains "." (cleaned_of raw) = false ->
  exists before after,
    cleaned_of raw = (before ++ "," ++ after)%string
    /\ str_contains "," before = false
    /\ parse_numeric (F:=F) (Some raw)
       = if (negb (str_contains "," after) && (String.length after <=? 2)%nat)%bool
         then numeric_tail (before ++ "." ++ after)
         else numeric_tail (str_filter (fun c => negb (Ascii.eqb c ",")) (cleaned_of raw)).
Proof.
  intros Hraw Hcomma Hpoint.
  destruct (str_contains_split "," (cleaned_of raw) Hcomma) as [before [after [Hsplit Hb]]].
  exists before, after. split; [exact Hsplit|]. split; [exact Hb|].
  rewrite (parse_numeric_unfold raw Hraw), Hcomma, Hpoint. cbn [negb andb].
  rewrite <- str_replace_delete.
  rewrite Hsplit.
  rewrite (str_count_split "," before after Hb), (str_split_on_split "," before after Hb).
  cbn [nth].
  destruct (str_contains "," after) eqn:Ea; cbn [negb andb].
  - assert (Hcount : str_count "," after <> 0).
    { intros Hz. apply str_count_none in Hz. congruence. }
    replace (S (str_count "," after) =? 1)%nat with false
      by (symmetry; apply Nat.eqb_neq; lia).
    cbn [andb]. reflexivity.
  - rewrite (proj1 (str_count_none "," after) Ea). cbn [Nat.eqb andb].
    rewrite (str_split_on_none "," after Ea). cbn [nth].
    destruct (String.length after <=? 2)%nat; [|reflexivity].
    now rewrite (str_replace_split "," "." before after Hb Ea).
Qed.
End CommaPolicy.

(* ================================================================== *)
(** * Further properties *)
(* ================================================================== *)

(** ** Text in normal form *)

Lemma alnum_chars (c : ascii) :
  is_alnum c = true ->
  is_space c = false /\ Ascii.eqb c " " = false
  /\ lower_char c = c /\ nfd_base c = c.
Proof.
  destruct c as [[] [] [] [] [] [] [] []]; vm_compute;
    intros Hc; try discriminate; repeat split.
Qed.

Lemma space_chars (c : ascii) :
  Ascii.eqb c " " = true -> is_space c = true /\ is_alnum c = false.
Proof. intros Hc. apply Ascii.eqb_eq in Hc. subst c. split; reflexivity. Qed.

Lemma str_forall_impl (p q : ascii -> bool) (s : string) :
  (forall c, p c = true -> q c = true) ->
  str_forall p s = true -> str_forall q s = true.
Proof.
  intros Hpq. induction s as [|c s IH]; [reflexivity|].
  cbn [str_forall]. rewrite !andb_true_iff. intros [Hc Hs]. auto.
Qed.

Lemma str_forall_app (p : ascii -> bool) (s t : string) :
  str_forall p (s ++ t) = (str_forall p s && str_forall p t)%bool.
Proof.
  induction s as [|c s IH]; [reflexivity|].
  cbn [String.append str_forall]. now rewrite IH, andb_assoc.
Qed.

Lemma str_map_fixed (f : ascii -> ascii) (p : ascii -> bool) (s : string) :
  (forall c, p c = true -> f c = c) ->
  str_forall p s = true -> str_map f s = s.
Proof.
  intros Hf. induction s as [|c s IH]; [reflexivity|].
  cbn [str_forall str_map]. rewrite andb_true_iff. intros [Hc Hs].
  now rewrite (Hf c Hc), (IH Hs).
Qed.

Lemma tidy_tail (c : ascii) (s : string) : tidy (String c s) = true -> tidy s = true.
Proof. cbn [tidy]. rewrite andb_true_iff. tauto. Qed.

Lemma tidy_chars (s : string) :
  tidy s = true -> str_forall (fun c => (is_alnum c || Ascii.eqb c " ")%bool) s = true.
Proof.
  induction s as [|c s IH]; [reflexivity|]. intros Ht.
  cbn [str_forall]. rewrite (IH (tidy_tail c s Ht)), andb_true_r.
  cbn [tidy] in Ht. apply andb_true_iff in Ht. destruct Ht as [Hc _].
  destruct (Ascii.eqb c " "); [apply orb_true_r | now rewrite Hc].
Qed.

Lemma alnum_tidy (s : string) : str_forall is_alnum s = true -> tidy s = true.
Proof.
  induction s as [|c s IH]; [reflexivity|].
  cbn [str_forall tidy]. rewrite andb_true_iff. intros [Hc Hs].
  destruct (alnum_chars c Hc) as [_ [Hsp _]]. now rewrite Hsp, Hc, (IH Hs).
Qed.

Lemma alnum_last_ok (s : string) : str_forall is_alnum s = true -> last_ok s = true.
Proof.
  induction s as [|c s IH]; [reflexivity|].
  cbn [str_forall]. rewrite andb_true_iff. intros [Hc Hs].
  destruct (alnum_chars c Hc) as [Hsp _].
  cbn [last_ok]. destruct s; [now rewrite Hsp | now apply IH].
Qed.

Lemma alnum_head_ok (s : string) : str_forall is_alnum s = true -> head_ok s = true.
Proof.
  destruct s as [|c s]; [reflexivity|].
  cbn [str_forall head_ok]. rewrite andb_true_iff. intros [Hc _].
  destruct (alnum_chars c Hc) as [Hsp _]. now rewrite Hsp.
Qed.

Lemma alnum_clean (s : string) : str_forall is_alnum s = true -> clean s = true.
Proof.
  intros Hs. unfold clean.
  now rewrite (alnum_tidy s Hs), (alnum_head_ok s Hs), (alnum_last_ok s Hs).
Qed.

(** *** The steps of [normalize_text] *)

Lemma sub_noise_chars (s : string) :
  str_forall (fun c => (is_alnum c || is_space c)%bool) (sub_noise s) = true.
Proof.
  induction s as [|c s IH]; [reflexivity|].
  cbn [sub_noise str_map str_forall]. fold (sub_noise s). rewrite IH, andb_true_r.
  unfold is_alnum.
  destruct (is_lower_az c || is_digit c || is_space c)%bool eqn:E; [exact E | reflexivity].
Qed.

Lemma sub_spaces_head (s : string) :
  head_ok s = true -> sub_spaces s = match s with
                                     | EmptyString => EmptyString
                                     | String c s' => String c (sub_spaces s')
                                     end.
Proof.
  destruct s as [|c s']; [reflexivity|]. cbn [head_ok sub_spaces].
  intros Hc. apply negb_true_iff in Hc. now rewrite Hc.
Qed.

Lemma sub_spaces_tidy (s : string) :
  str_forall (fun c => (is_alnum c || is_space c)%bool) s = true ->
  tidy (sub_spaces s) = true.
Proof.
  induction s as [|c s IH]; [reflexivity|].
  cbn [str_forall]. rewrite andb_true_iff. intros [Hc Hs]. specialize (IH Hs).
  cbn [sub_spaces]. destruct (is_space c) eqn:Ec.
  - destruct s as [|c' s']; [reflexivity|].
    destruct (is_space c') eqn:Ec'; [exact IH|].
    cbn [tidy]. rewrite IH, andb_true_r. cbn [Ascii.eqb].
    change (Ascii.eqb " " " ") with true. cbv iota.
    rewrite sub_spaces_head by (cbn [head_ok]; now rewrite Ec').
    destruct (Ascii.eqb c' " ") eqn:E; [|reflexivity].
    apply Ascii.eqb_eq in E. subst c'. discriminate Ec'.
  - cbn [tidy]. rewrite IH, andb_true_r.
    rewrite ?Ec, orb_false_r in Hc.
    destruct (alnum_chars c Hc) as [_ [Hsp _]]. now rewrite Hsp.
Qed.

Lemma lstrip_tidy (s : string) : tidy s = true -> tidy (lstrip s) = true.
Proof.
  induction s as [|c s IH]; [reflexivity|]. intros Ht. cbn [lstrip].
  destruct (is_space c); [apply IH; now apply tidy_tail in Ht | exact Ht].
Qed.

Lemma rstrip_cons (c : ascii) (s : string) :
  rstrip (String c s)
  = match rstrip s with
    | EmptyString => if is_space c then EmptyString else String c EmptyString
    | r => String c r
    end.
Proof. reflexivity. Qed.

Lemma rstrip_tidy (s : string) : tidy s = true -> tidy (rstrip s) = true.
Proof.
  induction s as [|c s IH]; [reflexivity|]. intros Ht.
  pose proof (tidy_tail c s Ht) as Hs. specialize (IH Hs).
  rewrite rstrip_cons. destruct (rstrip s) as [|c' r] eqn:Er.
  - destruct (is_space c); [reflexivity|].
    cbn [tidy] in Ht |- *. rewrite andb_true_iff in Ht. destruct Ht as [Hc _].
    rewrite andb_true_r. destruct (Ascii.eqb c " "); [reflexivity|].
    destruct s; exact Hc.
  - cbn [tidy] in Ht. rewrite andb_true_iff in Ht. destruct Ht as [Hc _].
    change (tidy (String c (String c' r)))
      with ((if Ascii.eqb c " " then negb (Ascii.eqb c' " ") else is_alnum c)
            && tidy (String c' r))%bool.
    rewrite IH, andb_true_r.
    destruct (Ascii.eqb c " ") eqn:Ec; [|exact Hc].
    destruct s as [|x s']; [discriminate Er|].
    rewrite rstrip_cons in Er. destruct (rstrip s') as [|y r'].
    + destruct (is_space x); [discriminate | now inversion Er; subst].
    + now inversion Er; subst.
Qed.

Lemma lstrip_head_ok (s : string) : head_ok (lstrip s) = true.
Proof.
  induction s as [|c s IH]; [reflexivity|]. cbn [lstrip].
  destruct (is_space c) eqn:Ec; [exact IH | cbn [head_ok]; now rewrite Ec].
Qed.

Lemma lstrip_fixed (s : string) : head_ok s = true -> lstrip s = s.
Proof.
  destruct s as [|c s]; [reflexivity|]. cbn [head_ok lstrip].
  intros Hc. apply negb_true_iff in Hc. now rewrite Hc.
Qed.

Lemma rstrip_head_ok (s : string) : head_ok s = true -> head_ok (rstrip s) = true.
Proof.
  destruct s as [|c s]; [reflexivity|]. intros Hc. rewrite rstrip_cons.
  cbn [head_ok] in Hc. apply negb_true_iff in Hc.
  destruct (rstrip s); [rewrite Hc|]; cbn [head_ok]; now rewrite Hc.
Qed.

Lemma rstrip_last_ok (s : string) : last_ok (rstrip s) = true.
Proof.
  induction s as [|c s IH]; [reflexivity|]. rewrite rstrip_cons.
  destruct (rstrip s) as [|c' r].
  - destruct (is_space c) eqn:Ec; [reflexivity | cbn [last_ok]; now rewrite Ec].
  - exact IH.
Qed.

Lemma rstrip_fixed (s : string) : last_ok s = true -> rstrip s = s.
Proof.
  induction s as [|c s IH]; [reflexivity|]. intros Hl. rewrite rstrip_cons.
  destruct s as [|c' s'].
  - cbn [last_ok] in Hl. apply negb_true_iff in Hl. cbn [rstrip]. now rewrite Hl.
  - rewrite IH by exact Hl. reflexivity.
Qed.

Lemma strip_clean (s : string) : tidy s = true -> clean (strip s) = true.
Proof.
  intros Ht. unfold clean, strip.
  rewrite (rstrip_tidy _ (lstrip_tidy _ Ht)).
  rewrite (rstrip_head_ok _ (lstrip_head_ok s)).
  now rewrite rstrip_last_ok.
Qed.

Lemma clean_parts (s : string) :
  clean s = true -> tidy s = true /\ head_ok s = true /\ last_ok s = true.
Proof. unfold clean. rewrite !andb_true_iff. tauto. Qed.

Lemma strip_fixed (s : string) : head_ok s = true -> last_ok s = true -> strip s = s.
Proof. intros Hh Hl. unfold strip. now rewrite (lstrip_fixed s Hh), (rstrip_fixed s Hl). Qed.

Lemma sub_noise_fixed (s : string) : tidy s = true -> sub_noise s = s.
Proof.
  intros Ht. unfold sub_noise.
  apply (str_map_fixed _ (fun c => (is_alnum c || Ascii.eqb c " ")%bool)); [|now apply tidy_chars].
  intros c Hc. apply orb_true_iff in Hc. destruct Hc as [Hc|Hc].
  - unfold is_alnum in Hc. now rewrite Hc.
  - destruct (space_chars c Hc) as [Hsp _]. now rewrite Hsp, orb_true_r.
Qed.

Lemma lower_fixed (s : string) : tidy s = true -> lower s = s.
Proof.
  intros Ht. unfold lower.
  apply (str_map_fixed _ (fun c => (is_alnum c || Ascii.eqb c " ")%bool)); [|now apply tidy_chars].
  intros c Hc. apply orb_true_iff in Hc. destruct Hc as [Hc|Hc].
  - now destruct (alnum_chars c Hc) as [_ [_ [Hl _]]].
  - apply Ascii.eqb_eq in Hc. now subst c.
Qed.

Lemma strip_accents_fixed (s : string) : tidy s = true -> strip_accents s = s.
Proof.
  intros Ht. unfold strip_accents.
  apply (str_map_fixed _ (fun c => (is_alnum c || Ascii.eqb c " ")%bool)); [|now apply tidy_chars].
  intros c Hc. apply orb_true_iff in Hc. destruct Hc as [Hc|Hc].
  - now destruct (alnum_chars c Hc) as [_ [_ [_ Hn]]].
  - apply Ascii.eqb_eq in Hc. now subst c.
Qed.

Lemma sub_spaces_fixed (s : string) : tidy s = true -> sub_spaces s = s.
Proof.
  induction s as [|c s IH]; [reflexivity|]. intros Ht.
  pose proof (tidy_tail c s Ht) as Hs. specialize (IH Hs).
  cbn [tidy] in Ht. apply andb_true_iff in Ht. destruct Ht as [Hc _].
  cbn [sub_spaces]. destruct (Ascii.eqb c " ") eqn:Ec.
  - destruct (space_chars c Ec) as [Hsp _]. rewrite Hsp.
    apply Ascii.eqb_eq in Ec. subst c.
    destruct s as [|c' s']; [reflexivity|].
    apply negb_true_iff in Hc.
    assert (Hc' : is_space c' = false).
    { apply tidy_chars in Hs. cbn [str_forall] in Hs. apply andb_true_iff in Hs.
      destruct Hs as [Hs _]. rewrite Hc, orb_false_r in Hs.
      now destruct (alnum_chars c' Hs). }
    rewrite Hc'. now rewrite IH.
  - destruct (alnum_chars c Hc) as [Hsp _]. now rewrite Hsp, IH.
Qed.

Lemma str_replace_space_alnum (s : string) :
  tidy s = true -> str_forall is_alnum (str_replace " " "" s) = true.
Proof.
  induction s as [|c s IH]; [reflexivity|]. intros Ht.
  pose proof (tidy_tail c s Ht) as Hs. specialize (IH Hs).
  cbn [tidy] in Ht. apply andb_true_iff in Ht. destruct Ht as [Hc _].
  cbn [str_replace]. destruct (Ascii.eqb c " ").
  - exact IH.
  - cbn [str_forall]. now rewrite Hc, IH.
Qed.

Lemma str_replace_space_fixed (s : string) :
  str_forall is_alnum s = true -> str_replace " " "" s = s.
Proof.
  induction s as [|c s IH]; [reflexivity|].
  cbn [str_forall]. rewrite andb_true_iff. intros [Hc Hs].
  destruct (alnum_chars c Hc) as [_ [Hsp _]].
  cbn [str_replace]. now rewrite Hsp, (IH Hs).
Qed.

(** What [normalize_text] returns with [keep_spaces=True] is clean. *)
Lemma normalize_text_clean (text : option string) :
  clean (normalize_text text true) = true.
Proof.
  unfold normalize_text. destruct text as [text|]; [|reflexivity].
  destruct (negb (truthy text)); [reflexivity|].
  cbv zeta. apply strip_clean, sub_spaces_tidy, sub_noise_chars.
Qed.

(** Without the spaces it is made of letters and digits. *)
Lemma normalize_text_alnum (text : option string) :
  str_forall is_alnum (normalize_text text false) = true.
Proof.
  unfold normalize_text. destruct text as [text|]; [|reflexivity].
  destruct (negb (truthy text)); [reflexivity|].
  cbv zeta. apply str_replace_space_alnum.
  pose proof (strip_clean _ (sub_spaces_tidy _ (sub_noise_chars (strip_accents (lower text))))) as Hc.
  now apply clean_parts in Hc.
Qed.

(** A clean text is normalised already. *)
Lemma normalize_text_fixed (s : string) :
  clean s = true -> normalize_text (Some s) true = s.
Proof.
  intros Hc. destruct (clean_parts s Hc) as [Ht [Hh Hl]].
  unfold normalize_text. destruct (negb (truthy s)) eqn:Hs.
  - apply negb_true_iff in Hs. unfold truthy in Hs. apply negb_false_iff in Hs.
    apply String.eqb_eq in Hs. now subst s.
  - cbv zeta. rewrite (lower_fixed s Ht), (strip_accents_fixed s Ht),
      (sub_noise_fixed s Ht), (sub_spaces_fixed s Ht).
    now apply strip_fixed.
Qed.

(** X1: whatever the text, the normalised text is made of
    the letters a-z, the digits and the space U+0020 only, and of letters
    and digits only when [keep_spaces] is false. *)
Theorem normalize_text_alphabet (text : option string) :
  str_forall (fun c => (is_alnum c || Ascii.eqb c " ")%bool) (normalize_text text true) = true
  /\ str_forall is_alnum (normalize_text text false) = true.
Proof.
  split.
  - pose proof (normalize_text_clean text) as Hc.
    apply clean_parts in Hc. now apply tidy_chars.
  - apply normalize_text_alnum.
Qed.

(** X2: normalising with [normalize_text] is idempotent, with and without
    spaces: a normalised text is returned as it is. *)
Theorem normalize_text_idempotent (text : option string) (keep_spaces : bool) :
  normalize_text (Some (normalize_text text keep_spaces)) keep_spaces
  = normalize_text text keep_spaces.
Proof.
  destruct keep_spaces.
  - apply normalize_text_fixed, normalize_text_clean.
  - pose proof (normalize_text_alnum text) as Ha.
    set (s := normalize_text text false) in *.
    pose proof (alnum_clean s Ha) as Hc.
    pose proof (normalize_text_fixed s Hc) as Hf.
    unfold normalize_text in Hf |- *.
    destruct (negb (truthy s)) eqn:Hs.
    + apply negb_true_iff in Hs. unfold truthy in Hs. apply negb_false_iff in Hs.
      apply String.eqb_eq in Hs. now rewrite Hs.
    + cbv zeta in Hf |- *. rewrite Hf. now apply str_replace_space_fixed.
Qed.

(** *** Words *)

Lemma str_join_cons (sep p : string) (q : string) (ps : list string) :
  str_join sep (p :: q :: ps) = (p ++ sep ++ str_join sep (q :: ps))%string.
Proof. reflexivity. Qed.

Lemma str_join_head (c : ascii) (w : string) (ws : list string) :
  str_join " " (String c w :: ws) = String c (str_join " " (w :: ws)).
Proof. destruct ws; reflexivity. Qed.

Lemma tidy_head (c : ascii) (s : string) :
  tidy (String c s) = true ->
  (c = " "%char /\ head_ok s = true) \/ (is_alnum c = true /\ is_space c = false).
Proof.
  intros Ht. pose proof (tidy_chars _ (tidy_tail c s Ht)) as Hs.
  cbn [tidy] in Ht. apply andb_true_iff in Ht. destruct Ht as [Hc _].
  destruct (Ascii.eqb c " ") eqn:Ec.
  - left. apply Ascii.eqb_eq in Ec. split; [exact Ec|].
    destruct s as [|c' s']; [reflexivity|]. cbn [head_ok].
    apply negb_true_iff in Hc.
    cbn [str_forall] in Hs. apply andb_true_iff in Hs. destruct Hs as [Hs _].
    rewrite Hc, orb_false_r in Hs. destruct (alnum_chars c' Hs) as [Hsp _].
    now rewrite Hsp.
  - right. split; [exact Hc | now destruct (alnum_chars c Hc)].
Qed.

Lemma last_ok_tail (c : ascii) (s : string) :
  last_ok (String c s) = true -> last_ok s = true /\ (is_space c = true -> s <> ""%string).
Proof.
  destruct s as [|c' s'].
  - cbn [last_ok]. intros Hc. apply negb_true_iff in Hc.
    split; [reflexivity | congruence].
  - intros Hl. split; [exact Hl | discriminate].
Qed.

(** The words of a tidy text that does not end in a space, put together
    again. *)
Lemma str_split_join_tidy (s : string) :
  tidy s = true -> last_ok s = true ->
  str_join " " (str_split s) = lstrip s /\ (s <> ""%string -> str_split s <> []).
Proof.
  induction s as [|c s IH]; [now split|]. intros Ht Hl.
  destruct (last_ok_tail c s Hl) as [Hl' Hne].
  destruct (IH (tidy_tail c s Ht) Hl') as [IHj IHn].
  destruct (tidy_head c s Ht) as [[-> Hh]|[Hc Hsp]].
  - change (str_split (String " " s)) with (str_split s).
    change (lstrip (String " " s)) with (lstrip s).
    split; [exact IHj | intros _; apply IHn, Hne; reflexivity].
  - cbn [str_split lstrip]. rewrite Hsp.
    destruct s as [|c' s']; [split; [reflexivity | discriminate]|].
    destruct (tidy_head c' s' (tidy_tail c _ Ht)) as [[-> Hh]|[Hc' Hsp']].
    + change (is_space " ") with true. cbv iota.
      assert (Hs' : str_split (String " " s') <> []) by (apply IHn; discriminate).
      split; [|discriminate].
      destruct (str_split (String " " s')) as [|w ws] eqn:Ew; [congruence|].
      rewrite str_join_cons, IHj.
      change (lstrip (String " " s')) with (lstrip s').
      now rewrite (lstrip_fixed s' Hh).
    + rewrite Hsp'.
      assert (Hs' : str_split (String c' s') <> []) by (apply IHn; discriminate).
      destruct (str_split (String c' s')) as [|w ws] eqn:Ew; [congruence|].
      split; [|discriminate].
      rewrite str_join_head, IHj. cbn [lstrip]. now rewrite Hsp'.
Qed.

Lemma str_split_join_clean (s : string) :
  clean s = true -> str_join " " (str_split s) = s.
Proof.
  intros Hc. destruct (clean_parts s Hc) as [Ht [Hh Hl]].
  destruct (str_split_join_tidy s Ht Hl) as [Hj _].
  now rewrite Hj, lstrip_fixed.
Qed.

(** X3: the normalised text is its words joined by single spaces: splitting
    the result of [normalize_text] on white space and joining the words with
    one space gives the result back (no space at either end, no two spaces
    in a row). *)
Theorem normalize_text_words (text : option string) :
  str_join " " (str_split (normalize_text text true)) = normalize_text text true.
Proof. apply str_split_join_clean, normalize_text_clean. Qed.

(** ** tokenize *)

Lemma fold_kept {X Y : Type} (p : Y -> bool) (f : X -> Y) (l : list X) :
  forall acc : list Y,
    fold_left (fun acc x => if p (f x) then acc ++ [f x] else acc) l acc
    = acc ++ filter p (map f l).
Proof.
  induction l as [|x l IH]; intros acc; cbn [fold_left map filter].
  - now rewrite app_nil_r.
  - rewrite IH. destruct (p (f x)); [now rewrite <- app_assoc | reflexivity].
Qed.

(** The loop of [tokenize]: the synonyms of the words, those that are
    stopwords or shorter than two characters left out. *)
Lemma tokenize_filter (text : option string) :
  tokenize text
  = filter kept_token (map synonym_of (str_split (normalize_text text true))).
Proof.
  unfold tokenize. cbv zeta.
  destruct (negb (truthy (normalize_text text true))) eqn:Hn.
  - apply negb_true_iff in Hn. unfold truthy in Hn. apply negb_false_iff in Hn.
    apply String.eqb_eq in Hn. now rewrite Hn.
  - exact (fold_kept kept_token synonym_of _ []).
Qed.

Lemma is_word_cons (c : ascii) (w : string) :
  is_alnum c = true -> str_forall is_alnum w = true -> is_word (String c w) = true.
Proof. intros Hc Hw. unfold is_word. cbn [String.eqb str_forall negb andb]. now rewrite Hc, Hw. Qed.

Lemma is_word_parts (w : string) :
  is_word w = true -> w <> ""%string /\ str_forall is_alnum w = true.
Proof.
  unfold is_word. rewrite andb_true_iff, negb_true_iff. intros [Hne Hw].
  split; [|exact Hw]. intros ->. discriminate Hne.
Qed.

Lemma str_split_words (s : string) :
  str_forall (fun c => (is_alnum c || is_space c)%bool) s = true ->
  Forall (fun w => is_word w = true) (str_split s).
Proof.
  induction s as [|c s IH]; [constructor|].
  cbn [str_forall]. rewrite andb_true_iff. intros [Hc Hs]. specialize (IH Hs).
  cbn [str_split]. destruct (is_space c) eqn:Ec; [exact IH|].
  rewrite orb_false_r in Hc.
  destruct s as [|c' s'].
  - constructor; [now apply is_word_cons | constructor].
  - destruct (is_space c').
    + constructor; [now apply is_word_cons | exact IH].
    + destruct (str_split (String c' s')) as [|w ws].
      * constructor; [now apply is_word_cons | constructor].
      * inversion IH as [|? ? Hw Hws]; subst. constructor; [|exact Hws].
        apply is_word_cons; [exact Hc | now apply is_word_parts in Hw].
Qed.

Lemma clean_chars (s : string) :
  clean s = true -> str_forall (fun c => (is_alnum c || is_space c)%bool) s = true.
Proof.
  intros Hc. apply clean_parts in Hc. destruct Hc as [Ht _].
  apply (str_forall_impl (fun c => (is_alnum c || Ascii.eqb c " ")%bool)); [|now apply tidy_chars].
  intros c Hc. apply orb_true_iff in Hc. destruct Hc as [Hc|Hc].
  - now rewrite Hc.
  - destruct (space_chars c Hc) as [Hsp _]. now rewrite Hsp, orb_true_r.
Qed.

(** The synonyms of the table are words that are not keys of it, and
    none of them is filtered out. *)
Lemma SYNONYMS_values :
  Forall (fun kv : string * string =>
            is_word (snd kv) = true /\ sget SYNONYMS (snd kv) = None
            /\ kept_token (snd kv) = true)
         SYNONYMS.
Proof. repeat constructor. Qed.

Lemma synonym_of_cases (token : string) :
  synonym_of token = token
  \/ (is_word (synonym_of token) = true
      /\ sget SYNONYMS (synonym_of token) = None).
Proof.
  unfold synonym_of, sget_or, dict_get_or.
  destruct (dict_get String.eqb SYNONYMS token) as [v|] eqn:E; [right | now left].
  apply (dict_get_In String.eqb String_eqb_spec) in E.
  pose proof SYNONYMS_values as Hall. rewrite Forall_forall in Hall.
  destruct (Hall _ E) as [Hw [Hk _]]. now split.
Qed.

Lemma synonym_of_word (token : string) :
  is_word token = true -> is_word (synonym_of token) = true.
Proof.
  intros Hw. destruct (synonym_of_cases token) as [->|[H _]]; assumption.
Qed.

Lemma synonym_of_idem (token : string) :
  synonym_of (synonym_of token) = synonym_of token.
Proof.
  destruct (synonym_of_cases token) as [Heq|[_ Hk]].
  - now rewrite !Heq.
  - unfold synonym_of at 1. unfold sget_or, dict_get_or.
    unfold sget in Hk. now rewrite Hk.
Qed.

(** The tokens are kept synonyms of words. *)
Lemma tokenize_tokens (text : option string) :
  Forall (fun token => kept_token token = true /\ is_word token = true
                       /\ synonym_of token = token)
         (tokenize text).
Proof.
  rewrite tokenize_filter. apply Forall_forall. intros token Hin.
  apply filter_In in Hin. destruct Hin as [Hin Hk].
  apply in_map_iff in Hin. destruct Hin as [w [<- Hw]].
  split; [exact Hk|]. split; [|apply synonym_of_idem].
  apply synonym_of_word.
  pose proof (str_split_words _ (clean_chars _ (normalize_text_clean text))) as Hall.
  rewrite Forall_forall in Hall. now apply Hall.
Qed.

(** X4: every token that [tokenize] returns is not a stopword, has at least
    two characters, and is made of the letters a-z and the digits only. *)
Theorem tokenize_never_returns_noise (text : option string) :
  Forall (fun token =>
            str_in token STOPWORDS_FR_EN = false
            /\ 2 <= String.length token
            /\ str_forall is_alnum token = true)
         (tokenize text).
Proof.
  eapply Forall_impl; [|apply tokenize_tokens].
  intros token [Hk [Hw _]]. unfold kept_token in Hk.
  apply andb_true_iff in Hk. destruct Hk as [Hs Hl].
  apply negb_true_iff in Hs. apply Nat.ltb_lt in Hl.
  apply is_word_parts in Hw. destruct Hw as [_ Hw]. repeat split; [exact Hs | lia | exact Hw].
Qed.

(** *** Joining tokens and splitting them again *)

Lemma word_head (w : string) :
  is_word w = true ->
  exists c r, w = String c r /\ is_alnum c = true /\ is_space c = false
              /\ str_forall is_alnum r = true.
Proof.
  intros Hw. apply is_word_parts in Hw. destruct Hw as [Hne Hw].
  destruct w as [|c r]; [congruence|].
  cbn [str_forall] in Hw. apply andb_true_iff in Hw. destruct Hw as [Hc Hr].
  exists c, r. repeat split; [exact Hc | now destruct (alnum_chars c Hc) | exact Hr].
Qed.

Lemma str_split_word_then (r rest : string) :
  str_forall is_alnum r = true ->
  forall c, is_space c = false ->
  str_split (String c (r ++ String " " rest)) = String c r :: str_split rest.
Proof.
  induction r as [|c' r IH]; intros Hr c Hc.
  - cbn [String.append str_split]. rewrite Hc. reflexivity.
  - cbn [str_forall] in Hr. apply andb_true_iff in Hr. destruct Hr as [Hc' Hr].
    destruct (alnum_chars c' Hc') as [Hsp' _].
    change (str_split (String c (String c' r ++ String " " rest)))
      with (if is_space c then str_split (String c' (r ++ String " " rest))
            else if is_space c'
                 then String c EmptyString :: str_split (String c' (r ++ String " " rest))
                 else match str_split (String c' (r ++ String " " rest)) with
                      | w :: ws => String c w :: ws
                      | [] => [String c EmptyString]
                      end).
    rewrite Hc, Hsp'. now rewrite (IH Hr c' Hsp').
Qed.

Lemma str_split_word (r : string) :
  str_forall is_alnum r = true ->
  forall c, is_space c = false -> str_split (String c r) = [String c r].
Proof.
  induction r as [|c' r IH]; intros Hr c Hc.
  - cbn [str_split]. now rewrite Hc.
  - cbn [str_forall] in Hr. apply andb_true_iff in Hr. destruct Hr as [Hc' Hr].
    destruct (alnum_chars c' Hc') as [Hsp' _].
    change (str_split (String c (String c' r)))
      with (if is_space c then str_split (String c' r)
            else if is_space c'
                 then String c EmptyString :: str_split (String c' r)
                 else match str_split (String c' r) with
                      | w :: ws => String c w :: ws
                      | [] => [String c EmptyString]
                      end).
    rewrite Hc, Hsp'. now rewrite (IH Hr c' Hsp').
Qed.

Lemma str_split_join_words (tokens : list string) :
  Forall (fun w => is_word w = true) tokens ->
  str_split (str_join " " tokens) = tokens.
Proof.
  induction 1 as [|w ws Hw Hws IH]; [reflexivity|].
  destruct (word_head w Hw) as [c [r [-> [Hc [Hsp Hr]]]]].
  destruct ws as [|w' ws'].
  - cbn [str_join]. now apply str_split_word.
  - rewrite str_join_cons.
    change (String c r ++ " " ++ str_join " " (w' :: ws'))%string
      with (String c (r ++ String " " (str_join " " (w' :: ws')))).
    rewrite (str_split_word_then r _ Hr c Hsp). now rewrite IH.
Qed.

Lemma tokenize_words (text : option string) :
  Forall (fun w => is_word w = true) (tokenize text).
Proof.
  eapply Forall_impl; [|apply tokenize_tokens]. intros token [_ [Hw _]]. exact Hw.
Qed.

(** X5: the searchable text of a product, its tokens joined by spaces
    ([load_data]), gives the tokens back when [search] splits it: splitting
    the joined tokens of any text returns exactly these tokens. *)
Theorem searchable_text_round_trip (text : option string) :
  str_split (str_join " " (tokenize text)) = tokenize text.
Proof. apply str_split_join_words, tokenize_words. Qed.

Lemma tidy_cons_alnum (x : ascii) (s : string) :
  is_alnum x = true -> tidy (String x s) = tidy s.
Proof.
  intros Hx. destruct (alnum_chars x Hx) as [_ [Hxs _]].
  cbn [tidy]. now rewrite Hxs, Hx.
Qed.

Lemma tidy_space_cons (c : ascii) (r : string) :
  is_space c = false -> tidy (String " " (String c r)) = tidy (String c r).
Proof.
  intros Hsp.
  change (tidy (String " " (String c r)))
    with (negb (Ascii.eqb c " ") && tidy (String c r))%bool.
  destruct (Ascii.eqb c " ") eqn:Ec; [|reflexivity].
  apply Ascii.eqb_eq in Ec. subst c. discriminate Hsp.
Qed.

Lemma join_words_clean (tokens : list string) :
  Forall (fun w => is_word w = true) tokens -> clean (str_join " " tokens) = true.
Proof.
  induction 1 as [|w ws Hw Hws IH]; [reflexivity|].
  apply is_word_parts in Hw. destruct Hw as [Hne Hw].
  destruct ws as [|w' ws']; [now apply alnum_clean|].
  rewrite str_join_cons. set (rest := str_join " " (w' :: ws')) in *.
  assert (Hrest : exists c r, rest = String c r /\ is_space c = false).
  { inversion Hws as [|? ? Hw' _]; subst.
    destruct (word_head w' Hw') as [c [r [-> [_ [Hsp _]]]]].
    subst rest. destruct ws'; [now exists c, r|].
    rewrite str_join_cons. now exists c, (r ++ " " ++ str_join " " (s :: ws'))%string. }
  destruct Hrest as [c [r [Hrest Hsp]]].
  destruct (clean_parts _ IH) as [Ht [_ Hl]].
  rewrite Hrest in *. clear Hrest rest IH Hws.
  unfold clean. apply andb_true_iff. split; [apply andb_true_iff; split|].
  - clear Hne. induction w as [|x w IHw].
    + cbn [String.append]. now rewrite (tidy_space_cons c r Hsp).
    + cbn [str_forall] in Hw. apply andb_true_iff in Hw. destruct Hw as [Hx Hw].
      cbn [String.append]. rewrite (tidy_cons_alnum x _ Hx). now apply IHw.
  - destruct w as [|x w]; [congruence|].
    cbn [str_forall] in Hw. apply andb_true_iff in Hw. destruct Hw as [Hx _].
    destruct (alnum_chars x Hx) as [Hxs _]. cbn [String.append head_ok]. now rewrite Hxs.
  - clear Hne Hw. induction w as [|x w IHw].
    + exact Hl.
    + change ((String x w ++ " " ++ String c r)%string)
        with (String x (w ++ " " ++ String c r)%string).
      destruct (w ++ " " ++ String c r)%string eqn:E; [|exact IHw].
      destruct w; discriminate E.
Qed.

Lemma filter_map_idem {X : Type} (p : X -> bool) (f : X -> X) (l : list X) :
  (forall x, f (f x) = f x) ->
  filter p (map f (filter p (map f l))) = filter p (map f l).
Proof.
  intros Hf. induction l as [|x l IH]; [reflexivity|].
  cbn [map filter]. destruct (p (f x)) eqn:E; [|exact IH].
  cbn [map filter]. now rewrite Hf, E, IH.
Qed.

(** X6: tokenising is idempotent: the tokens of a text, joined by spaces
    and tokenised again, are the same tokens (no synonym of the table is
    itself replaced or filtered out).  So the searchable text of a product
    has the tokens of the product as its tokens. *)
Theorem tokenize_idempotent (text : option string) :
  tokenize (Some (str_join " " (tokenize text))) = tokenize text.
Proof.
  rewrite (tokenize_filter (Some _)).
  rewrite (normalize_text_fixed _ (join_words_clean _ (tokenize_words text))).
  rewrite (str_split_join_words _ (tokenize_words text)).
  rewrite tokenize_filter. apply filter_map_idem, synonym_of_idem.
Qed.

(** ** parse_numeric *)

Section NumericFacts.
Context {F : Type} `{Num F}.

Lemma py_float_cases (s : string) :
  py_float (F:=F) s
  = match s with
    | String c r => if Ascii.eqb c "-" then float_of_body true r else float_of_body false s
    | EmptyString => float_of_body false s
    end.
Proof.
  destruct s as [|c r]; [reflexivity|].
  destruct c as [[] [] [] [] [] [] [] []]; reflexivity.
Qed.

Lemma digits_value_no_digit (c : ascii) (t : string) :
  no_digit (String c t) = true -> digits_value (String c t) 0 = None.
Proof.
  unfold no_digit. cbn [str_forall digits_value].
  rewrite andb_true_iff, negb_true_iff. intros [Hc _]. now rewrite Hc.
Qed.

Lemma str_split_on_forall (p : ascii -> bool) (c : ascii) (s : string) :
  str_forall p s = true -> Forall (fun t => str_forall p t = true) (str_split_on c s).
Proof.
  induction s as [|x s IH]; [repeat constructor|].
  cbn [str_forall]. rewrite andb_true_iff. intros [Hx Hs]. specialize (IH Hs).
  cbn [str_split_on]. destruct (Ascii.eqb x c).
  - constructor; [reflexivity | exact IH].
  - destruct (str_split_on c s) as [|w ws].
    + constructor; [cbn [str_forall]; now rewrite Hx | constructor].
    + inversion IH as [|? ? Hw Hws]; subst.
      constructor; [cbn [str_forall]; now rewrite Hx, Hw | exact Hws].
Qed.

Lemma float_of_body_no_digit (negative : bool) (body : string) :
  no_digit body = true -> float_of_body (F:=F) negative body = None.
Proof.
  intros Hb. unfold float_of_body.
  pose proof (str_split_on_forall _ "." body Hb) as Hall.
  destruct (str_split_on "." body) as [|ip [|fp [|]]]; [reflexivity| | |reflexivity].
  - inversion Hall as [|? ? Hip _]; subst.
    destruct ip as [|c t]; [reflexivity|].
    now rewrite (digits_value_no_digit c t Hip).
  - inversion Hall as [|? ? Hip Hrest]; subst. inversion Hrest as [|? ? Hfp _]; subst.
    assert (Hboth : no_digit (ip ++ fp) = true).
    { unfold no_digit in *. now rewrite str_forall_app, Hip, Hfp. }
    destruct (ip ++ fp)%string as [|c t]; [reflexivity|].
    now rewrite (digits_value_no_digit c t Hboth).
Qed.

Lemma py_float_no_digit (s : string) : no_digit s = true -> py_float (F:=F) s = None.
Proof.
  intros Hs. rewrite py_float_cases. destruct s as [|c r].
  - now apply float_of_body_no_digit.
  - destruct (Ascii.eqb c "-"); apply float_of_body_no_digit; [|exact Hs].
    unfold no_digit in *. cbn [str_forall] in Hs. apply andb_true_iff in Hs. tauto.
Qed.
End NumericFacts.

Lemma str_forall_tail (p : ascii -> bool) (c : ascii) (s : string) :
  str_forall p (String c s) = true -> str_forall p s = true.
Proof. cbn [str_forall]. rewrite andb_true_iff. tauto. Qed.

Lemma lstrip_forall (p : ascii -> bool) (s : string) :
  str_forall p s = true -> str_forall p (lstrip s) = true.
Proof.
  induction s as [|c s IH]; [reflexivity|]. intros Hs. cbn [lstrip].
  destruct (is_space c); [apply IH; now apply str_forall_tail in Hs | exact Hs].
Qed.

Lemma rstrip_forall (p : ascii -> bool) (s : string) :
  str_forall p s = true -> str_forall p (rstrip s) = true.
Proof.
  induction s as [|c s IH]; [reflexivity|].
  cbn [str_forall]. rewrite andb_true_iff. intros [Hc Hs]. specialize (IH Hs).
  rewrite rstrip_cons. destruct (rstrip s) as [|c' r].
  - destruct (is_space c); [reflexivity | cbn [str_forall]; now rewrite Hc].
  - change (str_forall p (String c (String c' r)))
      with (p c && str_forall p (String c' r))%bool.
    now rewrite Hc, IH.
Qed.

Lemma strip_forall (p : ascii -> bool) (s : string) :
  str_forall p s = true -> str_forall p (strip s) = true.
Proof. intros Hs. unfold strip. now apply rstrip_forall, lstrip_forall. Qed.

Lemma str_replace_forall (p : ascii -> bool) (c : ascii) (new s : string) :
  str_forall p new = true -> str_forall p s = true ->
  str_forall p (str_replace c new s) = true.
Proof.
  intros Hnew. induction s as [|x s IH]; [reflexivity|].
  cbn [str_forall]. rewrite andb_true_iff. intros [Hx Hs]. specialize (IH Hs).
  cbn [str_replace]. destruct (Ascii.eqb x c).
  - now rewrite str_forall_app, Hnew, IH.
  - cbn [str_forall]. now rewrite Hx, IH.
Qed.

Lemma str_filter_forall (p q : ascii -> bool) (s : string) :
  str_forall p s = true -> str_forall p (str_filter q s) = true.
Proof.
  induction s as [|x s IH]; [reflexivity|].
  cbn [str_forall]. rewrite andb_true_iff. intros [Hx Hs]. specialize (IH Hs).
  cbn [str_filter]. destruct (q x); [cbn [str_forall]; now rewrite Hx, IH | exact IH].
Qed.

(** X7: a value in which no decimal digit occurs is not a number:
    [parse_numeric] returns None for it, whatever the other characters are
    (the empty string, white space, "n/a", a sign or a point alone), in
    every arithmetic. *)
Theorem parse_numeric_without_digit (F : Type) (numF : Num F) (value : string) :
  no_digit value = true -> parse_numeric (F:=F) (Some value) = None.
Proof.
  intros Hv. unfold parse_numeric. cbv zeta.
  destruct (negb (truthy (strip value))); [reflexivity|].
  match goal with
  | |- (if ?b then None else py_float ?s) = None =>
      destruct b; [reflexivity | apply py_float_no_digit]
  end.
  unfold sub_non_numeric. apply str_filter_forall.
  assert (Hc : no_digit (str_replace "%" "" (str_replace " " "" (strip value))) = true).
  { unfold no_digit in *. apply str_replace_forall; [reflexivity|].
    apply str_replace_forall; [reflexivity|]. now apply strip_forall. }
  set (cleaned := str_replace "%" "" (str_replace " " "" (strip value))) in *.
  unfold no_digit in *.
  destruct (str_contains "," cleaned && negb (str_contains "." cleaned))%bool; [|exact Hc].
  destruct ((str_count "," cleaned =? 1)%nat
            && (String.length (nth 1 (str_split_on "," cleaned) "") <=? 2)%nat)%bool;
    apply str_replace_forall; auto.
Qed.

Lemma parse_numeric_without_digit_witness :
  no_digit "n/a" = true /\ parse_numeric (F:=R) (Some "n/a") = None.
Proof.
  split; [reflexivity|].
  apply (parse_numeric_without_digit R RNum "n/a"). reflexivity.
Defined.

(** *** What [parse_numeric] removes *)

Lemma numeric_char_not_space (c : ascii) :
  is_numeric_char c = true ->
  is_space c = false /\ Ascii.eqb c " " = false /\ Ascii.eqb c "%" = false
  /\ Ascii.eqb c "," = false.
Proof.
  destruct c as [[] [] [] [] [] [] [] []]; vm_compute;
    intros Hc; try discriminate; repeat split.
Qed.

Lemma space_not_numeric (c : ascii) : is_space c = true -> is_numeric_char c = false.
Proof.
  intros Hs. destruct (is_numeric_char c) eqn:E; [|reflexivity].
  apply numeric_char_not_space in E. destruct E as [E _]. congruence.
Qed.

Lemma str_filter_lstrip (s : string) :
  str_filter is_numeric_char (lstrip s) = str_filter is_numeric_char s.
Proof.
  induction s as [|c s IH]; [reflexivity|]. cbn [lstrip].
  destruct (is_space c) eqn:Ec; [|reflexivity].
  cbn [str_filter]. now rewrite (space_not_numeric c Ec).
Qed.

Lemma str_filter_rstrip (s : string) :
  str_filter is_numeric_char (rstrip s) = str_filter is_numeric_char s.
Proof.
  induction s as [|c s IH]; [reflexivity|]. rewrite rstrip_cons.
  destruct (rstrip s) as [|c' r].
  - cbn [str_filter] in IH |- *. rewrite <- IH.
    destruct (is_space c) eqn:Ec; [|reflexivity].
    now rewrite (space_not_numeric c Ec).
  - change (str_filter is_numeric_char (String c (String c' r)))
      with (if is_numeric_char c then String c (str_filter is_numeric_char (String c' r))
            else str_filter is_numeric_char (String c' r)).
    rewrite IH. reflexivity.
Qed.

Lemma str_filter_delete (q : ascii -> bool) (c : ascii) (s : string) :
  q c = false -> str_filter q (str_replace c "" s) = str_filter q s.
Proof.
  intros Hq. induction s as [|x s IH]; [reflexivity|].
  cbn [str_replace str_filter]. destruct (Ascii.eqb x c) eqn:E.
  - apply Ascii.eqb_eq in E. subst x. now rewrite Hq.
  - cbn [str_filter]. now rewrite IH.
Qed.

Lemma str_filter_all (q : ascii -> bool) (s : string) :
  str_forall q (str_filter q s) = true.
Proof.
  induction s as [|x s IH]; [reflexivity|]. cbn [str_filter].
  destruct (q x) eqn:E; [cbn [str_forall]; now rewrite E, IH | exact IH].
Qed.

Lemma str_filter_fixed (q : ascii -> bool) (s : string) :
  str_forall q s = true -> str_filter q s = s.
Proof.
  induction s as [|x s IH]; [reflexivity|].
  cbn [str_forall str_filter]. rewrite andb_true_iff. intros [Hx Hs].
  now rewrite Hx, (IH Hs).
Qed.

Lemma str_contains_forall (c : ascii) (s : string) :
  str_contains c s = false <-> str_forall (fun x => negb (Ascii.eqb x c)) s = true.
Proof.
  induction s as [|x s IH]; cbn [str_contains str_forall]; [tauto|].
  rewrite orb_false_iff, andb_true_iff, negb_true_iff, IH. tauto.
Qed.

Lemma sub_non_numeric_cleaned (value : string) :
  sub_non_numeric (cleaned_of value) = sub_non_numeric value.
Proof.
  unfold sub_non_numeric, cleaned_of, strip.
  change (fun c : ascii => (is_digit c || (c =? ".")%char || (c =? "-")%char)%bool)
    with is_numeric_char.
  rewrite !str_filter_delete by reflexivity.
  now rewrite str_filter_rstrip, str_filter_lstrip.
Qed.

Lemma cleaned_of_no_comma (value : string) :
  str_contains "," value = false -> str_contains "," (cleaned_of value) = false.
Proof.
  rewrite !str_contains_forall. intros Hv. unfold cleaned_of.
  apply str_replace_forall; [reflexivity|]. apply str_replace_forall; [reflexivity|].
  now apply strip_forall.
Qed.

Lemma numeric_tail_cleaned {F : Type} `{Num F} (value : string) :
  numeric_tail (F:=F) (cleaned_of value) = numeric_tail value.
Proof. unfold numeric_tail. now rewrite sub_non_numeric_cleaned. Qed.

(** Without a comma, the value is read from its digits, points and minus
    signs alone. *)
Lemma parse_numeric_plain {F : Type} `{Num F} (value : string) :
  str_contains "," value = false ->
  parse_numeric (F:=F) (Some value) = numeric_tail value.
Proof.
  intros Hv. destruct (truthy (strip value)) eqn:Hs.
  - rewrite (parse_numeric_unfold value Hs).
    rewrite (cleaned_of_no_comma value Hv). cbn [andb].
    apply numeric_tail_cleaned.
  - unfold parse_numeric. rewrite Hs. cbn [negb].
    unfold truthy in Hs. apply negb_false_iff, String.eqb_eq in Hs.
    unfold numeric_tail, sub_non_numeric.
    change (fun c : ascii => (is_digit c || (c =? ".")%char || (c =? "-")%char)%bool)
      with is_numeric_char.
    assert (Hf : str_filter is_numeric_char value = "").
    { rewrite <- str_filter_lstrip, <- str_filter_rstrip. fold (strip value).
      now rewrite Hs. }
    now rewrite Hf.
Qed.

Lemma sub_non_numeric_no_comma (value : string) :
  str_contains "," (sub_non_numeric value) = false.
Proof.
  apply str_contains_forall.
  apply (str_forall_impl is_numeric_char).
  - intros c Hc. apply numeric_char_not_space in Hc.
    destruct Hc as [_ [_ [_ Hc]]]. now rewrite Hc.
  - apply (str_filter_all is_numeric_char).
Qed.

Lemma sub_non_numeric_idem (value : string) :
  sub_non_numeric (sub_non_numeric value) = sub_non_numeric value.
Proof. unfold sub_non_numeric. apply str_filter_fixed, str_filter_all. Qed.

(** X8: in a value without a comma, [parse_numeric] reads the digits, the
    points and the minus signs and nothing else: the value parses to the same
    number (or to None) as what is left of it when every other character (a
    currency sign, a percent sign, a unit, a space inside or around it) is
    removed.  In every arithmetic. *)
Theorem parse_numeric_ignores_noise (F : Type) (numF : Num F) (value : string) :
  str_contains "," value = false ->
  parse_numeric (F:=F) (Some value) = parse_numeric (Some (sub_non_numeric value)).
Proof.
  intros Hv. rewrite (parse_numeric_plain value Hv).
  rewrite (parse_numeric_plain _ (sub_non_numeric_no_comma value)).
  unfold numeric_tail. now rewrite sub_non_numeric_idem.
Qed.

Lemma parse_numeric_ignores_noise_witness :
  str_contains "," " EUR 1 299.90 " = false
  /\ sub_non_numeric " EUR 1 299.90 " = "1299.90"
  /\ parse_numeric (F:=R) (Some " EUR 1 299.90 ") = parse_numeric (Some "1299.90").
Proof.
  split; [reflexivity|]. split; [reflexivity|].
  apply (parse_numeric_ignores_noise R RNum " EUR 1 299.90 "). reflexivity.
Defined.

(** ** detect_columns *)

Lemma detect_columns_loops (headers : list string) (override : dict string string) :
  detect_columns headers override
  = fold_left (candidates_step (normalized_headers (available_headers headers)))
      COLUMN_CANDIDATES
      (fold_left (override_step (available_headers headers)) override
         (map (fun kc => (fst kc, None)) COLUMN_CANDIDATES)).
Proof. reflexivity. Qed.

Lemma sget_sset_same {V : Type} (d : dict string V) (k : string) (v : V) :
  sget (sset d k v) k = Some v.
Proof. apply (dict_get_set_same String.eqb String_eqb_spec). Qed.

Lemma sget_sset_other {V : Type} (d : dict string V) (k k' : string) (v : V) :
  k' <> k -> sget (sset d k v) k' = sget d k'.
Proof. apply (dict_get_set_other String.eqb String_eqb_spec). Qed.

Lemma smem_sset {V : Type} (d : dict string V) (k k' : string) (v : V) :
  smem d k' = true -> smem (sset d k v) k' = true.
Proof.
  unfold smem, dict_mem. fold (sget d k') (sget (sset d k v) k').
  destruct (String.eqb k' k) eqn:E.
  - apply String.eqb_eq in E. subst k'. now rewrite sget_sset_same.
  - apply String.eqb_neq in E. now rewrite (sget_sset_other d k k' v E).
Qed.

Lemma fold_left_invariant {X Y : Type} (P : Y -> Prop) (step : Y -> X -> Y) (l : list X) :
  (forall y x, P y -> P (step y x)) -> forall y, P y -> P (fold_left step l y).
Proof.
  intros Hstep. induction l as [|x l IH]; intros y Hy; [exact Hy|].
  cbn [fold_left]. apply IH, Hstep, Hy.
Qed.

Lemma override_step_mem (available : list string) (mapping : dict string (option string))
      (item : string * string) (key : string) :
  smem mapping key = true -> smem (override_step available mapping item) key = true.
Proof.
  intros Hm. unfold override_step. destruct item as [canonical chosen].
  destruct (str_in chosen available); [now apply smem_sset | exact Hm].
Qed.

Lemma candidates_step_mem (n2o : dict string string) (mapping : dict string (option string))
      (item : string * list string) (key : string) :
  smem mapping key = true -> smem (candidates_step n2o mapping item) key = true.
Proof.
  intros Hm. unfold candidates_step. destruct item as [canonical candidates].
  destruct (truthy_opt (sget_or mapping canonical None)); [exact Hm|].
  destruct (find _ candidates); [now apply smem_sset | exact Hm].
Qed.

Lemma detect_columns_mem (headers : list string) (override : dict string string)
      (key : string) :
  In key (dict_keys COLUMN_CANDIDATES) ->
  smem (detect_columns headers override) key = true.
Proof.
  intros Hin. rewrite detect_columns_loops.
  apply (fold_left_invariant (fun m => smem m key = true));
    [intros; now apply candidates_step_mem|].
  apply (fold_left_invariant (fun m => smem m key = true));
    [intros; now apply override_step_mem|].
  revert key Hin. apply Forall_forall. repeat constructor.
Qed.

Lemma detect_columns_subscript (headers : list string) (override : dict string string)
      (key : string) :
  In key (dict_keys COLUMN_CANDIDATES) ->
  exists column, dict_subscript (detect_columns headers override) key = Ok column.
Proof.
  intros Hin. pose proof (detect_columns_mem headers override key Hin) as Hm.
  unfold dict_subscript. unfold smem, dict_mem in Hm.
  fold (sget (detect_columns headers override) key) in Hm.
  destruct (sget (detect_columns headers override) key) as [column|]; [|discriminate].
  now exists column.
Qed.

(** X9: whatever the headers and the overrides, the mapping that
    [detect_columns] returns has the eight canonical keys (title,
    description, price, rating, image_url, category, brand, url): a
    subscript [columns[key]] with one of them never raises KeyError. *)
Theorem detect_columns_has_every_key (headers : list string)
        (override : dict string string) :
  Forall (fun key => exists column,
              dict_subscript (detect_columns headers override) key = Ok column)
         ["title"; "description"; "price"; "rating"; "image_url"; "category";
          "brand"; "url"].
Proof.
  apply Forall_forall. intros key Hin. now apply detect_columns_subscript.
Qed.

(** *** The columns are headers *)

Lemma sset_Forall {V : Type} (Q : V -> Prop) (d : dict string V) (k : string) (v : V) :
  Forall (fun kv : string * V => Q (snd kv)) d -> Q v ->
  Forall (fun kv : string * V => Q (snd kv)) (sset d k v).
Proof.
  intros Hd Hv. induction Hd as [|[k' v'] d Hkv Hd IH]; cbn [sset dict_set].
  - now repeat constructor.
  - unfold sset in IH. destruct (String.eqb k k'); constructor; assumption.
Qed.

Lemma sget_Forall {V : Type} (Q : V -> Prop) (d : dict string V) (k : string) (v : V) :
  Forall (fun kv : string * V => Q (snd kv)) d -> sget d k = Some v -> Q v.
Proof.
  intros Hd Hk. apply (dict_get_In String.eqb String_eqb_spec) in Hk.
  rewrite Forall_forall in Hd. exact (Hd _ Hk).
Qed.

(** The headers by normalised name: each value is an available header,
    filed under its own normalised name. *)
Lemma normalized_headers_values (available : list string) :
  Forall (fun kv : string * string => In (snd kv) available)
         (normalized_headers available).
Proof.
  unfold normalized_headers.
  assert (Hgen : forall l d,
             (forall h, In h l -> In h available) ->
             Forall (fun kv : string * string => In (snd kv) available) d ->
             Forall (fun kv : string * string => In (snd kv) available)
                    (fold_left (fun d h => sset d (normalize_text (Some h) false) h) l d)).
  { induction l as [|h l IH]; intros d Hl Hd; [exact Hd|].
    cbn [fold_left]. apply IH; [intros; apply Hl; now right|].
    apply (sset_Forall (fun h => In h available)); [exact Hd | apply Hl; now left]. }
  apply Hgen; [auto | constructor].
Qed.

Lemma override_step_among (available : list string)
      (mapping : dict string (option string)) (item : string * string) :
  columns_among available mapping ->
  columns_among available (override_step available mapping item).
Proof.
  intros Hm. unfold override_step. destruct item as [canonical chosen].
  destruct (str_in chosen available) eqn:E; [|exact Hm].
  apply (sset_Forall (fun c : option string =>
                        match c with Some h => In h available | None => True end));
    [exact Hm | now apply str_in_In].
Qed.

Lemma candidates_step_among (available : list string)
      (mapping : dict string (option string)) (item : string * list string) :
  columns_among available mapping ->
  columns_among available (candidates_step (normalized_headers available) mapping item).
Proof.
  intros Hm. unfold candidates_step. destruct item as [canonical candidates].
  destruct (truthy_opt (sget_or mapping canonical None)); [exact Hm|].
  destruct (find _ candidates) as [candidate|]; [|exact Hm].
  apply (sset_Forall (fun c : option string =>
                        match c with Some h => In h available | None => True end));
    [exact Hm|].
  destruct (sget (normalized_headers available) _) as [h|] eqn:E; [|exact I].
  exact (sget_Forall (fun h => In h available) _ _ _ (normalized_headers_values available) E).
Qed.

(** X10: [detect_columns] never invents a column: every column of the
    mapping it returns, from an override or from the candidates, is one of
    the headers of the file, stripped of the white space around it (the empty
    headers left out). *)
Theorem detect_columns_chooses_headers (headers : list string)
        (override : dict string string) :
  Forall (fun kv : string * option string =>
            match snd kv with
            | Some column => In column (map strip (filter truthy headers))
            | None => True
            end)
         (detect_columns headers override).
Proof.
  rewrite detect_columns_loops.
  apply (fold_left_invariant (columns_among (available_headers headers)));
    [intros; now apply candidates_step_among|].
  apply (fold_left_invariant (columns_among (available_headers headers)));
    [intros; now apply override_step_among|].
  repeat constructor.
Qed.

(** *** Overrides *)

Lemma override_step_other (available : list string)
      (mapping : dict string (option string)) (item : string * string) (key : string) :
  fst item <> key ->
  sget (override_step available mapping item) key = sget mapping key.
Proof.
  intros Hne. unfold override_step. destruct item as [canonical chosen].
  destruct (str_in chosen available); [|reflexivity].
  apply sget_sset_other. cbn [fst] in Hne. congruence.
Qed.

Lemma override_loop_other (available : list string) (override : dict string string)
      (key : string) :
  ~ In key (dict_keys override) ->
  forall mapping,
    sget (fold_left (override_step available) override mapping) key = sget mapping key.
Proof.
  induction override as [|item override IH]; intros Hnotin mapping; [reflexivity|].
  cbn [fold_left]. rewrite IH by (intros Hin; apply Hnotin; now right).
  apply override_step_other. intros Heq. apply Hnotin. left. exact Heq.
Qed.

Lemma override_loop_sets (available : list string) (override : dict string string)
      (canonical chosen : string) :
  NoDup (dict_keys override) ->
  In (canonical, chosen) override ->
  In chosen available ->
  forall mapping,
    sget (fold_left (override_step available) override mapping) canonical
    = Some (Some chosen).
Proof.
  induction override as [|item override IH]; intros Hnd Hin Hav mapping; [destruct Hin|].
  cbn [dict_keys map] in Hnd. inversion Hnd as [|? ? Hnotin Hnd']; subst.
  cbn [fold_left]. destruct Hin as [->|Hin].
  - rewrite (override_loop_other available override canonical Hnotin).
    unfold override_step. rewrite (proj2 (str_in_In chosen available) Hav).
    apply sget_sset_same.
  - now apply IH.
Qed.

Lemma candidates_step_keeps (n2o : dict string string)
      (mapping : dict string (option string)) (item : string * list string)
      (canonical : string) :
  resolved mapping canonical = true ->
  sget (candidates_step n2o mapping item) canonical = sget mapping canonical.
Proof.
  intros Hres. unfold candidates_step. destruct item as [key candidates].
  destruct (truthy_opt (sget_or mapping key None)) eqn:Hk; [reflexivity|].
  destruct (find _ candidates); [|reflexivity].
  apply sget_sset_other. intros ->. unfold resolved in Hres. congruence.
Qed.

Lemma resolved_sget (mapping mapping' : dict string (option string)) (canonical : string) :
  sget mapping' canonical = sget mapping canonical ->
  resolved mapping' canonical = resolved mapping canonical.
Proof.
  intros Heq. unfold resolved, sget_or, dict_get_or.
  unfold sget in Heq. now rewrite Heq.
Qed.

Lemma candidates_loop_keeps (n2o : dict string string) (l : list (string * list string))
      (canonical : string) :
  forall mapping,
    resolved mapping canonical = true ->
    sget (fold_left (candidates_step n2o) l mapping) canonical = sget mapping canonical.
Proof.
  induction l as [|item l IH]; intros mapping Hres; [reflexivity|].
  cbn [fold_left].
  pose proof (candidates_step_keeps n2o mapping item canonical Hres) as Hstep.
  rewrite IH; [exact Hstep|].
  now rewrite (resolved_sget _ _ _ Hstep).
Qed.

(** X11: an override has precedence over the candidates: when the
    overrides name, for a key, a column that is a header of the file (as it
    is written once stripped, and not empty), [detect_columns] maps the key
    to that column, whatever the other headers are. *)
Theorem detect_columns_override_wins (headers : list string)
        (override : dict string string) (canonical chosen : string) :
  NoDup (dict_keys override) ->
  In (canonical, chosen) override ->
  In chosen (map strip (filter truthy headers)) ->
  chosen <> "" ->
  sget (detect_columns headers override) canonical = Some (Some chosen).
Proof.
  intros Hnd Hin Hav Hne. rewrite detect_columns_loops.
  pose proof (override_loop_sets (available_headers headers) override canonical chosen
                Hnd Hin Hav (map (fun kc => (fst kc, None)) COLUMN_CANDIDATES)) as Hset.
  rewrite candidates_loop_keeps; [exact Hset|].
  unfold resolved, sget_or, dict_get_or. unfold sget in Hset. rewrite Hset.
  cbn [truthy_opt]. unfold truthy. apply negb_true_iff, String.eqb_neq. exact Hne.
Qed.

Lemma detect_columns_override_wins_witness :
  sget (detect_columns ["name"; " label "; "price"] [("title", "label")]) "title"
  = Some (Some "label").
Proof.
  apply (detect_columns_override_wins ["name"; " label "; "price"] [("title", "label")]
           "title" "label").
  - repeat constructor. intros [].
  - now left.
  - right. now left.
  - discriminate.
Defined.

Lemma override_loop_ignored (available : list string) (override : dict string string) :
  (forall item, In item override -> str_in (snd item) available = false) ->
  forall mapping, fold_left (override_step available) override mapping = mapping.
Proof.
  induction override as [|item override IH]; intros Hall mapping; [reflexivity|].
  cbn [fold_left].
  assert (Hstep : override_step available mapping item = mapping).
  { unfold override_step. destruct item as [canonical chosen].
    pose proof (Hall (canonical, chosen) (or_introl eq_refl)) as Hc.
    cbn [snd] in Hc. now rewrite Hc. }
  rewrite Hstep. apply IH. intros item' Hin. apply Hall. now right.
Qed.

(** X12: overrides that name columns the file does not have are ignored
    without an error: when no column of the overrides is (exactly, case
    included) one of the stripped headers, [detect_columns] returns what it
    returns without overrides. *)
Theorem detect_columns_ignores_unknown_overrides (headers : list string)
        (override : dict string string) :
  (forall item, In item override ->
                str_in (snd item) (map strip (filter truthy headers)) = false) ->
  detect_columns headers override = detect_columns headers [].
Proof.
  intros Hall. rewrite !detect_columns_loops.
  now rewrite (override_loop_ignored (available_headers headers) override Hall).
Qed.

Lemma detect_columns_ignores_unknown_overrides_witness :
  detect_columns ["Title"; "price"] [("title", "title"); ("price", "cost")]
  = detect_columns ["Title"; "price"] [].
Proof.
  apply (detect_columns_ignores_unknown_overrides ["Title"; "price"]
           [("title", "title"); ("price", "cost")]).
  intros item [<-|[<-|[]]]; reflexivity.
Defined.

(** *** Candidates *)

Lemma normalized_headers_mem (available : list string) (header : string) :
  In header available ->
  smem (normalized_headers available) (normalize_text (Some header) false) = true.
Proof.
  unfold normalized_headers.
  assert (Hgen : forall l d,
             In header l \/ smem d (normalize_text (Some header) false) = true ->
             smem (fold_left (fun d h => sset d (normalize_text (Some h) false) h) l d)
                  (normalize_text (Some header) false) = true).
  { induction l as [|h l IH]; intros d Hor.
    - destruct Hor as [[]|Hd]. exact Hd.
    - cbn [fold_left]. apply IH. destruct Hor as [[->|Hin]|Hd].
      + right. unfold smem, dict_mem.
        fold (sget (sset d (normalize_text (Some header) false) header)
                   (normalize_text (Some header) false)).
        now rewrite sget_sset_same.
      + now left.
      + right. now apply smem_sset. }
  intros Hin. apply Hgen. now left.
Qed.

Lemma sset_Forall_pairs {V : Type} (Q : string * V -> Prop) (d : dict string V)
      (k : string) (v : V) :
  Forall Q d -> Q (k, v) -> Forall Q (sset d k v).
Proof.
  intros Hd Hv. induction Hd as [|[k' v'] d Hkv Hd IH]; cbn [sset dict_set].
  - now repeat constructor.
  - unfold sset in IH. destruct (String.eqb k k'); constructor; assumption.
Qed.

Lemma normalized_headers_keys (available : list string) :
  Forall (fun kv : string * string => normalize_text (Some (snd kv)) false = fst kv)
         (normalized_headers available).
Proof.
  unfold normalized_headers.
  apply (fold_left_invariant
           (Forall (fun kv : string * string =>
                      normalize_text (Some (snd kv)) false = fst kv)));
    [|constructor].
  intros d h Hd. now apply (sset_Forall_pairs _ d).
Qed.

(** No candidate has an empty normalised name. *)
Lemma COLUMN_CANDIDATES_names :
  Forall (fun item : string * list string =>
            Forall (fun candidate => normalize_text (Some candidate) false <> "")
                   (snd item))
         COLUMN_CANDIDATES.
Proof. repeat constructor; discriminate. Qed.

Lemma candidates_step_resolves (available : list string)
      (mapping : dict string (option string)) (canonical : string)
      (candidates : list string) (candidate : string) :
  Forall (fun candidate => normalize_text (Some candidate) false <> "") candidates ->
  In candidate candidates ->
  smem (normalized_headers available) (normalize_text (Some candidate) false) = true ->
  resolved (candidates_step (normalized_headers available) mapping (canonical, candidates))
           canonical = true.
Proof.
  intros Hnames Hin Hmem. unfold candidates_step.
  destruct (truthy_opt (sget_or mapping canonical None)) eqn:Hres; [exact Hres|].
  destruct (find _ candidates) as [found|] eqn:Hfind.
  - apply find_some in Hfind. destruct Hfind as [Hfin Hfmem].
    unfold resolved, sget_or, dict_get_or.
    fold (sget (sset mapping canonical
                     (sget (normalized_headers available)
                           (normalize_text (Some found) false))) canonical).
    rewrite sget_sset_same.
    unfold smem, dict_mem in Hfmem.
    fold (sget (normalized_headers available) (normalize_text (Some found) false)) in Hfmem.
    destruct (sget (normalized_headers available) (normalize_text (Some found) false))
      as [h|] eqn:Eh; [|discriminate].
    cbn [truthy_opt]. unfold truthy. apply negb_true_iff, String.eqb_neq. intros ->.
    pose proof (normalized_headers_keys available) as Hkeys.
    rewrite Forall_forall in Hkeys.
    apply (dict_get_In String.eqb String_eqb_spec) in Eh.
    specialize (Hkeys _ Eh). cbn [fst snd] in Hkeys.
    rewrite Forall_forall in Hnames. apply (Hnames found Hfin). now rewrite <- Hkeys.
  - exfalso. apply (find_none _ _ Hfind) in Hin. cbv beta in Hin. congruence.
Qed.

Lemma candidates_loop_resolves (available : list string) (canonical : string)
      (candidates : list string) (candidate : string) (l : list (string * list string)) :
  Forall (fun candidate => normalize_text (Some candidate) false <> "") candidates ->
  In candidate candidates ->
  smem (normalized_headers available) (normalize_text (Some candidate) false) = true ->
  In (canonical, candidates) l ->
  forall mapping,
    resolved (fold_left (candidates_step (normalized_headers available)) l mapping)
             canonical = true.
Proof.
  intros Hnames Hin Hmem. induction l as [|item l IH]; intros Hl mapping; [destruct Hl|].
  cbn [fold_left]. destruct Hl as [->|Hl]; [|now apply IH].
  pose proof (candidates_step_resolves available mapping canonical candidates candidate
                Hnames Hin Hmem) as Hres.
  rewrite (resolved_sget _ _ _ (candidates_loop_keeps _ l canonical _ Hres)).
  exact Hres.
Qed.

(** X13: a header is recognised whatever its case, its accents, its
    punctuation and its spaces: when some header of the file has the same
    normalised name (without spaces) as one of the candidates of a canonical
    key, [detect_columns] resolves that key to a column
    ([columns.get(key)] is truthy), with or without overrides. *)
Theorem detect_columns_recognises_candidates (headers : list string)
        (override : dict string string) (canonical : string)
        (candidates : list string) (candidate header : string) :
  In (canonical, candidates) COLUMN_CANDIDATES ->
  In candidate candidates ->
  In header (map strip (filter truthy headers)) ->
  normalize_text (Some header) false = normalize_text (Some candidate) false ->
  resolved (detect_columns headers override) canonical = true.
Proof.
  intros Hcc Hin Hav Heq. rewrite detect_columns_loops.
  apply (candidates_loop_resolves (available_headers headers) canonical candidates candidate).
  - pose proof COLUMN_CANDIDATES_names as Hall. rewrite Forall_forall in Hall.
    exact (Hall _ Hcc).
  - exact Hin.
  - rewrite <- Heq. now apply normalized_headers_mem.
  - exact Hcc.
Qed.

Lemma detect_columns_recognises_candidates_witness :
  resolved (detect_columns ["SKU"; " Product-Name "; "Prix (EUR)"] []) "title" = true.
Proof.
  apply (detect_columns_recognises_candidates ["SKU"; " Product-Name "; "Prix (EUR)"] []
           "title" ["title"; "name"; "product_name"; "nom"; "titre"; "product"]
           "product_name" "Product-Name").
  - now left.
  - right. right. now left.
  - right. now left.
  - reflexivity.
Defined.

(** ** load_data: what it raises *)

Section LoadFacts.
Context {F : Type} `{PyMath F}.
Variable columns : dict string (option string).
Hypothesis columns_keys :
  forall key, In key (dict_keys COLUMN_CANDIDATES) -> smem columns key = true.

Lemma columns_subscript (key : string) :
  In key (dict_keys COLUMN_CANDIDATES) ->
  exists column, dict_subscript columns key = Ok column /\ sget columns key = Some column.
Proof.
  intros Hin. pose proof (columns_keys key Hin) as Hm.
  unfold dict_subscript. unfold smem, dict_mem in Hm. fold (sget columns key) in Hm.
  destruct (sget columns key) as [column|]; [|discriminate]. now exists column.
Qed.

Lemma text_cell_outcome (row : csv_row) (key : string) :
  In key text_keys ->
  (exists cell, text_cell columns row key = Ok cell /\ strip cell = cell)
  \/ (text_cell columns row key = Raise AttributeError /\ missing_cell columns row key = true).
Proof.
  intros Hin.
  assert (Hkey : In key (dict_keys COLUMN_CANDIDATES)).
  { revert key Hin. apply Forall_forall. repeat constructor; cbn; tauto. }
  destruct (columns_subscript key Hkey) as [column [Hsub Hget]].
  unfold text_cell, missing_cell. rewrite Hsub, Hget. cbn [bind].
  assert (Hstrip : forall s, strip (strip s) = strip s).
  { intros s. apply strip_fixed; unfold strip.
    - apply rstrip_head_ok, lstrip_head_ok.
    - apply rstrip_last_ok. }
  destruct column as [c|]; [|left; eexists; split; [reflexivity | apply Hstrip]].
  destruct (truthy c); [|left; eexists; split; [reflexivity | apply Hstrip]].
  destruct (sget row c) as [[cell|]|].
  - left. eexists; split; [reflexivity | apply Hstrip].
  - right. now split.
  - left. eexists; split; [reflexivity | apply Hstrip].
Qed.

Lemma numeric_cell_ok (row : csv_row) (key : string) :
  In key ["price"; "rating"] ->
  exists value, numeric_cell (F:=F) columns row key = Ok value.
Proof.
  intros Hin.
  assert (Hkey : In key (dict_keys COLUMN_CANDIDATES)).
  { revert key Hin. apply Forall_forall. repeat constructor; cbn; tauto. }
  destruct (columns_subscript key Hkey) as [column [Hsub _]].
  unfold numeric_cell. rewrite Hsub. cbn [bind].
  destruct column as [c|]; [|eauto].
  destruct (truthy c); [|eauto]. destruct (sget row c); eauto.
Qed.

Lemma missing_cell_raises (row : csv_row) (key : string) :
  In key text_keys ->
  missing_cell columns row key = true ->
  text_cell columns row key = Raise AttributeError.
Proof.
  intros Hin Hm.
  destruct (text_cell_outcome row key Hin) as [[cell [Hc _]]|[Hc _]]; [|exact Hc].
  exfalso. unfold text_cell in Hc. unfold missing_cell in Hm.
  destruct (sget columns key) as [[c|]|] eqn:Hget; try discriminate.
  unfold dict_subscript in Hc. rewrite Hget in Hc. cbn [bind] in Hc.
  destruct (truthy c); [|discriminate].
  destruct (sget row c) as [[x|]|]; discriminate.
Qed.

(** A round of the loop: the row is skipped, a product is added, or a
    missing cell raises AttributeError. *)
Lemma read_rows_step (idx : nat) (row : csv_row) (rows : list csv_row)
      (ps : list (Product F)) (cs : list string) (ds : list (list string)) :
  (titled columns row = false /\ missing_cell columns row "title" = false
   /\ read_rows columns idx (row :: rows) (ps, cs, ds)
      = read_rows columns (S idx) rows (ps, cs, ds))
  \/ (titled columns row = true
      /\ (forall key, In key text_keys -> missing_cell columns row key = false)
      /\ exists p cs',
        p_id p = idx /\ product_ok p
        /\ cs' = (if (truthy (p_category p) && negb (str_in (p_category p) cs))%bool
                  then cs ++ [p_category p] else cs)
        /\ read_rows columns idx (row :: rows) (ps, cs, ds)
           = read_rows columns (S idx) rows (ps ++ [p], cs', ds ++ [doc_tokens p]))
  \/ ((missing_cell columns row "title" = true
       \/ (titled columns row = true
           /\ exists key, In key text_keys /\ missing_cell columns row key = true))
      /\ read_rows columns idx (row :: rows) (ps, cs, ds) = Raise AttributeError).
Proof.
  cbn [read_rows]. unfold titled.
  destruct (text_cell_outcome row "title") as [[title [Ht Hst]]|[Ht Hm]];
    [cbn; tauto | | right; right; rewrite Ht; split; [now left | reflexivity]].
  rewrite Ht. cbn [bind].
  assert (Hmt : missing_cell columns row "title" = false).
  { destruct (missing_cell columns row "title") eqn:E; [|reflexivity].
    rewrite (missing_cell_raises row "title") in Ht; [discriminate | cbn; tauto | exact E]. }
  destruct (truthy title) eqn:Etitle; cbn [negb].
  2:{ left. now repeat split. }
  right.
  assert (Hraise : forall key, In key text_keys ->
                               missing_cell columns row key = true ->
                               (missing_cell columns row "title" = true
                                \/ (true = true
                                    /\ exists key, In key text_keys
                                                   /\ missing_cell columns row key = true))).
  { intros key Hin Hm. right. split; [reflexivity|]. now exists key. }
  destruct (text_cell_outcome row "description") as [[description [Hd Hsd]]|[Hd Hm]];
    [cbn; tauto | | right; rewrite Hd; split;
                    [apply (Hraise "description"); [cbn; tauto | exact Hm] | reflexivity]].
  rewrite Hd. cbn [bind].
  destruct (text_cell_outcome row "category") as [[category [Hc Hsc]]|[Hc Hm]];
    [cbn; tauto | | right; rewrite Hc; split;
                    [apply (Hraise "category"); [cbn; tauto | exact Hm] | reflexivity]].
  rewrite Hc. cbn [bind].
  destruct (text_cell_outcome row "brand") as [[brand [Hb Hsb]]|[Hb Hm]];
    [cbn; tauto | | right; rewrite Hb; split;
                    [apply (Hraise "brand"); [cbn; tauto | exact Hm] | reflexivity]].
  rewrite Hb. cbn [bind].
  destruct (text_cell_outcome row "image_url") as [[image_url [Hi Hsi]]|[Hi Hm]];
    [cbn; tauto | | right; rewrite Hi; split;
                    [apply (Hraise "image_url"); [cbn; tauto | exact Hm] | reflexivity]].
  rewrite Hi. cbn [bind].
  destruct (text_cell_outcome row "url") as [[url [Hu Hsu]]|[Hu Hm]];
    [cbn; tauto | | right; rewrite Hu; split;
                    [apply (Hraise "url"); [cbn; tauto | exact Hm] | reflexivity]].
  rewrite Hu. cbn [bind].
  destruct (numeric_cell_ok row "price") as [price Hp]; [cbn; tauto|].
  destruct (numeric_cell_ok row "rating") as [rating Hr]; [cbn; tauto|].
  rewrite Hp. cbn [bind]. rewrite Hr. cbn [bind].
  left. split; [reflexivity|]. split.
  - intros key Hin.
    destruct (missing_cell columns row key) eqn:E; [|reflexivity].
    pose proof (missing_cell_raises row key Hin E) as Hk.
    cbn in Hin.
    destruct Hin as [<-|[<-|[<-|[<-|[<-|[<-|[]]]]]]]; congruence.
  - exists {| p_id := idx; p_title := title; p_description := description;
              p_category := category; p_brand := brand; p_price := price;
              p_rating := rating; p_image_url := image_url; p_url := url;
              p_searchable_text :=
                str_join " " (tokenize (Some (str_join " " (filter truthy
                                [title; description; category; brand])))) |}.
    eexists. split; [|split; [|split; [reflexivity|reflexivity]]].
    + reflexivity.
    + unfold product_ok, doc_tokens.
      cbn [p_title p_description p_category p_brand p_image_url p_url p_searchable_text].
      split; [|split; [|reflexivity]].
      * intros ->. discriminate Etitle.
      * repeat constructor; assumption.
Qed.
End LoadFacts.

Lemma detect_columns_keys (headers : list string) (override : dict string string) :
  forall key, In key (dict_keys COLUMN_CANDIDATES) ->
              smem (detect_columns headers override) key = true.
Proof. intros key Hin. now apply detect_columns_mem. Qed.

Lemma read_rows_outcome {F : Type} `{PyMath F} (columns : dict string (option string))
      (rows : list csv_row) :
  (forall key, In key (dict_keys COLUMN_CANDIDATES) -> smem columns key = true) ->
  forall (idx : nat) (acc : load_acc (F:=F)),
    (exists acc', read_rows columns idx rows acc = Ok acc')
    \/ read_rows columns idx rows acc = Raise AttributeError.
Proof.
  intros Hkeys. induction rows as [|row rows IH]; intros idx [[ps cs] ds].
  - left. now exists (ps, cs, ds).
  - destruct (read_rows_step columns Hkeys idx row rows ps cs ds)
      as [[_ [_ Hstep]]|[[_ [_ [p [cs' [_ [_ [_ Hstep]]]]]]]|[_ Hstep]]];
      rewrite Hstep; [apply IH | apply IH | now right].
Qed.

Lemma read_rows_missing {F : Type} `{PyMath F} (columns : dict string (option string))
      (rows : list csv_row) (row : csv_row) :
  (forall key, In key (dict_keys COLUMN_CANDIDATES) -> smem columns key = true) ->
  In row rows ->
  missing_cell columns row "title" = true
  \/ (titled columns row = true
      /\ exists key, In key text_keys /\ missing_cell columns row key = true) ->
  forall (idx : nat) (acc : load_acc (F:=F)),
    read_rows columns idx rows acc = Raise AttributeError.
Proof.
  intros Hkeys Hin Hmiss. induction rows as [|r rows IH]; intros idx [[ps cs] ds];
    [destruct Hin|].
  destruct (read_rows_step columns Hkeys idx r rows ps cs ds)
    as [[Ht [Hm Hstep]]|[[Ht [Hm [p [cs' [_ [_ [_ Hstep]]]]]]]|[_ Hstep]]];
    [| |exact Hstep].
  - rewrite Hstep. destruct Hin as [->|Hin]; [|now apply IH].
    destruct Hmiss as [Hmiss|[Hmiss _]]; congruence.
  - rewrite Hstep. destruct Hin as [->|Hin]; [|now apply IH].
    destruct Hmiss as [Hmiss|[_ [key [Hk Hmiss]]]].
    + rewrite (Hm "title") in Hmiss; [discriminate | cbn; tauto].
    + rewrite (Hm key Hk) in Hmiss. discriminate.
Qed.

Lemma read_rows_acc_ok {F : Type} `{PyMath F} (columns : dict string (option string))
      (rows : list csv_row) :
  (forall key, In key (dict_keys COLUMN_CANDIDATES) -> smem columns key = true) ->
  forall (idx : nat) (acc acc' : load_acc (F:=F)),
    acc_ok acc -> read_rows columns idx rows acc = Ok acc' -> acc_ok acc'.
Proof.
  intros Hkeys. induction rows as [|row rows IH]; intros idx [[ps cs] ds] acc' Hacc Hrun.
  - cbn [read_rows] in Hrun. inversion Hrun; subst. exact Hacc.
  - destruct (read_rows_step columns Hkeys idx row rows ps cs ds)
      as [[_ [_ Hstep]]|[[_ [_ [p [cs' [_ [Hp [Hcs Hstep]]]]]]]|[_ Hstep]]];
      rewrite Hstep in Hrun; [now apply (IH _ _ _ Hacc Hrun) | | discriminate].
    apply (IH _ _ _) in Hrun; [exact Hrun|].
    destruct Hacc as [Hps [Hds [Hnd Hmem]]].
    split; [|split; [|split]].
    + apply Forall_app. split; [exact Hps | now constructor].
    + rewrite map_app, Hds. reflexivity.
    + subst cs'. destruct (truthy (p_category p) && negb (str_in (p_category p) cs))%bool
        eqn:E; [|exact Hnd].
      apply andb_true_iff in E. destruct E as [_ E]. apply negb_true_iff in E.
      apply NoDup_app; [exact Hnd | repeat constructor; intros [] |].
      intros c Hc [<-|[]]. apply (proj2 (str_in_In _ _)) in Hc. congruence.
    + intros c. subst cs'.
      assert (Hnew : (c <> "" /\ exists q, In q (ps ++ [p]) /\ p_category q = c)
                     <-> (In c cs \/ (c <> "" /\ p_category p = c))).
      { rewrite Hmem. split.
        - intros [Hne [q [Hq Hc]]]. apply in_app_iff in Hq.
          destruct Hq as [Hq|[<-|[]]]; [left; split; [exact Hne | now exists q] | now right].
        - intros [[Hne [q [Hq Hc]]]|[Hne Hc]].
          + split; [exact Hne|]. exists q. split; [apply in_app_iff; now left | exact Hc].
          + split; [exact Hne|]. exists p. split; [apply in_app_iff; right; now left | exact Hc]. }
      rewrite Hnew.
      destruct (truthy (p_category p)) eqn:Et; cbn [andb].
      * assert (Hne : p_category p <> "").
        { intros Heq. rewrite Heq in Et. discriminate. }
        destruct (str_in (p_category p) cs) eqn:Ein; cbn [negb].
        -- apply str_in_In in Ein. split; [now left|].
           intros [Hc|[_ <-]]; assumption.
        -- rewrite in_app_iff. cbn [In]. split.
           ++ intros [Hc|[<-|[]]]; [now left | right; now split].
           ++ intros [Hc|[_ <-]]; [now left | right; now left].
      * assert (Heq : p_category p = "").
        { unfold truthy in Et. now apply negb_false_iff, String.eqb_eq in Et. }
        split; [now left|]. intros [Hc|[Hne Hc]]; [exact Hc | congruence].
Qed.

(** *** [sorted] *)

Lemma ascii_compare_refl (c : ascii) : Ascii.compare c c = Eq.
Proof. unfold Ascii.compare. apply N.compare_refl. Qed.

Lemma ascii_compare_lt_trans (a b c : ascii) :
  Ascii.compare a b = Lt -> Ascii.compare b c = Lt -> Ascii.compare a c = Lt.
Proof. unfold Ascii.compare. rewrite !N.compare_lt_iff. lia. Qed.

Lemma string_compare_lt_trans (a : string) :
  forall b c, String.compare a b = Lt -> String.compare b c = Lt -> String.compare a c = Lt.
Proof.
  induction a as [|x a IH]; intros [|y b] [|z c]; cbn [String.compare];
    try discriminate; try reflexivity.
  destruct (Ascii.compare x y) eqn:Exy; try discriminate;
    destruct (Ascii.compare y z) eqn:Eyz; try discriminate.
  - apply Ascii.compare_eq_iff in Exy, Eyz. subst. rewrite ascii_compare_refl. apply IH.
  - apply Ascii.compare_eq_iff in Exy. subst. now rewrite Eyz.
  - apply Ascii.compare_eq_iff in Eyz. subst. now rewrite Exy.
  - now rewrite (ascii_compare_lt_trans x y z Exy Eyz).
Qed.

Lemma string_leb_trans (a b c : string) :
  String.leb a b = true -> String.leb b c = true -> String.leb a c = true.
Proof.
  unfold String.leb.
  destruct (String.compare a b) eqn:Eab; try discriminate;
    destruct (String.compare b c) eqn:Ebc; try discriminate; intros _ _.
  - apply String.compare_eq_iff in Eab. subst. now rewrite Ebc.
  - apply String.compare_eq_iff in Eab. subst. now rewrite Ebc.
  - apply String.compare_eq_iff in Ebc. subst. now rewrite Eab.
  - now rewrite (string_compare_lt_trans a b c Eab Ebc).
Qed.

Lemma insert_sorted_In (x y : string) (l : list string) :
  In y (insert_sorted x l) <-> y = x \/ In y l.
Proof.
  induction l as [|z l IH]; cbn [insert_sorted In]; [intuition congruence|].
  destruct (String.leb x z); cbn [In]; [intuition congruence|].
  rewrite IH. intuition congruence.
Qed.

Lemma sorted_In (y : string) (l : list string) : In y (sorted l) <-> In y l.
Proof.
  induction l as [|x l IH]; cbn [sorted In]; [tauto|].
  rewrite insert_sorted_In, IH. intuition congruence.
Qed.

Lemma insert_sorted_NoDup (x : string) (l : list string) :
  ~ In x l -> NoDup l -> NoDup (insert_sorted x l).
Proof.
  induction l as [|z l IH]; intros Hx Hl; cbn [insert_sorted].
  - constructor; [intros [] | constructor].
  - destruct (String.leb x z); [now constructor|].
    inversion Hl as [|? ? Hz Hl']; subst. constructor.
    + rewrite insert_sorted_In. intros [->|Hin]; [apply Hx; now left | contradiction].
    + apply IH; [|exact Hl']. intros Hin. apply Hx. now right.
Qed.

Lemma sorted_NoDup (l : list string) : NoDup l -> NoDup (sorted l).
Proof.
  induction 1 as [|x l Hx Hl IH]; cbn [sorted]; [constructor|].
  apply insert_sorted_NoDup; [|exact IH]. now rewrite sorted_In.
Qed.

Lemma insert_sorted_ordered (x : string) (l : list string) :
  StronglySorted (fun a b => String.leb a b = true) l ->
  StronglySorted (fun a b => String.leb a b = true) (insert_sorted x l).
Proof.
  induction 1 as [|z l Hl IH Hz]; cbn [insert_sorted].
  - repeat constructor.
  - destruct (String.leb x z) eqn:E.
    + constructor; [now constructor|]. constructor; [exact E|].
      eapply Forall_impl; [|exact Hz]. cbv beta. intros b Hb.
      now apply (string_leb_trans x z b).
    + constructor; [exact IH|]. apply Forall_forall. intros b Hb.
      apply insert_sorted_In in Hb. destruct Hb as [->|Hb].
      * destruct (String.leb_total x z) as [Hxz|Hzx]; congruence.
      * rewrite Forall_forall in Hz. now apply Hz.
Qed.

Lemma sorted_ordered (l : list string) :
  StronglySorted (fun a b => String.leb a b = true) (sorted l).
Proof.
  induction l as [|x l IH]; cbn [sorted]; [constructor | now apply insert_sorted_ordered].
Qed.

(** *** A load that returns *)

Lemma load_data_acc (reader : DictReader) (clock : R * R)
      (self self' : ProductSearchEngine R) :
  load_data (Some reader) clock self = (Ok tt, self') ->
  exists category_set,
    products self' <> []
    /\ acc_ok (products self', category_set, map doc_tokens (products self'))
    /\ self' = loaded_state self (products self') category_set
                 (map doc_tokens (products self')) clock.
Proof.
  intros Hload.
  destruct (load_data_success reader clock self self' Hload)
    as [ps [cs [ds [Hrun [Hne ->]]]]].
  assert (Hok : acc_ok (F:=R) (ps, cs, ds)).
  { apply (read_rows_acc_ok (columns_of reader self) (reader_rows reader)
             (detect_columns_keys _ _) 0 ([], [], []) _); [|exact Hrun].
    split; [constructor|]. split; [reflexivity|]. split; [constructor|].
    intros c. split; [intros [] | intros [_ [p [[] _]]]]. }
  pose proof Hok as [_ [Hds _]]. subst ds.
  exists cs. cbn [products loaded_state].
  split; [exact Hne|]. split; [exact Hok | reflexivity].
Qed.

Lemma load_data_file (file : option DictReader) (clock : R * R)
      (self self' : ProductSearchEngine R) :
  load_data file clock self = (Ok tt, self') -> exists reader, file = Some reader.
Proof. destruct file as [reader|]; [eauto | discriminate]. Qed.

Lemma shop_reader_loads (clock : R * R) :
  exists self',
    load_data (Some shop_reader) clock (new_engine "shop.csv" []) = (Ok tt, self')
    /\ List.length (products self') = 3.
Proof.
  rewrite load_data_cases.
  assert (Hh : has_headers shop_reader = true) by reflexivity.
  assert (Ht : has_title_column shop_reader (new_engine (F:=R) "shop.csv" []) = true)
    by (vm_compute; reflexivity).
  assert (Hr : exists p1 p2 p3 cs ds,
             read_rows (F:=R)
               (columns_of shop_reader (new_engine (F:=R) "shop.csv" []))
               0 (reader_rows shop_reader) ([], [], [])
             = Ok ([p1; p2; p3], cs, ds)).
  { vm_compute. repeat eexists. }
  destruct Hr as [p1 [p2 [p3 [cs [ds Hr]]]]].
  rewrite Hh, Ht, Hr. cbn [negb]. eexists. split; reflexivity.
Qed.

(** X14: once the file is open and its header and rows are read (the
    errors of [open], of the decoder and of the [csv] module are not part of
    this statement), a load ends in one of three ways and no other: it
    returns; it raises one of the three ValueErrors of [load_data] (no
    headers, no title column, no product); or it raises the AttributeError
    of [.strip()] on the None of a line that is shorter than the header.
    The code of [load_data], [detect_columns] and [_build_tfidf] itself
    never raises KeyError, IndexError or ZeroDivisionError, nor a
    ValueError of [math.log] or [math.sqrt], and whenever the load raises,
    the engine is as it was.  (Arithmetic over the reals.) *)
Theorem load_data_raises_only (reader : DictReader) (clock : R * R)
        (self : ProductSearchEngine R) :
  (exists self', load_data (Some reader) clock self = (Ok tt, self'))
  \/ (exists e, load_data (Some reader) clock self = (Raise e, self)
                /\ load_error e = true).
Proof.
  rewrite load_data_cases.
  destruct (negb (has_headers reader));
    [right; exists (ValueError msg_no_headers); now split|].
  destruct (negb (has_title_column reader self));
    [right; exists (ValueError msg_no_title); now split|].
  destruct (read_rows_outcome (F:=R) (columns_of reader self) (reader_rows reader)
              (detect_columns_keys _ _) 0 ([], [], [])) as [[[[ps cs] ds] Hrun]|Hrun];
    rewrite Hrun.
  - destruct ps as [|p ps]; [right; exists (ValueError msg_no_product); now split|].
    left. eexists. reflexivity.
  - right. exists AttributeError. now split.
Qed.

(** X15: a line that is shorter than the header makes the whole load fail:
    when the file has headers and a title column, and some row has None (the
    value [csv.DictReader] gives to a missing cell) under the title column,
    or has a title that is not blank and None under the column detected for
    the description, the category, the brand, the image or the link, then
    [load_data] raises AttributeError and leaves the engine as it was.  (A
    missing price or rating does no harm: [parse_numeric(None)] is None.) *)
Theorem load_data_short_line (reader : DictReader) (clock : R * R)
        (self : ProductSearchEngine R) (row : csv_row) :
  has_headers reader = true ->
  has_title_column reader self = true ->
  In row (reader_rows reader) ->
  missing_cell (columns_of reader self) row "title" = true
  \/ (titled (columns_of reader self) row = true
      /\ exists key, In key text_keys
                     /\ missing_cell (columns_of reader self) row key = true) ->
  load_data (Some reader) clock self = (Raise AttributeError, self).
Proof.
  intros Hh Ht Hin Hmiss. rewrite load_data_cases, Hh, Ht. cbn [negb].
  now rewrite (read_rows_missing (F:=R) (columns_of reader self) (reader_rows reader) row
                 (detect_columns_keys _ _) Hin Hmiss 0 ([], [], [])).
Qed.

Lemma load_data_short_line_witness :
  load_data (Some short_reader) (0%R, 1%R) (new_engine "shop.csv" [])
  = (Raise AttributeError, new_engine "shop.csv" []).
Proof.
  apply (load_data_short_line short_reader (0%R, 1%R) (new_engine "shop.csv" [])
           [("Title", Some "Tasse"); ("Category", None)]).
  - reflexivity.
  - vm_compute. reflexivity.
  - right. now left.
  - right. split; [vm_compute; reflexivity|].
    exists "category". split; [cbn; tauto | vm_compute; reflexivity].
Defined.

(** X16: after a load that returns, the engine has at least one product;
    every product has a title that is not empty; its title, description,
    category, brand, image and link are stripped of the white space around
    them; and its searchable text is the tokens of its title, description,
    category and brand (the empty ones left out), joined by spaces. *)
Theorem load_data_products (file : option DictReader) (clock : R * R)
        (self self' : ProductSearchEngine R) :
  load_data file clock self = (Ok tt, self') ->
  products self' <> [] /\ Forall product_ok (products self').
Proof.
  intros Hload. destruct (load_data_file file clock self self' Hload) as [reader ->].
  destruct (load_data_acc reader clock self self' Hload) as [cs [Hne [[Hps _] _]]].
  now split.
Qed.

Lemma load_data_products_witness :
  exists self',
    load_data (Some shop_reader) (0%R, 1%R) (new_engine "shop.csv" []) = (Ok tt, self')
    /\ products self' <> [] /\ Forall product_ok (products self').
Proof.
  destruct (shop_reader_loads (0%R, 1%R)) as [self' [Hload _]].
  exists self'. split; [exact Hload|].
  exact (load_data_products (Some shop_reader) (0%R, 1%R) (new_engine "shop.csv" [])
           self' Hload).
Defined.

Lemma load_data_index_of (file : option DictReader) (clock : R * R)
      (self self' : ProductSearchEngine R) :
  load_data file clock self = (Ok tt, self') ->
  idf self' = idf_table (map doc_tokens (products self'))
  /\ doc_vectors self'
     = map (fun p => tf_vector (idf self') (doc_tokens p)) (products self')
  /\ doc_norms self'
     = map (fun p => R_norm (tf_vector (idf self') (doc_tokens p))) (products self').
Proof.
  intros Hload. destruct (load_data_file file clock self self' Hload) as [reader ->].
  destruct (load_data_acc reader clock self self' Hload) as [cs [_ [_ Hself]]].
  set (ps := products self') in *. rewrite Hself.
  cbn [idf doc_vectors doc_norms loaded_state]. rewrite !map_map. now repeat split.
Qed.

(** X17: after a load that returns, the index is a function of the
    products it stores: the IDF table is that of the token lists of the
    products (the tokens of title, description, category and brand), the
    i-th document vector is the TF-IDF vector of the tokens of the i-th
    product, and the i-th norm is the Euclidean norm of that vector.
    (Arithmetic over the reals.) *)
Theorem load_data_index (file : option DictReader) (clock : R * R)
        (self self' : ProductSearchEngine R) :
  load_data file clock self = (Ok tt, self') ->
  idf self' = idf_table (map doc_tokens (products self'))
  /\ doc_vectors self'
     = map (fun p => tf_vector (idf self') (doc_tokens p)) (products self')
  /\ doc_norms self'
     = map (fun p => R_norm (tf_vector (idf self') (doc_tokens p))) (products self').
Proof. apply load_data_index_of. Qed.

Lemma load_data_index_witness :
  exists self',
    load_data (Some shop_reader) (0%R, 1%R) (new_engine "shop.csv" []) = (Ok tt, self')
    /\ idf self' = idf_table (map doc_tokens (products self'))
    /\ doc_vectors self'
       = map (fun p => tf_vector (idf self') (doc_tokens p)) (products self')
    /\ doc_norms self'
       = map (fun p => R_norm (tf_vector (idf self') (doc_tokens p))) (products self').
Proof.
  destruct (shop_reader_loads (0%R, 1%R)) as [self' [Hload _]].
  exists self'. split; [exact Hload|].
  exact (load_data_index (Some shop_reader) (0%R, 1%R) (new_engine "shop.csv" [])
           self' Hload).
Defined.

(** X18: after a load that returns, [categories] lists the categories of
    the products: a string is in the list exactly when it is not empty and is
    the category of some product; no category is listed twice; and the list
    is in increasing order of code points. *)
Theorem load_data_categories (file : option DictReader) (clock : R * R)
        (self self' : ProductSearchEngine R) :
  load_data file clock self = (Ok tt, self') ->
  StronglySorted (fun a b => String.leb a b = true) (categories self')
  /\ NoDup (categories self')
  /\ forall c, In c (categories self')
               <-> c <> "" /\ exists p, In p (products self') /\ p_category p = c.
Proof.
  intros Hload. destruct (load_data_file file clock self self' Hload) as [reader ->].
  destruct (load_data_acc reader clock self self' Hload)
    as [cs [_ [[_ [_ [Hnd Hmem]]] Hself]]].
  assert (Hcat : categories self' = sorted cs) by (rewrite Hself; reflexivity).
  rewrite Hcat. split; [apply sorted_ordered|]. split; [now apply sorted_NoDup|].
  intros c. rewrite sorted_In. apply Hmem.
Qed.

Lemma load_data_categories_witness :
  exists self',
    load_data (Some shop_reader) (0%R, 1%R) (new_engine "shop.csv" []) = (Ok tt, self')
    /\ StronglySorted (fun a b => String.leb a b = true) (categories self')
    /\ NoDup (categories self')
    /\ forall c, In c (categories self')
                 <-> c <> "" /\ exists p, In p (products self') /\ p_category p = c.
Proof.
  destruct (shop_reader_loads (0%R, 1%R)) as [self' [Hload _]].
  exists self'. split; [exact Hload|].
  exact (load_data_categories (Some shop_reader) (0%R, 1%R) (new_engine "shop.csv" [])
           self' Hload).
Defined.

(** X19: a load depends on the engine through its path and its overrides
    only, and a load that returns overwrites everything else: [load_data] on
    an engine that holds an index either returns exactly the engine that the
    constructor [ProductSearchEngine(csv_path, column_override)] returns on
    the same file, nothing of the old index left, or it fails with the error
    the constructor fails with, the engine as it was. *)
Theorem load_data_is_a_fresh_start (file : option DictReader) (clock : R * R)
        (self : ProductSearchEngine R) :
  load_data file clock self
  = __init__ (csv_path self) (Some (column_override self)) file clock
  \/ exists e,
      load_data file clock self = (Raise e, self)
      /\ fst (__init__ (csv_path self) (Some (column_override self)) file clock) = Raise e.
Proof.
  unfold __init__.
  destruct file as [reader|]; [|right; exists FileNotFoundError; now split].
  rewrite !load_data_cases.
  change (has_title_column reader (new_engine (csv_path self) (column_override self)))
    with (has_title_column reader self).
  change (columns_of reader (new_engine (F:=R) (csv_path self) (column_override self)))
    with (columns_of reader self).
  destruct (negb (has_headers reader)); [right; eexists; now split|].
  destruct (negb (has_title_column reader self)); [right; eexists; now split|].
  destruct (read_rows (columns_of reader self) 0 (reader_rows reader) ([], [], []))
    as [[[ps cs] ds]|e]; [|right; eexists; now split].
  destruct ps as [|p ps]; [right; eexists; now split|].
  left. reflexivity.
Qed.

(** ** The vectors of [_build_tfidf] and [_query_vector] *)

Lemma sget_or_sset_same {V : Type} (d : dict string V) (k : string) (v default : V) :
  sget_or (sset d k v) k default = v.
Proof. apply (dict_get_or_set_same String.eqb String_eqb_spec). Qed.

Lemma sget_or_sset_other {V : Type} (d : dict string V) (k k' : string) (v default : V) :
  k' <> k -> sget_or (sset d k v) k' default = sget_or d k' default.
Proof. apply (dict_get_or_set_other String.eqb String_eqb_spec). Qed.

Lemma Counter_add_get (tokens : list string) :
  forall (counts : dict string nat) (t : string),
    sget (Counter_add counts tokens) t
    = match occurrences t tokens with
      | O => sget counts t
      | S n => Some (sget_or counts t 0 + S n)
      end.
Proof.
  unfold occurrences.
  induction tokens as [|x tokens IH]; intros counts t; [reflexivity|].
  cbn [Counter_add count_occ]. rewrite IH.
  destruct (string_dec x t) as [->|Hne].
  - rewrite sget_sset_same, sget_or_sset_same.
    destruct (count_occ string_dec tokens t) as [|n]; f_equal; lia.
  - assert (Hne' : t <> x) by congruence.
    rewrite (sget_sset_other _ x t _ Hne'), (sget_or_sset_other _ x t _ 0 Hne').
    reflexivity.
Qed.

Lemma Counter_add_NoDup (tokens : list string) :
  forall counts, NoDup (dict_keys counts) -> NoDup (dict_keys (Counter_add counts tokens)).
Proof.
  induction tokens as [|x tokens IH]; intros counts Hnd; [exact Hnd|].
  cbn [Counter_add]. apply IH. now apply (dict_set_NoDup String.eqb String_eqb_spec).
Qed.

Lemma Counter_get (tokens : list string) (t : string) :
  sget (Counter tokens) t
  = match occurrences t tokens with
    | O => None
    | S n => Some (S n)
    end.
Proof. unfold Counter. rewrite Counter_add_get. now destruct (occurrences t tokens). Qed.

Lemma Counter_NoDup (tokens : list string) : NoDup (dict_keys (Counter tokens)).
Proof. apply Counter_add_NoDup. constructor. Qed.

Lemma occurrences_in (t : string) (tokens : list string) :
  str_in t tokens = negb (occurrences t tokens =? 0)%nat.
Proof.
  unfold occurrences. destruct (str_in t tokens) eqn:E.
  - apply str_in_In in E. apply (count_occ_In string_dec) in E.
    destruct (count_occ string_dec tokens t); [lia | reflexivity].
  - destruct (count_occ string_dec tokens t) eqn:Ec; [reflexivity|].
    assert (Hin : In t tokens) by (apply (count_occ_In string_dec); lia).
    apply (proj2 (str_in_In _ _)) in Hin. congruence.
Qed.

(** A dict filled from some of the items of another one. *)
Lemma fold_sset_some {V W : Type} (g : string -> V -> option W) (d : dict string V) :
  NoDup (dict_keys d) ->
  forall (acc : dict string W) (t : string),
    sget (fold_left (fun acc (kv : string * V) =>
                       match g (fst kv) (snd kv) with
                       | Some w => sset acc (fst kv) w
                       | None => acc
                       end) d acc) t
    = match sget d t with
      | Some v => match g t v with
                  | Some w => Some w
                  | None => sget acc t
                  end
      | None => sget acc t
      end.
Proof.
  induction d as [|[k v] d IH]; intros Hnd acc t; [reflexivity|].
  inversion Hnd as [|? ? Hnotin Hnd']; subst.
  cbn [fold_left fst snd]. rewrite (IH Hnd').
  change (sget ((k, v) :: d) t) with (if String.eqb t k then Some v else sget d t).
  destruct (String.eqb t k) eqn:E.
  - apply String.eqb_eq in E. subst k.
    assert (Hnone : sget d t = None).
    { apply (dict_get_None String.eqb String_eqb_spec). exact Hnotin. }
    rewrite Hnone. destruct (g t v); [apply sget_sset_same | reflexivity].
  - apply String.eqb_neq in E.
    destruct (sget d t) as [v'|]; [destruct (g t v'); [reflexivity|] |];
      (destruct (g k v); [now apply sget_sset_other | reflexivity]).
Qed.

Lemma fold_sset_some_NoDup {V W : Type} (g : string -> V -> option W) (d : dict string V) :
  forall acc : dict string W,
    NoDup (dict_keys acc) ->
    NoDup (dict_keys (fold_left (fun acc (kv : string * V) =>
                                   match g (fst kv) (snd kv) with
                                   | Some w => sset acc (fst kv) w
                                   | None => acc
                                   end) d acc)).
Proof.
  induction d as [|[k v] d IH]; intros acc Hnd; [exact Hnd|].
  cbn [fold_left fst snd]. apply IH.
  destruct (g k v); [now apply (dict_set_NoDup String.eqb String_eqb_spec) | exact Hnd].
Qed.

Lemma fold_left_ext {X Y : Type} (f g : Y -> X -> Y) (l : list X) :
  (forall y x, f y x = g y x) -> forall y, fold_left f l y = fold_left g l y.
Proof.
  intros Hfg. induction l as [|x l IH]; intros y; [reflexivity|].
  cbn [fold_left]. now rewrite Hfg, IH.
Qed.

Section VectorFacts.
Context {F : Type} `{PyMath F}.

Lemma tf_vector_fold (idf : dict string F) (tokens : list string) :
  tf_vector idf tokens
  = fold_left (fun acc (kv : string * nat) =>
                 match Some (fmul (div_int (Z.of_nat (snd kv))
                                           (Z.of_nat (len_or_1 tokens)))
                                  (sget_or idf (fst kv) zero)) with
                 | Some w => sset acc (fst kv) w
                 | None => acc
                 end) (Counter tokens) [].
Proof. unfold tf_vector. apply fold_left_ext. intros y [token count]. reflexivity. Qed.

Lemma len_or_1_length (t : string) (tokens : list string) :
  str_in t tokens = true -> len_or_1 tokens = List.length tokens.
Proof. destruct tokens; [discriminate | reflexivity]. Qed.

Lemma tf_vector_get (idf : dict string F) (tokens : list string) (t : string) :
  sget (tf_vector idf tokens) t
  = if str_in t tokens
    then Some (fmul (div_int (Z.of_nat (occurrences t tokens))
                             (Z.of_nat (List.length tokens)))
                    (sget_or idf t zero))
    else None.
Proof.
  rewrite tf_vector_fold.
  rewrite (fold_sset_some
             (fun token count =>
                Some (fmul (div_int (Z.of_nat count) (Z.of_nat (len_or_1 tokens)))
                           (sget_or idf token zero)))
             (Counter tokens) (Counter_NoDup tokens)).
  rewrite Counter_get.
  destruct (str_in t tokens) eqn:Ein.
  - rewrite (len_or_1_length t tokens Ein).
    rewrite occurrences_in in Ein.
    destruct (occurrences t tokens); [discriminate | reflexivity].
  - rewrite occurrences_in in Ein.
    destruct (occurrences t tokens); [reflexivity | discriminate].
Qed.

Lemma tf_vector_NoDup (idf : dict string F) (tokens : list string) :
  NoDup (dict_keys (tf_vector idf tokens)).
Proof.
  rewrite tf_vector_fold.
  apply (fold_sset_some_NoDup
           (fun token count =>
              Some (fmul (div_int (Z.of_nat count) (Z.of_nat (len_or_1 tokens)))
                         (sget_or idf token zero)))
           (Counter tokens) []).
  constructor.
Qed.
End VectorFacts.

(** X20: the document vector that [_build_tfidf] makes of a token list has
    one entry for each distinct token of the list and no other: the weight
    of a token is its term frequency, the number of its occurrences divided
    by the length of the list, times its IDF ([idf.get(token, 0.0)]).  In
    every arithmetic. *)
Theorem tf_vector_weights (F : Type) (numF : Num F) (mathF : PyMath F)
        (idf : dict string F) (tokens : list string) (t : string) :
  sget (tf_vector idf tokens) t
  = if str_in t tokens
    then Some (fmul (div_int (Z.of_nat (occurrences t tokens))
                             (Z.of_nat (List.length tokens)))
                    (sget_or idf t zero))
    else None.
Proof. apply tf_vector_get. Qed.

Lemma query_vector_fold (self : ProductSearchEngine R) (query_tokens : list string) :
  query_vector_of self query_tokens
  = fold_left (fun acc (kv : string * nat) =>
                 match (if smem (idf self) (fst kv)
                        then Some (IZR (Z.of_nat (snd kv))
                                   / IZR (Z.of_nat (len_or_1 query_tokens))
                                   * sget_or (idf self) (fst kv) 0)%R
                        else None) with
                 | Some w => sset acc (fst kv) w
                 | None => acc
                 end) (Counter query_tokens) [].
Proof.
  unfold query_vector_of. apply fold_left_ext. intros y [token count].
  cbn [fst snd]. now destruct (smem (idf self) token).
Qed.

Lemma query_vector_get (self : ProductSearchEngine R) (query_tokens : list string)
      (t : string) :
  sget (query_vector_of self query_tokens) t
  = if (str_in t query_tokens && smem (idf self) t)%bool
    then Some (INR (occurrences t query_tokens) / INR (List.length query_tokens)
               * sget_or (idf self) t 0)%R
    else None.
Proof.
  rewrite query_vector_fold.
  rewrite (fold_sset_some
             (fun token count =>
                if smem (idf self) token
                then Some (IZR (Z.of_nat count) / IZR (Z.of_nat (len_or_1 query_tokens))
                           * sget_or (idf self) token 0)%R
                else None)
             (Counter query_tokens) (Counter_NoDup query_tokens)).
  rewrite Counter_get.
  destruct (str_in t query_tokens) eqn:Ein; cbn [andb].
  - rewrite (len_or_1_length t query_tokens Ein).
    rewrite occurrences_in in Ein.
    destruct (occurrences t query_tokens) as [|n] eqn:En; [discriminate|].
    rewrite !INR_IZR_INZ. now destruct (smem (idf self) t).
  - rewrite occurrences_in in Ein.
    destruct (occurrences t query_tokens); [reflexivity | discriminate].
Qed.

Lemma query_vector_NoDup (self : ProductSearchEngine R) (query_tokens : list string) :
  NoDup (dict_keys (query_vector_of self query_tokens)).
Proof.
  rewrite query_vector_fold.
  apply (fold_sset_some_NoDup
           (fun token count =>
              if smem (idf self) token
              then Some (IZR (Z.of_nat count) / IZR (Z.of_nat (len_or_1 query_tokens))
                         * sget_or (idf self) token 0)%R
              else None)
           (Counter query_tokens) []).
  constructor.
Qed.

(** X21: [_query_vector] returns, and the vector it returns has one entry
    for each distinct query token that the IDF table knows and no other:
    tokens the corpus does not contain are dropped.  The weight of a token is
    the number of its occurrences in the query divided by the number of all
    query tokens (the dropped ones counted), times its IDF; the second
    component is the Euclidean norm of the vector.  (Arithmetic over the
    reals.) *)
Theorem query_vector_weights (self : ProductSearchEngine R) (query_tokens : list string) :
  exists vector,
    _query_vector self query_tokens = Ok (vector, R_norm vector)
    /\ forall t,
         sget vector t
         = if (str_in t query_tokens && smem (idf self) t)%bool
           then Some (INR (occurrences t query_tokens) / INR (List.length query_tokens)
                      * sget_or (idf self) t 0)%R
           else None.
Proof.
  exists (query_vector_of self query_tokens).
  split; [apply _query_vector_ok | apply query_vector_get].
Qed.

(** ** _cosine_similarity *)

Lemma dot_disjoint (qvec dvec : dict string R) :
  (forall token, In token (dict_keys qvec) -> sget dvec token = None) ->
  dot qvec dvec = 0%R.
Proof.
  unfold dot. induction qvec as [|[k w] qvec IH]; intros Hdis; [reflexivity|].
  cbn [map Rsum fold_right fst snd].
  fold (Rsum (map (fun item : string * R => (snd item * sget_or dvec (fst item) 0)%R) qvec)).
  rewrite IH by (intros token Hin; apply Hdis; now right).
  unfold sget_or, dict_get_or. fold (sget dvec k).
  rewrite (Hdis k (or_introl eq_refl)). lra.
Qed.

Lemma _cosine_similarity_disjoint (qvec dvec : dict string R) (qnorm dnorm : R) :
  (forall token, In token (dict_keys qvec) -> sget dvec token = None) ->
  _cosine_similarity qvec qnorm dvec dnorm = Ok 0%R.
Proof.
  intros Hdis. rewrite _cosine_similarity_R, (dot_disjoint qvec dvec Hdis).
  destruct (Reqb qnorm 0 || Reqb dnorm 0)%bool; [reflexivity|].
  f_equal. unfold Rdiv. lra.
Qed.

(** X22: two vectors that share no token have similarity 0: when no key of
    the query vector is a key of the document vector, [_cosine_similarity]
    returns 0, whatever the weights and the two norms are.  (Arithmetic
    over the reals.) *)
Theorem cosine_similarity_disjoint (qvec dvec : dict string R) (qnorm dnorm : R) :
  (forall token, In token (dict_keys qvec) -> sget dvec token = None) ->
  _cosine_similarity qvec qnorm dvec dnorm = Ok 0%R.
Proof. apply _cosine_similarity_disjoint. Qed.

Lemma cosine_similarity_disjoint_witness :
  _cosine_similarity vec_ab (sqrt 5) [("c", 4%R)] 4%R = Ok 0%R.
Proof.
  apply (cosine_similarity_disjoint vec_ab [("c", 4%R)] (sqrt 5) 4%R).
  intros token [<-|[<-|[]]]; reflexivity.
Defined.

(** ** search: ranking, limit and diagnostics *)

Lemma search_cases (self : ProductSearchEngine R) (query : string)
      (min_price max_price : option R) (category : option string)
      (min_rating : option R) (debug : bool) (limit : Z) (clock : R * R) :
  index_wf self ->
  search self query min_price max_price category min_rating debug limit clock
  = match tokenize (Some query) with
    | [] =>
        Ok ([], {| query_tokens := [];
                   index_build_ms := Rround (last_index_build_ms self) 2;
                   query_time_ms := 0%R;
                   total_products := List.length (products self);
                   top_scores := None |})
    | _ =>
        let results :=
          slice_to (ranked self query min_price max_price category min_rating) limit in
        Ok (results,
            {| query_tokens := tokenize (Some query);
               index_build_ms := Rround (last_index_build_ms self) 2;
               query_time_ms := Rround ((snd clock - fst clock) * 1000) 2;
               total_products := List.length (products self);
               top_scores :=
                 if debug then Some (map top_score_of (firstn 5 results)) else None |})
    end.
Proof.
  intros [Hv Hn]. unfold search, ranked, all_hits.
  destruct (tokenize (Some query)) as [|t ts] eqn:Et; [reflexivity|].
  rewrite _query_vector_ok. cbn [bind].
  rewrite search_loop_pure by (cbn [Nat.add]; lia).
  cbn [bind app]. reflexivity.
Qed.





Lemma hits_length (self : ProductSearchEngine R) (query_tokens : list string)
      (qvec : dict string R) (qnorm : R) (min_price max_price : option R)
      (category : option string) (min_rating : option R) (rest : list (Product R)) :
  forall idx,
    List.length (hits self query_tokens qvec qnorm min_price max_price category
                      min_rating idx rest)
    <= List.length rest.
Proof.
  induction rest as [|p rest IH]; intros idx; [apply Nat.le_refl|].
  cbn [hits]. rewrite length_app. specialize (IH (S idx)). cbn [List.length].
  destruct (passes_filters min_price max_price category min_rating p);
    [|cbn [List.length]; lia].
  destruct (score_product self query_tokens qvec qnorm idx p) as [[r|]|];
    cbn [List.length]; lia.
Qed.

Lemma ranked_length (self : ProductSearchEngine R) (query : string)
      (min_price max_price : option R) (category : option string)
      (min_rating : option R) :
  List.length (ranked self query min_price max_price category min_rating)
  <= List.length (products self).
Proof. unfold ranked, all_hits. rewrite sort_by_score_length. apply hits_length. Qed.





(** X25: a negative limit is not refused: [results[:limit]] then drops
    results from the end.  Over a well-formed index, [search] with a limit
    -k (k > 0) returns every result that a limit as large as the catalogue
    returns but the last k, the lowest ranked ones; it raises nothing. *)
Theorem search_negative_limit (self : ProductSearchEngine R) (query : string)
        (min_price max_price : option R) (category : option string)
        (min_rating : option R) (debug : bool) (limit : Z) (clock : R * R) :
  index_wf self ->
  (limit < 0)%Z ->
  exists results diagnostics every diagnostics',
    search self query min_price max_price category min_rating debug limit clock
    = Ok (results, diagnostics)
    /\ search self query min_price max_price category min_rating debug
              (Z.of_nat (List.length (products self))) clock
       = Ok (every, diagnostics')
    /\ results = firstn (List.length every - Z.to_nat (- limit)) every.
Proof.
  intros Hwf Hlimit. rewrite !(search_cases _ _ _ _ _ _ _ _ _ Hwf).
  destruct (tokenize (Some query)) as [|t ts].
  - do 4 eexists. split; [reflexivity|]. split; [reflexivity|].
    now rewrite firstn_nil.
  - cbv zeta. do 4 eexists. split; [reflexivity|]. split; [reflexivity|].
    pose proof (ranked_length self query min_price max_price category min_rating) as Hlen.
    unfold slice_to.
    replace (0 <=? limit)%Z with false by (symmetry; apply Z.leb_gt; lia).
    replace (0 <=? Z.of_nat (List.length (products self)))%Z with true
      by (symmetry; apply Z.leb_le; lia).
    rewrite Nat2Z.id. rewrite (firstn_all2 (n := List.length (products self))) by exact Hlen.
    reflexivity.
Qed.

Lemma search_negative_limit_witness :
  exists results diagnostics every diagnostics',
    search loaded_mug "mug" None None None None false (-1) (0%R, 1%R)
    = Ok (results, diagnostics)
    /\ search loaded_mug "mug" None None None None false
              (Z.of_nat (List.length (products loaded_mug))) (0%R, 1%R)
       = Ok (every, diagnostics')
    /\ results = firstn (List.length every - Z.to_nat (- (-1))) every.
Proof.
  apply (search_negative_limit loaded_mug "mug" None None None None false (-1)
           (0%R, 1%R) loaded_mug_wf).
  lia.
Defined.

(** X26: over a well-formed index the diagnostics of [search] echo the
    tokens of the query, the number of products and the build time rounded
    to two decimals.  The key [top_scores] is present exactly when [debug] is
    set and the query has a token (a debug search for stopwords only carries
    no [top_scores]); it then lists the first five results at most, in their
    order: title, and the four scores rounded to four decimals. *)
Theorem search_diagnostics (self : ProductSearchEngine R) (query : string)
        (min_price max_price : option R) (category : option string)
        (min_rating : option R) (debug : bool) (limit : Z) (clock : R * R) :
  index_wf self ->
  exists results diagnostics,
    search self query min_price max_price category min_rating debug limit clock
    = Ok (results, diagnostics)
    /\ query_tokens diagnostics = tokenize (Some query)
    /\ total_products diagnostics = List.length (products self)
    /\ index_build_ms diagnostics = Rround (last_index_build_ms self) 2
    /\ top_scores diagnostics
       = match tokenize (Some query) with
         | [] => None
         | _ => if debug then Some (map top_score_of (firstn 5 results)) else None
         end.
Proof.
  intros Hwf. rewrite (search_cases _ _ _ _ _ _ _ _ _ Hwf).
  destruct (tokenize (Some query)) as [|t ts];
    cbv zeta; eexists; eexists; (split; [reflexivity|]); now repeat split.
Qed.

Lemma search_diagnostics_witness :
  exists results diagnostics,
    search loaded_mug "le mug" None None None None true 30 (0%R, 1%R)
    = Ok (results, diagnostics)
    /\ query_tokens diagnostics = tokenize (Some "le mug")
    /\ total_products diagnostics = List.length (products loaded_mug)
    /\ index_build_ms diagnostics = Rround (last_index_build_ms loaded_mug) 2
    /\ top_scores diagnostics
       = match tokenize (Some "le mug") with
         | [] => None
         | _ => if true then Some (map top_score_of (firstn 5 results)) else None
         end.
Proof.
  exact (search_diagnostics loaded_mug "le mug" None None None None true 30
           (0%R, 1%R) loaded_mug_wf).
Defined.

(** ** search: the scores *)

Lemma score_product_cases (self : ProductSearchEngine R) (query_tokens : list string)
      (qvec : dict string R) (qnorm : R) (idx : nat) (p : Product R)
      (dvec : dict string R) (dnorm tfidf fuzzy : R) :
  nth_error (doc_vectors self) idx = Some dvec ->
  nth_error (doc_norms self) idx = Some dnorm ->
  _cosine_similarity qvec qnorm dvec dnorm = Ok tfidf ->
  _fuzzy_score query_tokens (p_title p) = Ok fuzzy ->
  score_product self query_tokens qvec qnorm idx p
  = if Rleb (72 / 100 * tfidf + 22 / 100 * fuzzy + bonus_of query_tokens p) 0
    then Ok None
    else Ok (Some {| product := p;
                     score := (72 / 100 * tfidf + 22 / 100 * fuzzy
                               + bonus_of query_tokens p)%R;
                     tfidf_score := tfidf; fuzzy_score := fuzzy;
                     category_bonus := bonus_of query_tokens p;
                     matched_tokens :=
                       sorted (filter (fun token =>
                                         str_in token (str_split (p_searchable_text p)))
                                      (py_set query_tokens)) |}).
Proof.
  intros Hv Hn Hc Hf. unfold score_product, subscript.
  rewrite Hv, Hn. cbn [bind]. rewrite Hc. cbn [bind]. rewrite Hf. cbn [bind].
  reflexivity.
Qed.

Lemma score_product_matched (self : ProductSearchEngine R) (query_tokens : list string)
      (qvec : dict string R) (qnorm : R) (idx : nat) (p : Product R)
      (r : SearchResult R) :
  score_product self query_tokens qvec qnorm idx p = Ok (Some r) ->
  product r = p
  /\ matched_tokens r
     = sorted (filter (fun token => str_in token (str_split (p_searchable_text p)))
                      (py_set query_tokens)).
Proof.
  unfold score_product, subscript. intros Hrun.
  destruct (nth_error (doc_vectors self) idx) as [dvec|]; [|discriminate].
  destruct (nth_error (doc_norms self) idx) as [dnorm|]; [|discriminate].
  cbn [bind] in Hrun.
  destruct (_cosine_similarity qvec qnorm dvec dnorm) as [tfidf|]; [|discriminate].
  cbn [bind] in Hrun.
  destruct (_fuzzy_score query_tokens (p_title p)) as [fuzzy|]; [|discriminate].
  cbn [bind] in Hrun.
  match type of Hrun with (if ?c then _ else _) = _ => destruct c end; [discriminate|].
  inversion Hrun; subst r. now split.
Qed.

Section HitFacts.
Variables (self : ProductSearchEngine R) (query_tokens : list string)
          (qvec : dict string R) (qnorm : R)
          (min_price max_price : option R) (category : option string)
          (min_rating : option R).

Lemma hits_by (rest : list (Product R)) :
  forall (idx : nat) (r : SearchResult R),
    In r (hits self query_tokens qvec qnorm min_price max_price category min_rating
               idx rest)
    <-> exists i p,
          nth_error rest i = Some p
          /\ passes_filters min_price max_price category min_rating p = true
          /\ score_product self query_tokens qvec qnorm (idx + i) p = Ok (Some r).
Proof.
  induction rest as [|p rest IH]; intros idx r.
  - split; [intros [] | intros [[|i] [q [Hq _]]]; discriminate Hq].
  - cbn [hits]. rewrite in_app_iff, IH. split.
    + intros [Hin|[i [q [Hq [Hp Hs]]]]].
      * destruct (passes_filters min_price max_price category min_rating p) eqn:Ep;
          [|destruct Hin].
        destruct (score_product self query_tokens qvec qnorm idx p) as [[r'|]|] eqn:Es;
          [destruct Hin as [<-|[]] | destruct Hin | destruct Hin].
        exists 0, p. rewrite Nat.add_0_r. now repeat split.
      * exists (S i), q. replace (idx + S i) with (S idx + i) by lia. now repeat split.
    + intros [[|i] [q [Hq [Hp Hs]]]].
      * left. cbn [nth_error] in Hq. inversion Hq; subst q.
        rewrite Nat.add_0_r in Hs. rewrite Hp, Hs. now left.
      * right. exists i, q. replace (S idx + i) with (idx + S i) by lia.
        now repeat split.
Qed.
End HitFacts.

Lemma idf_table_nonneg (docs : list (list string)) (t : string) :
  (0 <= sget_or (idf_table docs) t 0)%R.
Proof.
  unfold sget_or, dict_get_or. fold (sget (idf_table docs) t).
  rewrite idf_table_get. destruct (df t docs =? 0)%nat; [lra|].
  left. apply idf_of_pos, df_le.
Qed.

Lemma ratio_nonneg (n m : nat) : (0 <= IZR (Z.of_nat n) / IZR (Z.of_nat (S m)))%R.
Proof.
  apply Rmult_le_pos.
  - apply IZR_le. lia.
  - left. apply Rinv_0_lt_compat. apply IZR_lt. lia.
Qed.

Lemma len_or_1_pos {X : Type} (l : list X) : exists m, len_or_1 l = S m.
Proof. destruct l as [|x l]; [now exists 0 | now exists (List.length l)]. Qed.

Lemma tf_vector_nonneg (table : dict string R) (tokens : list string) :
  (forall t, (0 <= sget_or table t 0)%R) -> nonneg (tf_vector table tokens).
Proof.
  intros Htable. rewrite tf_vector_fold. unfold nonneg.
  apply (fold_left_invariant (Forall (fun item : string * R => (0 <= snd item)%R)));
    [|constructor].
  intros acc [token count] Hacc. cbn [fst snd].
  apply (sset_Forall (fun w => (0 <= w)%R)); [exact Hacc|].
  rnum. destruct (len_or_1_pos tokens) as [m ->].
  apply Rmult_le_pos; [apply ratio_nonneg | apply Htable].
Qed.

Lemma query_vector_nonneg (self : ProductSearchEngine R) (query_tokens : list string) :
  (forall t, (0 <= sget_or (idf self) t 0)%R) ->
  nonneg (query_vector_of self query_tokens).
Proof.
  intros Htable. rewrite query_vector_fold. unfold nonneg.
  apply (fold_left_invariant (Forall (fun item : string * R => (0 <= snd item)%R)));
    [|constructor].
  intros acc [token count] Hacc. cbn [fst snd].
  destruct (smem (idf self) token); [|exact Hacc].
  apply (sset_Forall (fun w => (0 <= w)%R)); [exact Hacc|].
  destruct (len_or_1_pos query_tokens) as [m ->].
  apply Rmult_le_pos; [apply ratio_nonneg | apply Htable].
Qed.

Lemma load_data_sound (file : option DictReader) (clock : R * R)
      (self self' : ProductSearchEngine R) :
  load_data file clock self = (Ok tt, self') -> index_sound self'.
Proof.
  intros Hload. split; [exact (load_data_wf file clock self self' Hload)|].
  destruct (load_data_index_of file clock self self' Hload) as [Hidf [Hv Hn]].
  split; [|split].
  - intros t. rewrite Hidf. apply idf_table_nonneg.
  - rewrite Hv. apply Forall_forall. intros dvec Hin.
    apply in_map_iff in Hin. destruct Hin as [p [<- _]].
    apply tf_vector_nonneg. intros t. rewrite Hidf. apply idf_table_nonneg.
  - rewrite Hn, Hv, map_map. reflexivity.
Qed.

Lemma cosine_range (qvec dvec : dict string R) :
  nonneg qvec -> nonneg dvec -> NoDup (dict_keys qvec) ->
  exists x, _cosine_similarity qvec (R_norm qvec) dvec (R_norm dvec) = Ok x
            /\ (0 <= x <= 1)%R.
Proof.
  intros Hq Hd Hnd. rewrite _cosine_similarity_R.
  destruct (Reqb (R_norm qvec) 0 || Reqb (R_norm dvec) 0)%bool eqn:E.
  - exists 0%R. split; [reflexivity | lra].
  - apply orb_false_iff in E. destruct E as [Eq Ed].
    apply Reqb_false in Eq. apply Reqb_false in Ed.
    pose proof (R_norm_nonneg qvec) as Hqn. pose proof (R_norm_nonneg dvec) as Hdn.
    pose proof (dot_nonneg qvec dvec Hq Hd) as Hdot.
    pose proof (dot_le_norms qvec dvec Hnd) as Hle.
    assert (Hpos : (0 < R_norm qvec * R_norm dvec)%R) by (apply Rmult_lt_0_compat; lra).
    eexists. split; [reflexivity|]. split.
    + apply Rmult_le_pos; [exact Hdot | left; now apply Rinv_0_lt_compat].
    + apply (Rmult_le_reg_r (R_norm qvec * R_norm dvec)); [exact Hpos|].
      replace (dot qvec dvec / (R_norm qvec * R_norm dvec) * (R_norm qvec * R_norm dvec))%R
        with (dot qvec dvec) by (field; split; lra).
      lra.
Qed.

Lemma bonus_of_range (query_tokens : list string) (p : Product R) :
  (0 <= bonus_of query_tokens p <= 20 / 100)%R.
Proof.
  unfold bonus_of. cbv zeta. rnum.
  destruct (truthy (p_category p)
            && intersects (py_set query_tokens) (py_set (tokenize (Some (p_category p)))))%bool;
    destruct (truthy (p_brand p)
              && intersects (py_set query_tokens) (py_set (tokenize (Some (p_brand p)))))%bool;
    lra.
Qed.

(** The vector and the norm of a document of a sound index. *)
Lemma index_sound_doc (self : ProductSearchEngine R) (idx : nat)
      (dvec : dict string R) (dnorm : R) :
  index_sound self ->
  nth_error (doc_vectors self) idx = Some dvec ->
  nth_error (doc_norms self) idx = Some dnorm ->
  nonneg dvec /\ dnorm = R_norm dvec.
Proof.
  intros [_ [_ [Hall Hn]]] Hv Hd. split.
  - rewrite Forall_forall in Hall. apply Hall. now apply nth_error_In in Hv.
  - rewrite Hn, nth_error_map, Hv in Hd. cbn [option_map] in Hd. congruence.
Qed.

Lemma scored_bounded (self : ProductSearchEngine R) (query_tokens : list string)
      (idx : nat) (r : SearchResult R) :
  index_sound self ->
  scored self query_tokens (query_vector_of self query_tokens)
         (R_norm (query_vector_of self query_tokens)) idx r ->
  scores_bounded r.
Proof.
  intros Hsound [dvec [dnorm [Hv [Hn [Hc [Hf [Hb [Hs Hpos]]]]]]]].
  destruct (index_sound_doc self idx dvec dnorm Hsound Hv Hn) as [Hd ->].
  destruct Hsound as [_ [Hidf _]].
  destruct (cosine_range (query_vector_of self query_tokens) dvec
              (query_vector_nonneg self query_tokens Hidf) Hd
              (query_vector_NoDup self query_tokens)) as [x [Hx Hxr]].
  rewrite Hx in Hc. inversion Hc; subst x.
  destruct (_fuzzy_score_range query_tokens (p_title (product r))) as [y [Hy Hyr]].
  rewrite Hy in Hf. inversion Hf; subst y.
  pose proof (bonus_of_range query_tokens (product r)) as Hbr. rewrite <- Hb in Hbr.
  unfold scores_bounded. repeat split; try lra.
Qed.

(** X27: on an engine that a load has filled, [search] raises nothing, and
    every result has a TF-IDF score in [0, 1], a fuzzy score in [0, 1], a
    bonus in [0, 0.20] and a final score in (0, 1.14].  (Arithmetic over
    the reals.) *)
Theorem search_scores_bounded (file : option DictReader) (clock0 : R * R)
        (self0 self : ProductSearchEngine R) (query : string)
        (min_price max_price : option R) (category : option string)
        (min_rating : option R) (debug : bool) (limit : Z) (clock : R * R) :
  load_data file clock0 self0 = (Ok tt, self) ->
  exists results diagnostics,
    search self query min_price max_price category min_rating debug limit clock
    = Ok (results, diagnostics)
    /\ Forall scores_bounded results.
Proof.
  intros Hload. pose proof (load_data_sound file clock0 self0 self Hload) as Hsound.
  pose proof Hsound as [Hwf _].
  destruct (search_total self query min_price max_price category min_rating debug limit
              clock Hwf) as [results [diagnostics Hrun]].
  exists results, diagnostics. split; [exact Hrun|].
  apply Forall_forall. intros r Hr.
  apply (search_results self query min_price max_price category min_rating debug limit
           clock results diagnostics Hwf Hrun) in Hr.
  apply hits_In in Hr. destruct Hr as [i [_ [_ Hs]]].
  exact (scored_bounded self (tokenize (Some query)) (0 + i) r Hsound Hs).
Qed.

Lemma search_scores_bounded_witness :
  exists self results diagnostics,
    load_data (Some shop_reader) (0%R, 1%R) (new_engine "shop.csv" []) = (Ok tt, self)
    /\ search self "tasse maison" None None None None false 30 (0%R, 1%R)
       = Ok (results, diagnostics)
    /\ Forall scores_bounded results.
Proof.
  destruct (shop_reader_loads (0%R, 1%R)) as [self [Hload _]].
  destruct (search_scores_bounded (Some shop_reader) (0%R, 1%R) (new_engine "shop.csv" [])
              self "tasse maison" None None None None false 30 (0%R, 1%R) Hload)
    as [results [diagnostics [Hrun Hall]]].
  exists self, results, diagnostics. split; [exact Hload|]. now split.
Defined.

(** ** search: the matched tokens *)

Lemma score_product_matched_ok (self : ProductSearchEngine R) (query : string)
      (qvec : dict string R) (qnorm : R) (idx : nat) (p : Product R)
      (r : SearchResult R) :
  score_product self (tokenize (Some query)) qvec qnorm idx p = Ok (Some r) ->
  matched_ok query r.
Proof.
  intros Hrun. apply score_product_matched in Hrun. destruct Hrun as [Hp Hm].
  unfold matched_ok. rewrite Hp, Hm.
  split; [apply sorted_ordered|]. split.
  - apply sorted_NoDup, NoDup_filter, py_set_NoDup.
  - intros t. rewrite sorted_In, filter_In, py_set_In, str_in_In. tauto.
Qed.

(** X28: over a well-formed index, the matched tokens of every result are
    the tokens of the query that occur in the searchable text of the product
    (split on white space): each such token is listed, once, no other is,
    and the list is in increasing order of code points. *)
Theorem search_matched_tokens (self : ProductSearchEngine R) (query : string)
        (min_price max_price : option R) (category : option string)
        (min_rating : option R) (debug : bool) (limit : Z) (clock : R * R) :
  index_wf self ->
  exists results diagnostics,
    search self query min_price max_price category min_rating debug limit clock
    = Ok (results, diagnostics)
    /\ Forall (matched_ok query) results.
Proof.
  intros Hwf.
  destruct (search_total self query min_price max_price category min_rating debug limit
              clock Hwf) as [results [diagnostics Hrun]].
  exists results, diagnostics. split; [exact Hrun|].
  apply Forall_forall. intros r Hr.
  apply (search_results self query min_price max_price category min_rating debug limit
           clock results diagnostics Hwf Hrun) in Hr.
  apply hits_by in Hr. destruct Hr as [i [p [_ [_ Hs]]]].
  exact (score_product_matched_ok _ _ _ _ _ _ _ Hs).
Qed.

Lemma search_matched_tokens_witness :
  exists results diagnostics,
    search loaded_mug "mug cadeau mug" None None None None false 30 (0%R, 1%R)
    = Ok (results, diagnostics)
    /\ Forall (matched_ok "mug cadeau mug") results.
Proof.
  exact (search_matched_tokens loaded_mug "mug cadeau mug" None None None None false 30
           (0%R, 1%R) loaded_mug_wf).
Defined.

(** ** search: a product is found by its title *)

(** X29: a product is found by its own title: on an engine that a load has
    filled, a search for the title of a stored product, as it is stored,
    returns that product with a fuzzy score of 1, provided the title has a
    token at all (it is not made of stopwords and single characters), the
    product passes the filters, and the limit is at least the number of
    products.  (Arithmetic over the reals.) *)
Theorem search_finds_own_title (file : option DictReader) (clock0 : R * R)
        (self0 self : ProductSearchEngine R) (i : nat) (p : Product R)
        (min_price max_price : option R) (category : option string)
        (min_rating : option R) (debug : bool) (limit : Z) (clock : R * R) :
  load_data file clock0 self0 = (Ok tt, self) ->
  nth_error (products self) i = Some p ->
  tokenize (Some (p_title p)) <> [] ->
  passes_filters min_price max_price category min_rating p = true ->
  (Z.of_nat (List.length (products self)) <= limit)%Z ->
  exists results diagnostics r,
    search self (p_title p) min_price max_price category min_rating debug limit clock
    = Ok (results, diagnostics)
    /\ In r results /\ product r = p /\ fuzzy_score r = 1%R.
Proof.
  intros Hload Hp Htokens Hpass Hlimit.
  pose proof (load_data_sound file clock0 self0 self Hload) as Hsound.
  pose proof Hsound as [Hwf [Hidf _]]. pose proof Hwf as [Hlv Hln].
  assert (Hi : i < List.length (products self)).
  { apply nth_error_Some. congruence. }
  destruct (nth_error (doc_vectors self) i) as [dvec|] eqn:Ev;
    [|apply nth_error_None in Ev; lia].
  destruct (nth_error (doc_norms self) i) as [dnorm|] eqn:En;
    [|apply nth_error_None in En; lia].
  destruct (index_sound_doc self i dvec dnorm Hsound Ev En) as [Hd ->].
  destruct (cosine_range (query_vector_of self (tokenize (Some (p_title p)))) dvec
              (query_vector_nonneg self _ Hidf) Hd (query_vector_NoDup self _))
    as [x [Hx Hxr]].
  pose proof (_fuzzy_score_same (tokenize (Some (p_title p))) (p_title p) Htokens eq_refl)
    as Hf.
  pose proof (bonus_of_range (tokenize (Some (p_title p))) p) as Hb.
  pose proof (score_product_cases self _ _ _ i p dvec (R_norm dvec) x 1%R Ev En Hx Hf)
    as Hscore.
  destruct (Rleb (72 / 100 * x + 22 / 100 * 1
                  + bonus_of (tokenize (Some (p_title p))) p) 0) eqn:Ele;
    [apply Rleb_true in Ele; lra|].
  destruct (search_hits self (p_title p) min_price max_price category min_rating debug
              limit clock Hwf Htokens) as [diagnostics Hrun].
  eexists. exists diagnostics.
  match type of Hscore with _ = Ok (Some ?r0) => exists r0 end.
  split; [exact Hrun|].
  split; [|split; [reflexivity | reflexivity]].
  pose proof (ranked_length self (p_title p) min_price max_price category min_rating)
    as Hlen.
  unfold ranked, all_hits in Hlen.
  unfold slice_to. replace (0 <=? limit)%Z with true by (symmetry; apply Z.leb_le; lia).
  rewrite firstn_all2 by lia.
  apply sort_by_score_In. apply hits_by.
  exists i, p. cbn [Nat.add]. split; [exact Hp|]. split; [exact Hpass|].
  exact Hscore.
Qed.

Lemma search_finds_own_title_witness :
  exists results diagnostics r,
    search loaded_mug (p_title mug) None None None None false 30 (0%R, 1%R)
    = Ok (results, diagnostics)
    /\ In r results /\ product r = mug /\ fuzzy_score r = 1%R.
Proof.
  apply (search_finds_own_title (Some sparse_reader) (0%R, 0%R)
           (new_engine "products.csv" []) loaded_mug 0 mug
           None None None None false 30 (0%R, 1%R)).
  - exact (sparse_reader_loads (0%R, 0%R)).
  - reflexivity.
  - vm_compute. discriminate.
  - reflexivity.
  - simpl. lia.
Defined.

(** ** search: no TF-IDF score without a shared token *)

Lemma query_vector_keys (self : ProductSearchEngine R) (query_tokens : list string)
      (t : string) :
  In t (dict_keys (query_vector_of self query_tokens)) -> In t query_tokens.
Proof.
  intros Hin.
  destruct (sget (query_vector_of self query_tokens) t) as [w|] eqn:E.
  - rewrite query_vector_get in E.
    destruct (str_in t query_tokens) eqn:Ein; [now apply str_in_In | discriminate].
  - apply (dict_get_None String.eqb String_eqb_spec) in E. contradiction.
Qed.

Lemma existsb_shared (query_tokens tokens : list string) :
  existsb (fun t => str_in t tokens) query_tokens = true
  <-> exists t, In t query_tokens /\ In t tokens.
Proof.
  rewrite existsb_exists. split; intros [t [Hq Ht]]; exists t; split; try exact Hq;
    now apply str_in_In.
Qed.

Lemma scored_needs_token (self : ProductSearchEngine R) (query : string)
      (i : nat) (r : SearchResult R) :
  doc_vectors self
  = map (fun p => tf_vector (idf self) (doc_tokens p)) (products self) ->
  nth_error (products self) i = Some (product r) ->
  scored self (tokenize (Some query))
         (query_vector_of self (tokenize (Some query)))
         (R_norm (query_vector_of self (tokenize (Some query)))) i r ->
  tfidf_needs_token query r.
Proof.
  intros Hv Hp [dvec [dnorm [Hd [_ [Hc _]]]]].
  rewrite Hv, nth_error_map, Hp in Hd. cbn [option_map] in Hd.
  inversion Hd; subst dvec. clear Hd.
  unfold tfidf_needs_token.
  destruct (existsb (fun t => str_in t (doc_tokens (product r))) (tokenize (Some query)))
    eqn:E.
  - right. now apply existsb_shared.
  - left.
    rewrite _cosine_similarity_disjoint in Hc; [congruence|].
    intros t Hin. apply query_vector_keys in Hin.
    rewrite tf_vector_get.
    destruct (str_in t (doc_tokens (product r))) eqn:Et; [|reflexivity].
    assert (Hex : existsb (fun t => str_in t (doc_tokens (product r)))
                          (tokenize (Some query)) = true).
    { apply existsb_exists. now exists t. }
    congruence.
Qed.

(** X30: the TF-IDF part of a score needs a shared token: on an engine that
    a load has filled, every result of [search] either has a TF-IDF score of
    0 or has a product one of whose tokens (those of its title, description,
    category and brand) is a token of the query.  A product that shares no
    token with the query is ranked by its fuzzy score and its bonus alone.
    (Arithmetic over the reals.) *)
Theorem search_tfidf_needs_shared_token (file : option DictReader) (clock0 : R * R)
        (self0 self : ProductSearchEngine R) (query : string)
        (min_price max_price : option R) (category : option string)
        (min_rating : option R) (debug : bool) (limit : Z) (clock : R * R) :
  load_data file clock0 self0 = (Ok tt, self) ->
  exists results diagnostics,
    search self query min_price max_price category min_rating debug limit clock
    = Ok (results, diagnostics)
    /\ Forall (tfidf_needs_token query) results.
Proof.
  intros Hload.
  pose proof (load_data_wf file clock0 self0 self Hload) as Hwf.
  destruct (load_data_index_of file clock0 self0 self Hload) as [_ [Hv _]].
  destruct (search_total self query min_price max_price category min_rating debug limit
              clock Hwf) as [results [diagnostics Hrun]].
  exists results, diagnostics. split; [exact Hrun|].
  apply Forall_forall. intros r Hr.
  apply (search_results self query min_price max_price category min_rating debug limit
           clock results diagnostics Hwf Hrun) in Hr.
  apply hits_In in Hr. destruct Hr as [i [Hp [_ Hs]]].
  exact (scored_needs_token self query (0 + i) r Hv Hp Hs).
Qed.

Lemma search_tfidf_needs_shared_token_witness :
  exists self results diagnostics,
    load_data (Some shop_reader) (0%R, 1%R) (new_engine "shop.csv" []) = (Ok tt, self)
    /\ search self "chaise longue" None None None None false 30 (0%R, 1%R)
       = Ok (results, diagnostics)
    /\ Forall (tfidf_needs_token "chaise longue") results.
Proof.
  destruct (shop_reader_loads (0%R, 1%R)) as [self [Hload _]].
  destruct (search_tfidf_needs_shared_token (Some shop_reader) (0%R, 1%R)
              (new_engine "shop.csv" []) self "chaise longue" None None None None
              false 30 (0%R, 1%R) Hload)
    as [results [diagnostics [Hrun Hall]]].
  exists self, results, diagnostics. split; [exact Hload|]. now split.
Defined.

(* ================================================================== *)
(** * The claims on the final score, the filters and the comma *)
(* ================================================================== *)

(** ** Every product that passes the filters is scored *)

Lemma pens_loads :
  load_data (Some pens_reader) (0%R, 0%R) (new_engine "pens.csv" []) = (Ok tt, pens).
Proof.
  rewrite load_data_cases.
  assert (Hh : has_headers pens_reader = true) by reflexivity.
  assert (Ht : has_title_column pens_reader (new_engine (F:=R) "pens.csv" []) = true)
    by (vm_compute; reflexivity).
  assert (Hr : read_rows (F:=R)
                 (columns_of pens_reader (new_engine (F:=R) "pens.csv" []))
                 0 (reader_rows pens_reader) ([], [], [])
               = Ok ([blue_pen; red_pen], ["Papeterie"],
                     [["stylo"; "bleu"; "papeterie"]; ["stylo"; "rouge"; "papeterie"]]))
    by (vm_compute; reflexivity).
  rewrite Hh, Ht, Hr. reflexivity.
Qed.

Lemma pens_sound : index_sound pens.
Proof. exact (load_data_sound _ _ _ _ pens_loads). Qed.

Lemma bonus_of_category (query_tokens : list string) (p : Product R) :
  (truthy (p_category p)
   && intersects (py_set query_tokens) (py_set (tokenize (Some (p_category p)))))%bool
  = true ->
  (12 / 100 <= bonus_of query_tokens p)%R.
Proof.
  intros Hc. unfold bonus_of. cbv zeta. rewrite Hc. rnum.
  destruct (truthy (p_brand p)
            && intersects (py_set query_tokens) (py_set (tokenize (Some (p_brand p)))))%bool;
    lra.
Qed.

(** On a sound index a product with a bonus has a positive final score. *)
Lemma final_score_positive (self : ProductSearchEngine R) (query_tokens : list string)
      (idx : nat) (p : Product R) (dvec qvec : dict string R)
      (dnorm qnorm tfidf fuzzy : R) :
  index_sound self ->
  nth_error (doc_vectors self) idx = Some dvec ->
  nth_error (doc_norms self) idx = Some dnorm ->
  _query_vector self query_tokens = Ok (qvec, qnorm) ->
  _cosine_similarity qvec qnorm dvec dnorm = Ok tfidf ->
  _fuzzy_score query_tokens (p_title p) = Ok fuzzy ->
  (12 / 100 <= bonus_of query_tokens p)%R ->
  (0 < 72 / 100 * tfidf + 22 / 100 * fuzzy + bonus_of query_tokens p)%R.
Proof.
  intros Hsound Hv Hn Hq Hc Hf Hb.
  rewrite _query_vector_ok in Hq. inversion Hq; subst qvec qnorm. clear Hq.
  destruct (index_sound_doc self idx dvec dnorm Hsound Hv Hn) as [Hd ->].
  destruct Hsound as [_ [Hidf _]].
  destruct (cosine_range (query_vector_of self query_tokens) dvec
              (query_vector_nonneg self query_tokens Hidf) Hd
              (query_vector_NoDup self query_tokens)) as [x [Hx Hxr]].
  rewrite Hx in Hc. inversion Hc; subst x.
  destruct (_fuzzy_score_range query_tokens (p_title p)) as [y [Hy Hyr]].
  rewrite Hy in Hf. inversion Hf; subst y.
  lra.
Qed.

(** A product that passes the filters and has a positive final score is
    among the results, with that score, when the limit does not cut it. *)
Lemma search_complete (self : ProductSearchEngine R) (query : string)
      (min_price max_price : option R) (category : option string)
      (min_rating : option R) (debug : bool) (limit : Z) (clock : R * R)
      (results : list (SearchResult R)) (diagnostics : Diagnostics R)
      (idx : nat) (p : Product R) (dvec : dict string R) (dnorm tfidf fuzzy : R) :
  index_wf self ->
  search self query min_price max_price category min_rating debug limit clock
  = Ok (results, diagnostics) ->
  tokenize (Some query) <> [] ->
  nth_error (products self) idx = Some p ->
  passes_filters min_price max_price category min_rating p = true ->
  nth_error (doc_vectors self) idx = Some dvec ->
  nth_error (doc_norms self) idx = Some dnorm ->
  _cosine_similarity (query_vector_of self (tokenize (Some query)))
                     (R_norm (query_vector_of self (tokenize (Some query))))
                     dvec dnorm = Ok tfidf ->
  _fuzzy_score (tokenize (Some query)) (p_title p) = Ok fuzzy ->
  (0 < 72 / 100 * tfidf + 22 / 100 * fuzzy + bonus_of (tokenize (Some query)) p)%R ->
  (Z.of_nat (List.length (products self)) <= limit)%Z ->
  exists r,
    In r results /\ product r = p /\ tfidf_score r = tfidf /\ fuzzy_score r = fuzzy
    /\ category_bonus r = bonus_of (tokenize (Some query)) p
    /\ score r = (72 / 100 * tfidf + 22 / 100 * fuzzy
                  + bonus_of (tokenize (Some query)) p)%R.
Proof.
  intros Hwf Hrun Htokens Hp Hpass Hv Hn Hc Hf Hpos Hlimit.
  pose proof (score_product_cases self _ _ _ idx p dvec dnorm tfidf fuzzy Hv Hn Hc Hf)
    as Hscore.
  destruct (Rleb (72 / 100 * tfidf + 22 / 100 * fuzzy
                  + bonus_of (tokenize (Some query)) p) 0) eqn:Ele;
    [apply Rleb_true in Ele; lra|].
  destruct (search_hits self query min_price max_price category min_rating debug
              limit clock Hwf Htokens) as [diagnostics' Hrun'].
  rewrite Hrun' in Hrun. inversion Hrun; subst results diagnostics. clear Hrun.
  match type of Hscore with _ = Ok (Some ?r0) => exists r0 end.
  split; [|now repeat split].
  pose proof (ranked_length self query min_price max_price category min_rating) as Hlen.
  unfold ranked, all_hits in Hlen.
  unfold slice_to. replace (0 <=? limit)%Z with true by (symmetry; apply Z.leb_le; lia).
  rewrite firstn_all2 by lia.
  apply sort_by_score_In. apply hits_by.
  exists idx, p. cbn [Nat.add]. split; [exact Hp|]. split; [exact Hpass|]. exact Hscore.
Qed.


(** C3: over a well-formed index (every loaded index is one, see
    [load_data_wf]) [search] returns, and
    - each result it returns belongs to a product of the index that passes
      the filters, with
      final_score = 0.72 * tfidf_score + 0.22 * fuzzy_score + category_bonus,
      the three scores being those of [_cosine_similarity], [_fuzzy_score]
      and the bonus rule for that product, and with final_score > 0;
    - every product of the index that passes the filters is scored, when the
      query has a token: its document vector and norm exist, its two scores
      are computed without an error, and if the final score that the formula
      gives for them is positive, the product is among the results with
      these scores and that final score (when the limit is at least the number
      of products, so that it cuts nothing).
    (Arithmetic over the reals.) *)
Theorem search_final_score (self : ProductSearchEngine R) (query : string)
        (min_price max_price : option R) (category : option string)
        (min_rating : option R) (debug : bool) (limit : Z) (clock : R * R) :
  index_wf self ->
  exists results diagnostics,
    search self query min_price max_price category min_rating debug limit clock
    = Ok (results, diagnostics)
    /\ (forall r, In r results ->
         score r = (72 / 100 * tfidf_score r + 22 / 100 * fuzzy_score r
                    + category_bonus r)%R
         /\ (0 < score r)%R
         /\ passes_filters min_price max_price category min_rating (product r) = true
         /\ exists idx dvec dnorm qvec qnorm,
              nth_error (products self) idx = Some (product r)
              /\ nth_error (doc_vectors self) idx = Some dvec
              /\ nth_error (doc_norms self) idx = Some dnorm
              /\ _query_vector self (tokenize (Some query)) = Ok (qvec, qnorm)
              /\ _cosine_similarity qvec qnorm dvec dnorm = Ok (tfidf_score r)
              /\ _fuzzy_score (tokenize (Some query)) (p_title (product r))
                 = Ok (fuzzy_score r)
              /\ category_bonus r = bonus_of (tokenize (Some query)) (product r))
    /\ (forall idx p,
          tokenize (Some query) <> [] ->
          nth_error (products self) idx = Some p ->
          passes_filters min_price max_price category min_rating p = true ->
          exists dvec dnorm qvec qnorm tfidf fuzzy,
            nth_error (doc_vectors self) idx = Some dvec
            /\ nth_error (doc_norms self) idx = Some dnorm
            /\ _query_vector self (tokenize (Some query)) = Ok (qvec, qnorm)
            /\ _cosine_similarity qvec qnorm dvec dnorm = Ok tfidf
            /\ _fuzzy_score (tokenize (Some query)) (p_title p) = Ok fuzzy
            /\ ((0 < 72 / 100 * tfidf + 22 / 100 * fuzzy
                     + bonus_of (tokenize (Some query)) p)%R ->
                (Z.of_nat (List.length (products self)) <= limit)%Z ->
                exists r,
                  In r results /\ product r = p
                  /\ tfidf_score r = tfidf /\ fuzzy_score r = fuzzy
                  /\ category_bonus r = bonus_of (tokenize (Some query)) p
                  /\ score r = (72 / 100 * tfidf + 22 / 100 * fuzzy
                                + bonus_of (tokenize (Some query)) p)%R)).
Proof.
  intros Hwf.
  destruct (search_total self query min_price max_price category min_rating debug
                         limit clock Hwf) as [results [diagnostics Hrun]].
  exists results, diagnostics. split; [exact Hrun|]. split.
  - intros r Hr.
    apply (search_results _ _ _ _ _ _ _ _ _ _ _ Hwf Hrun) in Hr.
    apply hits_In in Hr. destruct Hr as [i [Hi [Hpass Hscored]]].
    destruct Hscored as [dvec [dnorm [Hv [Hn [Hc [Hf [Hb [Hs Hpos]]]]]]]].
    repeat split; try assumption.
    exists i, dvec, dnorm, (query_vector_of self (tokenize (Some query))),
      (R_norm (query_vector_of self (tokenize (Some query)))).
    repeat split; try assumption. apply _query_vector_ok.
  - intros idx p Htokens Hp Hpass.
    pose proof Hwf as [Hlv Hln].
    assert (Hi : idx < List.length (products self)).
    { apply nth_error_Some. congruence. }
    destruct (nth_error (doc_vectors self) idx) as [dvec|] eqn:Ev;
      [|apply nth_error_None in Ev; lia].
    destruct (nth_error (doc_norms self) idx) as [dnorm|] eqn:En;
      [|apply nth_error_None in En; lia].
    destruct (_cosine_similarity_ok (query_vector_of self (tokenize (Some query))) dvec
                (R_norm (query_vector_of self (tokenize (Some query)))) dnorm)
      as [tfidf Hc].
    destruct (_fuzzy_score_range (tokenize (Some query)) (p_title p)) as [fuzzy [Hf _]].
    exists dvec, dnorm, (query_vector_of self (tokenize (Some query))),
      (R_norm (query_vector_of self (tokenize (Some query)))), tfidf, fuzzy.
    split; [reflexivity|]. split; [reflexivity|].
    split; [apply _query_vector_ok|]. split; [exact Hc|]. split; [exact Hf|].
    intros Hpos Hlimit.
    exact (search_complete self query min_price max_price category min_rating debug
             limit clock results diagnostics idx p dvec dnorm tfidf fuzzy
             Hwf Hrun Htokens Hp Hpass Ev En Hc Hf Hpos Hlimit).
Qed.

Lemma search_final_score_witness :
  exists results diagnostics r,
    search pens "stylo papeterie" None None None None false 30 (0%R, 1%R)
    = Ok (results, diagnostics)
    /\ In r results /\ product r = blue_pen
    /\ score r = (72 / 100 * tfidf_score r + 22 / 100 * fuzzy_score r
                  + category_bonus r)%R
    /\ (12 / 100 <= category_bonus r)%R
    /\ (0 < score r)%R.
Proof.
  destruct (search_final_score pens "stylo papeterie" None None None None false 30
              (0%R, 1%R) (proj1 pens_sound))
    as [results [diagnostics [Hrun [Hall Hevery]]]].
  assert (Htokens : tokenize (Some "stylo papeterie") <> [])
    by (vm_compute; discriminate).
  assert (Hb : (12 / 100 <= bonus_of (tokenize (Some "stylo papeterie")) blue_pen)%R)
    by (apply bonus_of_category; vm_compute; reflexivity).
  destruct (Hevery 0 blue_pen Htokens eq_refl eq_refl)
    as [dvec [dnorm [qvec [qnorm [tfidf [fuzzy [Hv [Hn [Hq [Hc [Hf Hin]]]]]]]]]]].
  pose proof (final_score_positive pens _ 0 blue_pen dvec qvec dnorm qnorm tfidf fuzzy
                pens_sound Hv Hn Hq Hc Hf Hb) as Hpos.
  assert (Hlimit : (Z.of_nat (List.length (products pens)) <= 30)%Z) by (simpl; lia).
  destruct (Hin Hpos Hlimit) as [r [Hr [Hp [_ [_ [Hbr _]]]]]].
  exists results, diagnostics, r. split; [exact Hrun|]. split; [exact Hr|].
  split; [exact Hp|]. destruct (Hall r Hr) as [Hs [Hsp _]].
  split; [exact Hs|]. split; [rewrite Hbr; exact Hb | exact Hsp].
Defined.

(** ** The filters *)




(** ** The comma of parse_numeric *)

(** C9: the code breaks the policy of the claim by a slip.  "1,50$" has
    exactly one comma, with two digits after it, and the policy makes the
    comma a decimal separator: 1.5.  [parse_numeric] returns 150: it tests
    the length of what follows the comma ([len(cleaned.split(",")[1]) <= 2])
    before it removes the characters that are not numeric, so the currency
    sign is counted as a third character.  The spaces and the percent signs,
    which are removed before the test, do no such harm, nor does a sign
    before the number: "1,50%" and "$1,50" are parsed as 1.5.  Where the
    value is made of digits and a comma the code follows the policy:
    "2,50" is 2.5 and "2,500" is 2500.  (In binary64 and over the
    reals.) *)
Theorem parse_numeric_comma_slip :
  cleaned_of "1,50$" = "1,50$"
  /\ spec_comma_is_decimal "1,50$" = true
  /\ parse_numeric (F:=R) (Some "1,50$") = Some 150%R
  /\ parse_numeric (F:=R) (Some "1,50$") <> Some (150 / 100)%R
  /\ parse_numeric (F:=R) (Some "1,50%") = Some (150 / 100)%R
  /\ parse_numeric (F:=R) (Some "$1,50") = Some (150 / 100)%R
  /\ parse_numeric (F:=PrimFloat.float) (Some "1,50$") = Some (of_int 150)
  /\ parse_numeric (F:=PrimFloat.float) (Some "1,50%") = Some (div_int 150 100)
  /\ parse_numeric (F:=PrimFloat.float) (Some "$1,50") = Some (div_int 150 100)
  /\ parse_numeric (F:=R) (Some "2,50") = Some (250 / 100)%R
  /\ parse_numeric (F:=R) (Some "2,500") = Some 2500%R
  /\ parse_numeric (F:=PrimFloat.float) (Some "2,50") = Some (div_int 5 2)
  /\ parse_numeric (F:=PrimFloat.float) (Some "2,500") = Some (of_int 2500).
Proof.
  assert (H1 : parse_numeric (F:=R) (Some "1,50$") = Some 150%R) by reflexivity.
  split; [reflexivity|]. split; [reflexivity|]. split; [exact H1|].
  split; [rewrite H1; intros Heq; inversion Heq; lra|].
  split; [reflexivity|]. split; [reflexivity|].
  split; [vm_compute; reflexivity|]. split; [vm_compute; reflexivity|].
  split; [vm_compute; reflexivity|].
  split; [reflexivity|]. split; [reflexivity|].
  split; vm_compute; reflexivity.
Qed.
